(** * Space shooter: the update / collision / removal engine of
      [space_shooter.js], embedded as executable Rocq functions.

    Counters, ids and health are integers.  Time stamps, the fixed step
    and what is computed from them ([delta_time], [masterTime],
    [projShotTime], [timeAliveCount], the score) are IEEE 754 doubles, as
    in JavaScript: a double is represented by the rational it denotes, and
    every operation rounds its exact result to the nearest double, ties to
    even ([Module Double]; the module [DoubleCheck] at the end compares it
    with the primitive floats of Rocq).  Positions, velocities and speeds
    are modelled by the exact real values they stand for; they live in
    the field Q(sqrt 2), which is closed under every operation the program
    applies to them (the only square roots taken are of
    [speed * speed / 2]).  The module [NumReal] at the end relates this
    arithmetic to the real numbers. *)

From Stdlib Require Import String ZArith QArith Qpower Qround Qabs.
From Stdlib Require Import List Bool Lia Lqa Sorted.
From Stdlib Require Reals Qreals Lra Floats.
Import ListNotations.

Local Open Scope Z_scope.

(* ------------------------------------------------------------------ *)
(** ** Numbers of the form [rat + irr * sqrt 2] *)
(* ------------------------------------------------------------------ *)

Module Num.

Record num : Type := mk { rat : Q; irr : Q }.

Definition of_Q (q : Q) : num := mk (Qred q) 0.
Definition of_Z (z : Z) : num := mk (inject_Z z) 0.
Definition sqrt2 : num := mk 0 1.

Definition add (x y : num) : num :=
  mk (Qred (rat x + rat y)) (Qred (irr x + irr y)).

Definition opp (x : num) : num := mk (Qred (- rat x)) (Qred (- irr x)).

Definition sub (x y : num) : num :=
  mk (Qred (rat x - rat y)) (Qred (irr x - irr y)).

Definition mul (x y : num) : num :=
  mk (Qred (rat x * rat y + 2 * (irr x * irr y)))
     (Qred (rat x * irr y + irr x * rat y)).

(** [x / y] multiplies by the conjugate of [y]; the norm
    [rat y ^ 2 - 2 * irr y ^ 2] is zero only for [y = 0]. *)
Definition div (x y : num) : num :=
  let n := (rat y * rat y - 2 * (irr y * irr y))%Q in
  mk (Qred ((rat x * rat y - 2 * (irr x * irr y)) / n))
     (Qred ((irr x * rat y - rat x * irr y) / n)).

(** Sign of [rat + irr * sqrt 2]: when the two parts disagree in sign the
    squares [rat ^ 2] and [2 * irr ^ 2] are compared. *)
Definition sgn (x : num) : comparison :=
  let a := rat x in
  let b := irr x in
  match (a ?= 0)%Q, (b ?= 0)%Q with
  | Eq, c => c
  | c, Eq => c
  | Gt, Gt => Gt
  | Lt, Lt => Lt
  | Gt, Lt => (a * a ?= 2 * (b * b))%Q
  | Lt, Gt => (2 * (b * b) ?= a * a)%Q
  end.

Definition compare (x y : num) : comparison := sgn (sub x y).

Definition ltb (x y : num) : bool :=
  match compare x y with Lt => true | _ => false end.
Definition gtb (x y : num) : bool :=
  match compare x y with Gt => true | _ => false end.
Definition leb (x y : num) : bool :=
  match compare x y with Gt => false | _ => true end.
Definition geb (x y : num) : bool :=
  match compare x y with Lt => false | _ => true end.
Definition eqb (x y : num) : bool :=
  match compare x y with Eq => true | _ => false end.

(** [Math.max] and [Math.min] on two arguments. *)
Definition max (x y : num) : num := if ltb x y then y else x.
Definition min (x y : num) : num := if ltb y x then y else x.

(** [Math.floor]: the integer part of [rat] plus the integer part of
    [irr * sqrt 2], corrected by one when the fractional parts carry. *)
Definition floor_irr (b : Q) : Z :=
  let r := Z.sqrt (Qfloor (2 * (b * b))) in
  match (b ?= 0)%Q with
  | Eq => 0
  | Gt => r
  | Lt => - r - 1
  end.

Definition floor (x : num) : Z :=
  let n0 := Qfloor (rat x) + floor_irr (irr x) in
  if leb (of_Z (n0 + 1)) x then n0 + 1 else n0.

(** [Math.round]: nearest integer, ties towards plus infinity. *)
Definition round (x : num) : Z := floor (add x (of_Q (1 # 2))).

(** Exact rational square root, when there is one. *)
Definition Qsqrt_exact (q : Q) : option Q :=
  let q' := Qred q in
  let n := Qnum q' in
  let d := Zpos (Qden q') in
  let rn := Z.sqrt n in
  let rd := Z.sqrt d in
  if (0 <=? n) && (rn * rn =? n) && (rd * rd =? d)
  then Some (Qred (Qmake rn (Z.to_pos rd)))
  else None.

(** [Math.sqrt] on the rationals whose root lies in Q(sqrt 2): [q = r^2]
    gives [r], [q = 2 * r^2] gives [r * sqrt 2].  [None] stands for a
    root outside the field. *)
Definition sqrt_opt (x : num) : option num :=
  match (irr x ?= 0)%Q with
  | Eq =>
      match Qsqrt_exact (rat x) with
      | Some r => Some (mk r 0)
      | None =>
          match Qsqrt_exact (rat x / 2) with
          | Some r => Some (mk 0 r)
          | None => None
          end
      end
  | _ => None
  end.

Definition sqrt (x : num) : num :=
  match sqrt_opt x with Some r => r | None => of_Z 0 end.

End Num.

Abbreviation num := Num.num.

Declare Scope num_scope.
Delimit Scope num_scope with num.
Bind Scope num_scope with Num.num.
Infix "+" := Num.add : num_scope.
Infix "-" := Num.sub : num_scope.
Infix "*" := Num.mul : num_scope.
Infix "/" := Num.div : num_scope.
Infix "<?" := Num.ltb : num_scope.
Infix ">?" := Num.gtb : num_scope.
Infix "<=?" := Num.leb : num_scope.
Infix ">=?" := Num.geb : num_scope.

(* ------------------------------------------------------------------ *)
(** ** Doubles *)
(* ------------------------------------------------------------------ *)

Module Double.

(** A double is the rational it denotes.  [round] is rounding to the
    nearest double, ties to even: 53 significant bits, with the fixed
    spacing [2^-1074] of the subnormal range below [2^-1022].  Nothing in
    the program comes near the largest double, so overflow to [Infinity]
    is left out. *)

(** [2 ^ e] *)
Definition pow2 (e : Z) : Q := Qpower 2 e.

(** The exponent of a positive number: the [e] with [2^e <= q < 2^(e+1)]. *)
Definition ilog2 (q : Q) : Z :=
  let k := Z.log2 (Qnum q) - Z.log2 (Zpos (Qden q)) in
  if Qle_bool (pow2 k) q then k else k - 1.

(** Nearest integer, ties to the even one. *)
Definition round_half_even (q : Q) : Z :=
  let f := Qfloor q in
  match (q - inject_Z f ?= 1 # 2)%Q with
  | Lt => f
  | Gt => f + 1
  | Eq => if Z.even f then f else f + 1
  end.

Definition round (q : Q) : Q :=
  match Qnum q with
  | Z0 => 0%Q
  | _ =>
      let e := Z.max (ilog2 (Qabs q)) (-1022) in
      let ulp := pow2 (e - 52) in
      Qred (inject_Z (round_half_even (q / ulp)) * ulp)
  end.

Definition add (a b : Q) : Q := round (a + b).
Definition sub (a b : Q) : Q := round (a - b).
Definition mul (a b : Q) : Q := round (a * b).
Definition div (a b : Q) : Q := round (a / b).

End Double.

(** Primitive floats, to compare [Double] with. *)
Module FloatRef.
Import Floats.

(** The rational a primitive float denotes, if it is finite. *)
Definition float_value (f : float) : option Q :=
  match Prim2SF f with
  | S754_zero _ => Some 0%Q
  | S754_finite s m e =>
      Some (Qred ((if s then -1 else 1) * inject_Z (Zpos m) * Double.pow2 e))
  | _ => None
  end.

(** The passes of the [while] loop of [loop], counted with primitive
    floats. *)
Fixpoint float_passes (fuel : nat) (delta_time : float) : nat :=
  match fuel with
  | O => 0%nat
  | S fuel' =>
      if (1 / 60 <? delta_time)%float
      then S (float_passes fuel' (delta_time - 1 / 60)%float)
      else 0%nat
  end.

End FloatRef.

(* ------------------------------------------------------------------ *)
(** ** Sparse JavaScript arrays *)
(* ------------------------------------------------------------------ *)

(** [player.enemies] and [player.projectiles] are arrays written at the
    index of an entity id, so they have holes ([None]). *)
Section JsArray.
Context {A : Type}.

(** [arr[i] = v]: writing past the end pads with holes. *)
Fixpoint arr_set (i : nat) (v : A) (l : list (option A)) : list (option A) :=
  match i, l with
  | O, [] => [Some v]
  | O, _ :: t => Some v :: t
  | S i', [] => None :: arr_set i' v []
  | S i', h :: t => h :: arr_set i' v t
  end.

(** [arr.splice(i, 1)]: drops the slot at index [i] (a hole counts) and
    shifts the rest down; nothing happens at or past the end. *)
Fixpoint splice1 (i : nat) (l : list (option A)) : list (option A) :=
  match i, l with
  | _, [] => []
  | O, _ :: t => t
  | S i', h :: t => h :: splice1 i' t
  end.

(** The elements [arr.map] and [arr.forEach] visit: holes are skipped. *)
Fixpoint present (l : list (option A)) : list A :=
  match l with
  | [] => []
  | Some a :: t => a :: present t
  | None :: t => present t
  end.

End JsArray.

(* ------------------------------------------------------------------ *)
(** ** Data model *)
(* ------------------------------------------------------------------ *)

Record point : Type := mkpoint { x : num; y : num }.

Record dims : Type := mkdims { width : Z; height : Z }.

Record controller_state : Type :=
  mkcontroller { move_x : Z; move_y : Z; action_1 : bool }.

(** Fields every [Body] has. *)
Record body : Type := mkbody {
  id : nat;
  position : point;
  velocity : point;
  size : dims;
  health : Z
}.

(** Fields [Player] adds.  [raw_input] lists the key codes that are down. *)
Record player_data : Type := mkplayer {
  controller : controller_state;
  raw_input : list Z;
  speed : num;
  enemyTimer : Z;
  projectileReady : bool;
  color : string;
  hit : Z;
  enemies : list (option point);
  projectiles : list (option point)
}.

Inductive entity : Type :=
| Player (b : body) (p : player_data)
| Projectile (b : body) (pspeed : num) (projectile : point)
| Enemy (b : body) (espeed : num).

Definition body_of (e : entity) : body :=
  match e with
  | Player b _ => b
  | Projectile b _ _ => b
  | Enemy b _ => b
  end.

(** What the page shows after a step (the [innerHTML] assignments). *)
Record hud_state : Type := mkhud {
  hud_loop_count : Z;
  hud_kill_count : Z;
  hud_time_alive : Z;
  hud_enemy_count : Z;
  hud_total_score : Z;
  hud_high_score : Z;
  hud_health : Z
}.

(** The global variables of the script.  Objects live in [heap], keyed by
    the id their constructor drew from [running_id]; [entities] is the
    registry (its keys, in ascending order, each referring to the heap
    object of that id); [player] and [enemy_spawner] are references.
    [random_source] lists the values [Math.random] is going to return. *)
Record world : Type := mkworld {
  last_time : option Q;
  loop_count : Z;
  running_id : nat;
  enemiesHit : Z;
  enemyCount : Z;
  masterTime : Q;
  timeAliveCount : Q;
  prevAliveCount : Q;
  currerntHighScore : Z;
  masterHighScore : Z;
  projShotTime : Q;
  entities : list nat;
  queued_entities_for_removal : list nat;
  player : option nat;
  enemy_spawner : option nat;
  heap : list (nat * entity);
  random_source : nat -> Q;
  random_calls : nat;
  hud : hud_state
}.

Definition config_canvas_size : dims := mkdims 360 500.
Definition config_update_rate_fps : Q := 60.
Definition config_update_rate_seconds : Q := Double.div 1 config_update_rate_fps.

(* ------------------------------------------------------------------ *)
(** ** Assignments to single fields *)
(* ------------------------------------------------------------------ *)

Definition set_position (v : point) (b : body) : body :=
  mkbody (id b) v (velocity b) (size b) (health b).
Definition set_health (v : Z) (b : body) : body :=
  mkbody (id b) (position b) (velocity b) (size b) v.

Definition set_controller (v : controller_state) (p : player_data) : player_data :=
  mkplayer v (raw_input p) (speed p) (enemyTimer p) (projectileReady p)
           (color p) (hit p) (enemies p) (projectiles p).
Definition set_raw_input (v : list Z) (p : player_data) : player_data :=
  mkplayer (controller p) v (speed p) (enemyTimer p) (projectileReady p)
           (color p) (hit p) (enemies p) (projectiles p).
Definition set_enemyTimer (v : Z) (p : player_data) : player_data :=
  mkplayer (controller p) (raw_input p) (speed p) v (projectileReady p)
           (color p) (hit p) (enemies p) (projectiles p).
Definition set_projectileReady (v : bool) (p : player_data) : player_data :=
  mkplayer (controller p) (raw_input p) (speed p) (enemyTimer p) v
           (color p) (hit p) (enemies p) (projectiles p).
Definition set_color (v : string) (p : player_data) : player_data :=
  mkplayer (controller p) (raw_input p) (speed p) (enemyTimer p)
           (projectileReady p) v (hit p) (enemies p) (projectiles p).
Definition set_hit (v : Z) (p : player_data) : player_data :=
  mkplayer (controller p) (raw_input p) (speed p) (enemyTimer p)
           (projectileReady p) (color p) v (enemies p) (projectiles p).
Definition set_enemies (v : list (option point)) (p : player_data) : player_data :=
  mkplayer (controller p) (raw_input p) (speed p) (enemyTimer p)
           (projectileReady p) (color p) (hit p) v (projectiles p).
Definition set_projectiles (v : list (option point)) (p : player_data) : player_data :=
  mkplayer (controller p) (raw_input p) (speed p) (enemyTimer p)
           (projectileReady p) (color p) (hit p) (enemies p) v.

Definition set_running_id (v : nat) (w : world) : world :=
  mkworld (last_time w) (loop_count w) v (enemiesHit w) (enemyCount w)
          (masterTime w) (timeAliveCount w) (prevAliveCount w)
          (currerntHighScore w) (masterHighScore w) (projShotTime w)
          (entities w) (queued_entities_for_removal w) (player w)
          (enemy_spawner w) (heap w) (random_source w) (random_calls w) (hud w).
Definition set_enemiesHit (v : Z) (w : world) : world :=
  mkworld (last_time w) (loop_count w) (running_id w) v (enemyCount w)
          (masterTime w) (timeAliveCount w) (prevAliveCount w)
          (currerntHighScore w) (masterHighScore w) (projShotTime w)
          (entities w) (queued_entities_for_removal w) (player w)
          (enemy_spawner w) (heap w) (random_source w) (random_calls w) (hud w).
Definition set_enemyCount (v : Z) (w : world) : world :=
  mkworld (last_time w) (loop_count w) (running_id w) (enemiesHit w) v
          (masterTime w) (timeAliveCount w) (prevAliveCount w)
          (currerntHighScore w) (masterHighScore w) (projShotTime w)
          (entities w) (queued_entities_for_removal w) (player w)
          (enemy_spawner w) (heap w) (random_source w) (random_calls w) (hud w).
Definition set_projShotTime (v : Q) (w : world) : world :=
  mkworld (last_time w) (loop_count w) (running_id w) (enemiesHit w)
          (enemyCount w) (masterTime w) (timeAliveCount w) (prevAliveCount w)
          (currerntHighScore w) (masterHighScore w) v
          (entities w) (queued_entities_for_removal w) (player w)
          (enemy_spawner w) (heap w) (random_source w) (random_calls w) (hud w).
Definition set_entities (v : list nat) (w : world) : world :=
  mkworld (last_time w) (loop_count w) (running_id w) (enemiesHit w)
          (enemyCount w) (masterTime w) (timeAliveCount w) (prevAliveCount w)
          (currerntHighScore w) (masterHighScore w) (projShotTime w)
          v (queued_entities_for_removal w) (player w)
          (enemy_spawner w) (heap w) (random_source w) (random_calls w) (hud w).
Definition set_queued_entities_for_removal (v : list nat) (w : world) : world :=
  mkworld (last_time w) (loop_count w) (running_id w) (enemiesHit w)
          (enemyCount w) (masterTime w) (timeAliveCount w) (prevAliveCount w)
          (currerntHighScore w) (masterHighScore w) (projShotTime w)
          (entities w) v (player w)
          (enemy_spawner w) (heap w) (random_source w) (random_calls w) (hud w).
Definition set_player (v : option nat) (w : world) : world :=
  mkworld (last_time w) (loop_count w) (running_id w) (enemiesHit w)
          (enemyCount w) (masterTime w) (timeAliveCount w) (prevAliveCount w)
          (currerntHighScore w) (masterHighScore w) (projShotTime w)
          (entities w) (queued_entities_for_removal w) v
          (enemy_spawner w) (heap w) (random_source w) (random_calls w) (hud w).
Definition set_enemy_spawner (v : option nat) (w : world) : world :=
  mkworld (last_time w) (loop_count w) (running_id w) (enemiesHit w)
          (enemyCount w) (masterTime w) (timeAliveCount w) (prevAliveCount w)
          (currerntHighScore w) (masterHighScore w) (projShotTime w)
          (entities w) (queued_entities_for_removal w) (player w)
          v (heap w) (random_source w) (random_calls w) (hud w).
Definition set_heap (v : list (nat * entity)) (w : world) : world :=
  mkworld (last_time w) (loop_count w) (running_id w) (enemiesHit w)
          (enemyCount w) (masterTime w) (timeAliveCount w) (prevAliveCount w)
          (currerntHighScore w) (masterHighScore w) (projShotTime w)
          (entities w) (queued_entities_for_removal w) (player w)
          (enemy_spawner w) v (random_source w) (random_calls w) (hud w).
Definition set_random_calls (v : nat) (w : world) : world :=
  mkworld (last_time w) (loop_count w) (running_id w) (enemiesHit w)
          (enemyCount w) (masterTime w) (timeAliveCount w) (prevAliveCount w)
          (currerntHighScore w) (masterHighScore w) (projShotTime w)
          (entities w) (queued_entities_for_removal w) (player w)
          (enemy_spawner w) (heap w) (random_source w) v (hud w).

(* ------------------------------------------------------------------ *)
(** ** Heap and registry *)
(* ------------------------------------------------------------------ *)

Fixpoint lookup (i : nat) (h : list (nat * entity)) : option entity :=
  match h with
  | [] => None
  | (k, e) :: t => if Nat.eqb i k then Some e else lookup i t
  end.

(** Writing the fields of object [i] back; a new object goes at the end. *)
Fixpoint store (i : nat) (e : entity) (h : list (nat * entity)) : list (nat * entity) :=
  match h with
  | [] => [(i, e)]
  | (k, e0) :: t => if Nat.eqb i k then (k, e) :: t else (k, e0) :: store i e t
  end.

Definition write (i : nat) (e : entity) (w : world) : world :=
  set_heap (store i e (heap w)) w.

(** [entities[i] = obj]: [Object.values] lists integer keys in ascending
    order, so the registry keeps its keys sorted. *)
Fixpoint reg_insert (i : nat) (l : list nat) : list nat :=
  match l with
  | [] => [i]
  | k :: t =>
      if Nat.ltb i k then i :: l
      else if Nat.eqb i k then l
      else k :: reg_insert i t
  end.

(** [delete entities[i]] *)
Fixpoint reg_delete (i : nat) (l : list nat) : list nat :=
  match l with
  | [] => []
  | k :: t => if Nat.eqb i k then reg_delete i t else k :: reg_delete i t
  end.

Definition in_registry (i : nat) (w : world) : bool :=
  existsb (Nat.eqb i) (entities w).

(** The object the global [player] refers to. *)
Definition the_player (w : world) : option (nat * body * player_data) :=
  match player w with
  | Some pid =>
      match lookup pid (heap w) with
      | Some (Player b p) => Some (pid, b, p)
      | _ => None
      end
  | None => None
  end.

(** [Body.isDead] *)
Definition isDead (b : body) : bool := health b <=? 0.

(** [Body.remove]: pushes the id on the removal queue. *)
Definition remove (i : nat) (w : world) : world :=
  set_queued_entities_for_removal (queued_entities_for_removal w ++ [i]) w.

(** [Body.update]: [position += delta_time * velocity]. *)
Definition integrate (delta_time : Q) (pos vel : point) : point :=
  mkpoint (x pos + Num.of_Q delta_time * x vel)%num
          (y pos + Num.of_Q delta_time * y vel)%num.

(** [Math.min(Math.max(0, v), bound)] *)
Definition clip (bound : Z) (v : num) : num :=
  Num.min (Num.max (Num.of_Z 0) v) (Num.of_Z bound).

(* ------------------------------------------------------------------ *)
(** ** Constructors *)
(* ------------------------------------------------------------------ *)

Definition origin : point := mkpoint (Num.of_Z 0) (Num.of_Z 0).
Definition default_size : dims := mkdims 10 10.

(** [Body()]: draws the next id; the caller registers the finished object. *)
Definition new_body (w : world) : body :=
  mkbody (running_id w) origin origin default_size 100.

(** [entities[this.id] = this], with [running_id++] *)
Definition register (e : entity) (w : world) : world :=
  let i := running_id w in
  set_entities (reg_insert i (entities w))
    (set_heap (store i e (heap w)) (set_running_id (S i) w)).

(** [new Enemy()]: [x = Math.floor(Math.random() * 260) + 30], [y = -50]. *)
Definition new_Enemy (w : world) : world :=
  let r := random_source w (random_calls w) in
  let pos := mkpoint (Num.of_Z (Qfloor (Double.mul r 260) + 30))
                     (Num.of_Z (-50)) in
  register (Enemy (set_position pos (new_body w)) (Num.of_Z 3))
           (set_random_calls (S (random_calls w)) w).

(** [new Projectile()]: starts where the global [player] is. *)
Definition new_Projectile (w : world) : world :=
  match the_player w with
  | Some (_, pb, _) =>
      register (Projectile (new_body w) (Num.of_Z 5)
                           (mkpoint (x (position pb)) (y (position pb)))) w
  | None => w
  end.

Definition green : string := "#90EE90".
Definition red : string := "#FF0000".

(** [new Player()] *)
Definition new_Player (w : world) : world :=
  let pos := mkpoint (Num.of_Z (width config_canvas_size) / Num.of_Z 2)%num
                     (Num.of_Z (height config_canvas_size) - Num.of_Z 100)%num in
  register (Player (set_position pos (new_body w))
                   (mkplayer (mkcontroller 0 0 false) [] (Num.of_Z 2) 0 false
                             green 0 [] [])) w.

(* ------------------------------------------------------------------ *)
(** ** Input *)
(* ------------------------------------------------------------------ *)

Inductive key_event : Type :=
| keydown (keyCode : Z)
| keyup (keyCode : Z).

Definition held (keyCode : Z) (raw : list Z) : bool :=
  existsb (Z.eqb keyCode) raw.

Definition apply_key (ev : key_event) (raw : list Z) : list Z :=
  match ev with
  | keydown c => if held c raw then raw else raw ++ [c]
  | keyup c => filter (fun k => negb (Z.eqb c k)) raw
  end.

(** Every [Player] ever constructed has its own listeners on the window,
    so an event reaches the [raw_input] of each of them. *)
Definition dispatch_key (ev : key_event) (w : world) : world :=
  set_heap
    (map (fun ke : nat * entity =>
            match ke with
            | (k, Player b p) =>
                (k, Player b (set_raw_input (apply_key ev (raw_input p)) p))
            | _ => ke
            end) (heap w)) w.

(** [InputHandler.pollController]: space is [action_1]; D / A add +1 / -1
    to [move_x]; W / S add -1 / +1 to [move_y]. *)
Definition poll (raw : list Z) : controller_state :=
  mkcontroller
    ((if held 65 raw then -1 else 0) + (if held 68 raw then 1 else 0))
    ((if held 83 raw then 1 else 0) + (if held 87 raw then -1 else 0))
    (held 32 raw).

Definition pollController (w : world) : world :=
  match the_player w with
  | Some (pid, b, p) => write pid (Player b (set_controller (poll (raw_input p)) p)) w
  | None => w
  end.

(* ------------------------------------------------------------------ *)
(** ** [Player.update] *)
(* ------------------------------------------------------------------ *)

Definition Qgtb (a b : Q) : bool := negb (Qle_bool a b).

(** The colour of the damage flash for the decremented countdown. *)
Definition flash_color (h : Z) : string :=
  if (h >? 80) || ((h >? 40) && (h <? 60)) || ((h <? 20) && (h >? 2))
  then red else green.

(** The displacement the controller asks for. *)
Definition player_move (c : controller_state) (spd : num) (pos : point) : point :=
  let diagonalSpeed := Num.sqrt ((spd * spd) / Num.of_Z 2)%num in
  if (move_x c =? 1) && (move_y c =? -1) then
    mkpoint (x pos + diagonalSpeed)%num (y pos - diagonalSpeed)%num
  else if (move_x c =? -1) && (move_y c =? -1) then
    mkpoint (x pos - diagonalSpeed)%num (y pos - diagonalSpeed)%num
  else if (move_x c =? -1) && (move_y c =? 1) then
    mkpoint (x pos - diagonalSpeed)%num (y pos + diagonalSpeed)%num
  else if (move_x c =? 1) && (move_y c =? 1) then
    mkpoint (x pos + diagonalSpeed)%num (y pos + diagonalSpeed)%num
  else if move_x c =? -1 then mkpoint (x pos - spd)%num (y pos)
  else if move_x c =? 1 then mkpoint (x pos + spd)%num (y pos)
  else if move_y c =? -1 then mkpoint (x pos) (y pos - spd)%num
  else if move_y c =? 1 then mkpoint (x pos) (y pos + spd)%num
  else pos.

(** Whether this call of [Player.update] creates a projectile:
    [action_1], [projectileReady] (possibly armed by this very tick) and
    [masterTime > projShotTime + 0.5]. *)
Definition armed (p : player_data) : bool :=
  if (Z.rem (enemyTimer p + 1) 40 =? 0) && negb (projectileReady p)
  then true else projectileReady p.

Definition fires (p : player_data) (w : world) : bool :=
  action_1 (controller p) && armed p
  && Qgtb (masterTime w) (Double.add (projShotTime w) (1 # 2)).

Definition Player_update (pid : nat) (delta_time : Q) (w : world) : world :=
  match lookup pid (heap w) with
  | Some (Player b p) =>
      (* spawns an enemy *)
      let timer := enemyTimer p + 1 in
      let w1 := if Z.rem timer 20 =? 0
                then new_Enemy (set_enemyCount (enemyCount w + 1) w)
                else w in
      (* arms and fires a projectile *)
      let fire := fires p w1 in
      let w2 := if fire
                then new_Projectile (set_projShotTime (masterTime w1) w1)
                else w1 in
      let ready := if fire then false else armed p in
      (* damage flash *)
      let flashing := negb (hit p =? 0) && (health b >? 0) in
      let hit' := if flashing then hit p - 1 else hit p in
      let color' := if flashing then flash_color hit' else green in
      (* movement, integration, clip to screen *)
      let pos1 := player_move (controller p) (speed p) (position b) in
      let pos2 := integrate delta_time pos1 (velocity b) in
      let pos3 := mkpoint (clip (width config_canvas_size) (x pos2))
                          (clip (height config_canvas_size) (y pos2)) in
      write pid
        (Player (set_position pos3 b)
                (set_color color'
                   (set_hit hit'
                      (set_projectileReady ready (set_enemyTimer timer p)))))
        w2
  | _ => w
  end.

(* ------------------------------------------------------------------ *)
(** ** [Enemy.update] and [Projectile.update] *)
(* ------------------------------------------------------------------ *)

(** [a.x + r >= b.x && a.x - r <= b.x && a.y + r >= b.y && a.y - r <= b.y] *)
Definition near (r : Z) (a b : point) : bool :=
  (x a + Num.of_Z r >=? x b)%num && (x a - Num.of_Z r <=? x b)%num
  && (y a + Num.of_Z r >=? y b)%num && (y a - Num.of_Z r <=? y b)%num.

(** The test that makes an enemy home in on the player. *)
Definition homing (ppos epos : point) : bool :=
  (y ppos - y epos <? Num.of_Z 150)%num
  && (y ppos - y epos >? Num.of_Z 0)%num
  && (Z.rem (Num.round (y epos)) 4 =? 0).

Definition enemy_diagonalSpeed (spd : num) : num :=
  (Num.sqrt ((spd * spd) / Num.of_Z 2) * Num.of_Z 2)%num.

(** Moves the enemy down the screen and, once close enough, towards the
    player. *)
Definition enemy_move (spd : num) (ppos epos : point) : point :=
  let diagonalSpeed := enemy_diagonalSpeed spd in
  let d := (diagonalSpeed / Num.of_Q (3 # 2))%num in
  if homing ppos epos then
    if (x ppos >? x epos)%num
    then mkpoint (x epos + d)%num (y epos + d)%num
    else mkpoint (x epos - d)%num (y epos + d)%num
  else mkpoint (x epos) (y epos + spd)%num.

(** [player.projectiles.map(...)] inside [Enemy.update]: one [remove] for
    each stored projectile the enemy is near. *)
Definition enemy_hit_by (eid : nat) (epos : point) (shots : list (option point))
    (w : world) : world :=
  fold_left (fun w0 pr => if near 10 epos pr then remove eid w0 else w0)
            (present shots) w.

Definition Enemy_update (eid : nat) (delta_time : Q) (w : world) : world :=
  match lookup eid (heap w), the_player w with
  | Some (Enemy b spd), Some (pid, pb, pp) =>
      (* removes enemy if player dies *)
      let w1 := if health pb =? 0 then remove eid w else w in
      (* adds enemy to player array *)
      let pp1 := set_enemies (arr_set eid (position b) (enemies pp)) pp in
      let w2 := write pid (Player pb pp1) w1 in
      (* "bug fix" *)
      let w3 := if Nat.eqb eid 1 then remove eid w2 else w2 in
      let pos1 := enemy_move spd (position pb) (position b) in
      (* removes enemy once it exits view *)
      let w4 := if (y pos1 >? Num.of_Z 500)%num then remove eid w3 else w3 in
      (* hit by a projectile *)
      let w5 := enemy_hit_by eid pos1 (projectiles pp1) w4 in
      (* hits the player *)
      let w6 := if near 10 pos1 (position pb)
                then remove eid
                       (write pid (Player (set_health (health pb - 25) pb)
                                          (set_hit 100 pp1)) w5)
                else w5 in
      let pos2 := integrate delta_time pos1 (velocity b) in
      let pos3 := mkpoint (clip (width config_canvas_size + 50) (x pos2))
                          (clip (height config_canvas_size + 50) (y pos2)) in
      write eid (Enemy (set_position pos3 b) spd) w6
  | _, _ => w
  end.

(** [player.enemies.map(...)] inside [Projectile.update]: each stored
    enemy within reach counts as a hit and queues the projectile. *)
Definition projectile_hits (i : nat) (pr : point) (foes : list (option point))
    (w : world) : world :=
  fold_left (fun w0 en =>
               if near 8 pr en
               then remove i (set_enemiesHit (enemiesHit w0 + 1) w0)
               else w0)
            (present foes) w.

Definition Projectile_update (i : nat) (delta_time : Q) (w : world) : world :=
  match lookup i (heap w), the_player w with
  | Some (Projectile b spd pr), Some (pid, pb, pp) =>
      (* removes all projectiles from board when player dies *)
      let w1 := if health pb =? 0 then remove i w else w in
      (* adds projectile to player array *)
      let pp1 := set_projectiles (arr_set i pr (projectiles pp)) pp in
      let w2 := write pid (Player pb pp1) w1 in
      (* moves projectile up the board *)
      let pr1 := mkpoint (x pr) (y pr - spd)%num in
      let w3 := if (y pr1 <? Num.of_Z 0)%num then remove i w2 else w2 in
      (* has the projectile hit an enemy *)
      let w4 := projectile_hits i pr1 (enemies pp1) w3 in
      let pos' := integrate delta_time (position b) (velocity b) in
      let pr2 := mkpoint (clip (width config_canvas_size) (x pr1))
                         (clip (height config_canvas_size) (y pr1)) in
      write i (Projectile (set_position pos' b) spd pr2) w4
  | _, _ => w
  end.

(** [entity.update(delta_time)], dispatched on the class of the object. *)
Definition entity_update (i : nat) (delta_time : Q) (w : world) : world :=
  match lookup i (heap w) with
  | Some (Player _ _) => Player_update i delta_time w
  | Some (Projectile _ _ _) => Projectile_update i delta_time w
  | Some (Enemy _ _) => Enemy_update i delta_time w
  | None => w
  end.

(* ------------------------------------------------------------------ *)
(** ** [start], [update], [draw], [loop] *)
(* ------------------------------------------------------------------ *)

Definition start (w : world) : world :=
  let high := if currerntHighScore w >? masterHighScore w
              then currerntHighScore w else masterHighScore w in
  let w1 := mkworld (last_time w) (loop_count w) (running_id w) 0 0
                    (masterTime w) 0 (masterTime w)
                    (currerntHighScore w) high (projShotTime w)
                    [] [] (player w) (enemy_spawner w) (heap w)
                    (random_source w) (random_calls w) (hud w) in
  let w2 := new_Player (set_player (Some (running_id w1)) w1) in
  new_Enemy (set_enemy_spawner (Some (running_id w2)) w2).

(** One queue entry of the removal pass. *)
Definition flush_one (w : world) (i : nat) : world :=
  let w1 := match the_player w with
            | Some (pid, pb, pp) =>
                write pid
                  (Player pb (set_projectiles (splice1 i (projectiles pp))
                                (set_enemies (splice1 i (enemies pp)) pp))) w
            | None => w
            end in
  set_entities (reg_delete i (entities w1)) w1.

Definition flush (w : world) : world :=
  set_queued_entities_for_removal []
    (fold_left flush_one (queued_entities_for_removal w) w).

(** The entity pass: [Object.values(entities)] is taken once, so objects
    registered during the pass are first updated on the next step. *)
Definition update_entities (delta_time : Q) (w : world) : world :=
  fold_left (fun w0 i => entity_update i delta_time w0) (entities w) w.

Definition player_dead_and_action (w : world) : bool :=
  match the_player w with
  | Some (_, pb, pp) => isDead pb && action_1 (controller pp)
  | None => false
  end.

Definition update (delta_time : Q) (w : world) : world :=
  let w1 := pollController w in
  let w2 := update_entities delta_time w1 in
  (* collision_handler is null *)
  let w3 := flush w2 in
  let w4 := match enemy_spawner w3 with
            | Some s => entity_update s delta_time w3
            | None => w3
            end in
  if player_dead_and_action w4 then start w4 else w4.

(** What [draw] puts on the canvas: the registered entities in registry
    order, and the game-over overlay when the player is dead. *)
Record picture : Type := mkpicture {
  drawn : list entity;
  game_over : bool
}.

Fixpoint objects_of (ids : list nat) (h : list (nat * entity)) : list entity :=
  match ids with
  | [] => []
  | i :: t =>
      match lookup i h with
      | Some e => e :: objects_of t h
      | None => objects_of t h
      end
  end.

Definition draw (w : world) : picture :=
  mkpicture (objects_of (entities w) (heap w))
            (match the_player w with
             | Some (_, pb, _) => isDead pb
             | None => false
             end).

(** What the scheduler does, in order: a call of [update] (with the
    argument it got and the globals it left behind) or a call of [draw]. *)
Inductive event : Type :=
| ev_update (delta_time : Q) (after : world)
| ev_draw (pic : picture).

Definition Qround (q : Q) : Z := Qfloor (q + (1 # 2)).

Definition player_health (w : world) : Z :=
  match the_player w with
  | Some (_, pb, _) => health pb
  | None => 0
  end.

(** The text fields written at the end of each pass of the [while] loop. *)
Definition show_hud (w : world) : hud_state :=
  let alive := player_health w >? 0 in
  mkhud (loop_count w)
        (enemiesHit w)
        (if alive then Qround (timeAliveCount w) else 0)
        (if alive then enemyCount w else 0)
        (if alive then currerntHighScore w else 0)
        (masterHighScore w)
        (player_health w).

Definition set_hud (v : hud_state) (w : world) : world :=
  mkworld (last_time w) (loop_count w) (running_id w) (enemiesHit w)
          (enemyCount w) (masterTime w) (timeAliveCount w) (prevAliveCount w)
          (currerntHighScore w) (masterHighScore w) (projShotTime w)
          (entities w) (queued_entities_for_removal w) (player w)
          (enemy_spawner w) (heap w) (random_source w) (random_calls w) v.

(** One pass of the body of the [while] loop, apart from [delta_time]. *)
Definition loop_body (curr_time : Q) (w : world) : world * list event :=
  let w1 := update config_update_rate_seconds w in
  let pic := draw w1 in
  let w2 := mkworld (Some curr_time) (loop_count w1 + 1) (running_id w1)
                    (enemiesHit w1) (enemyCount w1) (masterTime w1)
                    (timeAliveCount w1) (prevAliveCount w1)
                    (currerntHighScore w1) (masterHighScore w1)
                    (projShotTime w1) (entities w1)
                    (queued_entities_for_removal w1) (player w1)
                    (enemy_spawner w1) (heap w1) (random_source w1)
                    (random_calls w1) (hud w1) in
  (set_hud (show_hud w2) w2,
   [ev_update config_update_rate_seconds w1; ev_draw pic]).

(** [while (delta_time > config.update_rate.seconds) { ... }], with the
    number of passes bounded by [fuel]; [None] when the fuel runs out
    before the condition turns false. *)
Fixpoint loop_while (fuel : nat) (curr_time delta_time : Q) (w : world)
    : option (world * list event) :=
  if Qgtb delta_time config_update_rate_seconds then
    match fuel with
    | O => None
    | S fuel' =>
        let '(w1, evs) := loop_body curr_time w in
        match loop_while fuel' curr_time
                (Double.sub delta_time config_update_rate_seconds) w1 with
        | Some (w2, evs') => Some (w2, evs ++ evs')
        | None => None
        end
    end
  else Some (w, []).

(** The part of [loop] before the [while]. *)
Definition loop_prologue (curr_time : Q) (w : world) : world :=
  let last := match last_time w with Some t => t | None => curr_time end in
  let alive_for := if player_health w =? 0 then prevAliveCount w
                   else Double.sub curr_time (prevAliveCount w) in
  let score := Qfloor (Double.add (Double.mul 30 (inject_Z (enemiesHit w)))
                                  alive_for) in
  let high := if score >? masterHighScore w then score else masterHighScore w in
  mkworld (Some last) (loop_count w) (running_id w) (enemiesHit w)
          (enemyCount w) curr_time alive_for (prevAliveCount w)
          score high (projShotTime w) (entities w)
          (queued_entities_for_removal w) (player w) (enemy_spawner w)
          (heap w) (random_source w) (random_calls w) (hud w).

Definition loop_delta (curr_time : Q) (w : world) : Q :=
  match last_time w with
  | Some t => Double.sub curr_time t
  | None => 0
  end.

(** Passes that are enough for a [delta_time] below [2^45] seconds: each
    pass takes more than [1/128] off it. *)
Definition loop_fuel (delta_time : Q) : nat :=
  Z.to_nat (Qceiling (delta_time * 128)).

(** [curr_time /= 1000], for the double the browser passes. *)
Definition clock (curr_time_ms : Q) : Q :=
  Double.div (Double.round curr_time_ms) 1000.

(** [loop(curr_time)] for a time stamp in milliseconds. *)
Definition loop (curr_time_ms : Q) (w : world) : option (world * list event) :=
  let curr_time := clock curr_time_ms in
  let w1 := loop_prologue curr_time w in
  let delta_time := loop_delta curr_time w1 in
  loop_while (loop_fuel delta_time) curr_time delta_time w1.

(** The globals as the script declares them, then the call [start()] at
    the bottom of the file. *)
Definition declared (rnd : nat -> Q) : world :=
  mkworld None 0 0 0 0 0 0 0 0 0 0 [] [] None None [] rnd 0
          (mkhud 0 0 0 0 0 0 0).

Definition page_load (rnd : nat -> Q) : world := start (declared rnd).

(** A time stamp [requestAnimationFrame] passes: milliseconds since the
    page's time origin, not negative and below [2^53]. *)
Definition stamp_ok (ms : Q) : bool :=
  Qle_bool 0 ms && Qle_bool ms (inject_Z (2 ^ 53)).

(** An animation frame: the key events that arrived since the last one,
    then the callback with its time stamp. *)
Record frame : Type := mkframe {
  keys : list key_event;
  time_ms : Q;
  time_ok : stamp_ok time_ms = true
}.

Definition run_frame (f : frame) (w : world) : option (world * list event) :=
  loop (time_ms f) (fold_left (fun w0 ev => dispatch_key ev w0) (keys f) w).

Fixpoint run (fs : list frame) (w : world) : option (world * list event) :=
  match fs with
  | [] => Some (w, [])
  | f :: fs' =>
      match run_frame f w with
      | Some (w1, evs) =>
          match run fs' w1 with
          | Some (w2, evs') => Some (w2, evs ++ evs')
          | None => None
          end
      | None => None
      end
  end.

(* ------------------------------------------------------------------ *)
(** ** Notions the statements below use *)
(* ------------------------------------------------------------------ *)

(** The events of [n] full steps: a call of [update] with the fixed step,
    then the [draw] of the state it left. *)
Definition step_events (ws : list world) : list event :=
  flat_map (fun w => [ev_update config_update_rate_seconds w; ev_draw (draw w)]) ws.

(** The states [update] returned, in order. *)
Fixpoint states (evs : list event) : list world :=
  match evs with
  | [] => []
  | ev_update _ w :: t => w :: states t
  | ev_draw _ :: t => states t
  end.

(** The simulated time a log of events stands for: the sum of the
    [delta_time] arguments of its [update] calls. *)
Fixpoint simulated_time (evs : list event) : Q :=
  match evs with
  | [] => 0
  | ev_update d _ :: t => d + simulated_time t
  | ev_draw _ :: t => simulated_time t
  end.

(** The states a run of frames goes through, one per call of [update]. *)
Definition history (fs : list frame) (w : world) : list world :=
  match run fs w with
  | Some (_, evs) => states evs
  | None => []
  end.

(** Objects of class [Projectile] constructed so far (objects never leave
    the heap). *)
Definition is_Projectile (e : entity) : bool :=
  match e with Projectile _ _ _ => true | _ => false end.
Definition is_Enemy (e : entity) : bool :=
  match e with Enemy _ _ => true | _ => false end.
Definition is_Player (e : entity) : bool :=
  match e with Player _ _ => true | _ => false end.

Definition projectile_count (h : list (nat * entity)) : nat :=
  length (filter (fun ke : nat * entity => is_Projectile (snd ke)) h).

Definition shots (w : world) : nat := projectile_count (heap w).

Definition action_held (w : world) : bool :=
  match the_player w with
  | Some (_, _, pp) => action_1 (controller pp)
  | None => false
  end.

Definition player_enemies (w : world) : list (option point) :=
  match the_player w with
  | Some (_, _, pp) => enemies pp
  | None => []
  end.

Definition player_projectiles (w : world) : list (option point) :=
  match the_player w with
  | Some (_, _, pp) => projectiles pp
  | None => []
  end.

(** The position an entity is drawn at. *)
Definition place (e : entity) : point :=
  match e with
  | Projectile _ _ pr => pr
  | _ => position (body_of e)
  end.

(** *** The scheduler *)

(** What the [while] loop does after [update] and [draw]:
    [last_time = curr_time], [loop_count++] and the text fields. *)
Definition after_pass (curr_time : Q) (w1 : world) : world :=
  let w2 := mkworld (Some curr_time) (loop_count w1 + 1) (running_id w1)
                    (enemiesHit w1) (enemyCount w1) (masterTime w1)
                    (timeAliveCount w1) (prevAliveCount w1)
                    (currerntHighScore w1) (masterHighScore w1)
                    (projShotTime w1) (entities w1)
                    (queued_entities_for_removal w1) (player w1)
                    (enemy_spawner w1) (heap w1) (random_source w1)
                    (random_calls w1) (hud w1) in
  set_hud (show_hud w2) w2.

(** [n] full passes from the world [w]: each one calls [update] with the
    fixed step on the world the pass before it left and [draw]s the
    result.  The world after the last pass, and the calls in order. *)
Fixpoint passes (n : nat) (curr_time : Q) (w : world) : world * list event :=
  match n with
  | O => (w, [])
  | S n' =>
      let w1 := update config_update_rate_seconds w in
      let '(w', evs) := passes n' curr_time (after_pass curr_time w1) in
      (w', ev_update config_update_rate_seconds w1 :: ev_draw (draw w1) :: evs)
  end.

(** [delta_time] after [k] passes. *)
Fixpoint remaining (k : nat) (delta_time : Q) : Q :=
  match k with
  | O => delta_time
  | S k' => remaining k' (Double.sub delta_time config_update_rate_seconds)
  end.

(** [last_time] is [null] or an earlier [curr_time]: between 0 and
    [2^44] seconds. *)
Definition clock_ok (w : world) : Prop :=
  match last_time w with
  | Some t => (0 <= t <= inject_Z (2 ^ 44))%Q
  | None => True
  end.

(** The calls of [update] in a log all got the fixed step. *)
Definition fixed_steps (evs : list event) : Prop :=
  forall d a, In (ev_update d a) evs -> d = config_update_rate_seconds.

(** *** Runs used as examples *)

(** [Math.random] always returning 0: every enemy starts at [x = 30]. *)
Definition no_random : nat -> Q := fun _ => 0%Q.

(** Space is pressed before the first callback and never released; the
    callbacks come at 0 s, 1.68 s, 1.98 s, 2.19 s and 2.70 s. *)
Definition held_fire_frames : list frame :=
  [mkframe [keydown 32] 0 eq_refl; mkframe [] 1680 eq_refl;
   mkframe [] 1980 eq_refl; mkframe [] 2190 eq_refl;
   mkframe [] 2700 eq_refl].

(** The first and the ninth call of [Math.random] return the double
    nearest to [15/26], which puts an enemy at [x = 180], straight above
    the player. *)
Definition aimed_random : nat -> Q :=
  fun n => match n with
           | 0%nat | 8%nat => Double.round (15 # 26)
           | _ => 0%Q
           end.

(** The player stands still and dies; space is pressed at 2.52 s, which
    restarts the game; the second session runs until 3.63 s. *)
Definition restart_frames : list frame :=
  [mkframe [] 0 eq_refl; mkframe [] 2500 eq_refl;
   mkframe [keydown 32] 2520 eq_refl; mkframe [] 3630 eq_refl].

(** The second to fifth enemy start straight above the player. *)
Definition four_hits_random : nat -> Q :=
  fun n => match n with
           | 1%nat | 2%nat | 3%nat | 4%nat => Double.round (15 # 26)
           | _ => 0%Q
           end.

Definition idle_frames : list frame :=
  [mkframe [] 0 eq_refl; mkframe [] 4100 eq_refl].

(** The second enemy starts at [x = 189], nine units right of the line
    the player's projectiles fly along. *)
Definition near_miss_random : nat -> Q :=
  fun n => match n with
           | 1%nat => Double.round (159 # 260)
           | _ => 0%Q
           end.

Definition near_miss_frames : list frame :=
  [mkframe [keydown 32] 0 eq_refl; mkframe [] 1390 eq_refl].

(** *** What one call of [Enemy.update] or [Projectile.update] amounts to *)

(** The ids [Enemy.update] pushes on the removal queue, in order: player
    dead, the id-1 test, below the view, one per projectile within 10 units,
    collision with the player. *)
Definition enemy_removals (eid : nat) (player_health : Z) (pos1 : point)
    (stored : list (option point)) (ppos : point) : list nat :=
  (if player_health =? 0 then [eid] else [])
  ++ (if Nat.eqb eid 1 then [eid] else [])
  ++ (if (y pos1 >? Num.of_Z 500)%num then [eid] else [])
  ++ repeat eid (length (filter (near 10 pos1) (present stored)))
  ++ (if near 10 pos1 ppos then [eid] else []).

(** Where [Enemy.update] leaves the enemy: integrated and clipped. *)
Definition enemy_place (delta_time : Q) (pos1 vel : point) : point :=
  let pos2 := integrate delta_time pos1 vel in
  mkpoint (clip (width config_canvas_size + 50) (x pos2))
          (clip (height config_canvas_size + 50) (y pos2)).

(** The ids [Projectile.update] pushes: player dead, above the view, one
    per stored enemy within 8 units. *)
Definition projectile_removals (i : nat) (player_health : Z) (pr1 : point)
    (stored : list (option point)) : list nat :=
  (if player_health =? 0 then [i] else [])
  ++ (if (y pr1 <? Num.of_Z 0)%num then [i] else [])
  ++ repeat i (length (filter (near 8 pr1) (present stored))).

(** The world in which enemy 2 is updated on the 83rd step of the run
    [near_miss_frames]: the state after 82 steps, polled, with the player
    already updated. *)
Definition near_miss_world : world :=
  Player_update 0 config_update_rate_seconds
    (pollController
       (nth 81 (history near_miss_frames (page_load near_miss_random))
            (declared no_random))).

Definition near_miss_player : body * player_data :=
  match the_player near_miss_world return body * player_data with
  | Some (_, pb, pp) => (pb, pp)
  | None => (new_body (declared no_random),
             mkplayer (mkcontroller 0 0 false) [] (Num.of_Z 2) 0 false green 0 [] [])
  end.

Definition near_miss_enemy : body :=
  match lookup 2 (heap near_miss_world) return body with
  | Some e => body_of e
  | None => new_body (declared no_random)
  end.

(** The per-axis step the enemy takes when homing, as the code computes it
    for the speed 3 every enemy has: [sqrt (3 * 3 / 2) * 2 / 1.5]. *)
Definition enemy_homing_step : num :=
  (enemy_diagonalSpeed (Num.of_Z 3) / Num.of_Q (3 # 2))%num.

(** A world with a new removal queue and a new heap. *)
Definition with_queue_heap (q : list nat) (h : list (nat * entity)) (w : world)
    : world :=
  set_queued_entities_for_removal q (set_heap h w).

(** Every object on the heap was constructed with an id below
    [running_id]. *)
Definition heap_fresh (w : world) : bool :=
  forallb (fun ke : nat * entity => Nat.ltb (fst ke) (running_id w)) (heap w).

(** In the run [restart_frames] the enemy of id 1 queues itself twice at
    the end of step 131.  This is the world step 132 starts in. *)
Definition double_queue_start : world :=
  after_pass (clock 2500)
    (nth 130 (history restart_frames (page_load aimed_random))
         (declared no_random)).

(** The world of step 132 just before the removal pass. *)
Definition double_queue_world : world :=
  update_entities config_update_rate_seconds
    (pollController double_queue_start).

Definition double_queue_player : body * player_data :=
  match the_player double_queue_world return body * player_data with
  | Some (_, pb, pp) => (pb, pp)
  | None => (new_body (declared no_random),
             mkplayer (mkcontroller 0 0 false) [] (Num.of_Z 2) 0 false green 0 [] [])
  end.

(** The run [held_fire_frames] at the callback of 2.19 s: 118 steps are
    done, the last of them in the callback of 1.98 s, and [loop] has set
    the clocks. *)
Definition fire_callback : world :=
  loop_prologue (clock 2190)
    (after_pass (clock 1980)
       (nth 117 (history held_fire_frames (page_load no_random))
            (declared no_random))).

(** The world in which the player is updated on step 119: polled. *)
Definition fire_world : world := pollController fire_callback.

Definition fire_player : body * player_data :=
  match the_player fire_world return body * player_data with
  | Some (_, pb, pp) => (pb, pp)
  | None => (new_body (declared no_random),
             mkplayer (mkcontroller 0 0 false) [] (Num.of_Z 2) 0 false green 0 [] [])
  end.

(** *** How objects and globals may change during the entity pass *)

(** What [Player.update] writes back for the player. *)
Definition player_after (delta_time : Q) (fire : bool) (b : body)
    (p : player_data) : entity :=
  let timer := enemyTimer p + 1 in
  let ready := if fire then false else armed p in
  let flashing := negb (hit p =? 0) && (health b >? 0) in
  let hit' := if flashing then hit p - 1 else hit p in
  let color' := if flashing then flash_color hit' else green in
  let pos1 := player_move (controller p) (speed p) (position b) in
  let pos2 := integrate delta_time pos1 (velocity b) in
  let pos3 := mkpoint (clip (width config_canvas_size) (x pos2))
                      (clip (height config_canvas_size) (y pos2)) in
  Player (set_position pos3 b)
         (set_color color'
            (set_hit hit'
               (set_projectileReady ready (set_enemyTimer timer p)))).

(** An object keeps its class; a player never gains health, keeps its
    input and its speed, and its observation arrays never get shorter. *)
Definition evolves (e e' : entity) : Prop :=
  match e, e' with
  | Player b p, Player b' p' =>
      health b' <= health b
      /\ controller p' = controller p
      /\ raw_input p' = raw_input p
      /\ (length (enemies p) <= length (enemies p'))%nat
      /\ (length (projectiles p) <= length (projectiles p'))%nat
  | Projectile _ _ _, Projectile _ _ _ => True
  | Enemy _ _, Enemy _ _ => True
  | _, _ => False
  end.

(** What every entity update guarantees: references and clocks stay, ids
    are only handed out, objects that exist evolve, the registry only
    gains fresh ids and the removal queue only grows at its end. *)
Record advances (w w' : world) : Prop := mk_advances {
  adv_player : player w' = player w;
  adv_spawner : enemy_spawner w' = enemy_spawner w;
  adv_masterTime : masterTime w' = masterTime w;
  adv_running_id : (running_id w <= running_id w')%nat;
  adv_heap : forall k e, (k < running_id w)%nat -> lookup k (heap w) = Some e ->
                         exists e', lookup k (heap w') = Some e' /\ evolves e e';
  adv_kept : forall k, In k (entities w) -> In k (entities w');
  adv_new : forall k, In k (entities w') ->
                      In k (entities w) \/ (running_id w <= k)%nat;
  adv_queue : exists l, queued_entities_for_removal w'
                        = queued_entities_for_removal w ++ l
}.

(** *** Where entities may be *)

(** [0 <= x <= w] and [0 <= y <= h] *)
Definition in_box (w h : Z) (pt : point) : bool :=
  (Num.of_Z 0 <=? x pt)%num && (x pt <=? Num.of_Z w)%num
  && (Num.of_Z 0 <=? y pt)%num && (y pt <=? Num.of_Z h)%num.

(** The player and every projectile are on the canvas; an enemy is within
    50 units of it, or still where its constructor put it, at [y = -50]. *)
Definition placed_ok (e : entity) : Prop :=
  match e with
  | Player b _ =>
      in_box (width config_canvas_size) (height config_canvas_size)
             (position b) = true
  | Projectile _ _ pr =>
      in_box (width config_canvas_size) (height config_canvas_size) pr = true
  | Enemy b _ =>
      in_box (width config_canvas_size + 50) (height config_canvas_size + 50)
             (position b) = true
      \/ y (position b) = Num.of_Z (-50)
  end.

Definition all_placed (w : world) : Prop :=
  forall k e, lookup k (heap w) = Some e -> placed_ok e.

(** *** The first session and its spawner *)

Definition player_enemyTimer (w : world) : Z :=
  match the_player w with
  | Some (_, _, pp) => enemyTimer pp
  | None => 0
  end.

(** The session [start()] opens at page load: the player has id 0 and
    [enemy_spawner] holds the enemy of id 1; both objects exist. *)
Definition first_session (w : world) : Prop :=
  player w = Some 0%nat
  /\ enemy_spawner w = Some 1%nat
  /\ (2 <= running_id w)%nat
  /\ (exists b p, lookup 0 (heap w) = Some (Player b p))
  /\ (exists b s, lookup 1 (heap w) = Some (Enemy b s)).

(** The spawner is out of the registry, its id heads the removal queue
    and [player.enemies] has a slot at index 1. *)
Definition ghost_spawner (w : world) : Prop :=
  ~ In 1%nat (entities w)
  /\ (exists l, queued_entities_for_removal w = 1%nat :: l)
  /\ (2 <= length (player_enemies w))%nat.

(** A session opened by a restart: the player's id is not 0. *)
Definition restarted (w : world) : Prop :=
  player w <> Some 0%nat /\ (2 <= running_id w)%nat.

(** Nothing is pressed; the callbacks come at 0 s, 2.5 s and 3.1 s. *)
Definition overkill_frames : list frame :=
  [mkframe [] 0 eq_refl; mkframe [] 2500 eq_refl; mkframe [] 3100 eq_refl].

(** The run [idle_frames] with one more callback, at 5 s. *)
Definition dead_frames : list frame :=
  idle_frames ++ [mkframe [] 5000 eq_refl].

(** The world the run [idle_frames] is in after 219 steps: the player has
    been dead, with health 0, since step 212. *)
Definition dead_world : world :=
  after_pass (clock 4100)
    (nth 218 (history idle_frames (page_load four_hits_random))
         (declared no_random)).

Definition dead_player : body * player_data :=
  match the_player dead_world return body * player_data with
  | Some (_, pb, pp) => (pb, pp)
  | None => (new_body (declared no_random),
             mkplayer (mkcontroller 0 0 false) [] (Num.of_Z 2) 0 false green 0 [] [])
  end.

(** The run [restart_frames] with space released at 3.63 s and one more
    callback, at 4 s. *)
Definition second_death_frames : list frame :=
  [mkframe [] 0 eq_refl; mkframe [] 2500 eq_refl;
   mkframe [keydown 32] 2520 eq_refl; mkframe [keyup 32] 3630 eq_refl;
   mkframe [] 4000 eq_refl].

(** *** How far apart enemies stay *)

(** Whether the enemy of id [i] touches a player standing at [ppos] when
    it is updated. *)
Definition touches (w : world) (ppos : point) (i : nat) : bool :=
  match lookup i (heap w) with
  | Some (Enemy b spd) => near 10 (enemy_move spd ppos (position b)) ppos
  | _ => false
  end.

(** The older of two enemies is ahead of the younger one: it is 53 units
    down while the younger has not moved yet, and [55 - 0.06 * y] units
    ahead once the younger is at [y >= 0]. *)
Definition ahead (older younger : num) : Prop :=
  (younger = Num.of_Z (-50) /\ (Num.of_Z 53 <=? older)%num = true)
  \/ ((Num.of_Z 0 <=? younger)%num = true
      /\ (Num.of_Z 55 - Num.of_Q (3 # 50) * younger <=? older - younger)%num
         = true).

(** How far down an enemy is at least after [m] updates. *)
Definition tick_floor (m : Z) : num := Num.of_Q ((14 # 5) * inject_Z (m - 1)).

(** Every object has an id below [running_id]. *)
Definition ids_below (w : world) : Prop :=
  forall k e, lookup k (heap w) = Some e -> (k < running_id w)%nat.

(** Every enemy has speed 3 and no velocity, every player speed 2 and no
    velocity. *)
Record tidy (w : world) : Prop := mk_tidy {
  tidy_below : ids_below w;
  tidy_enemies : forall i b spd, lookup i (heap w) = Some (Enemy b spd) ->
                   spd = Num.of_Z 3 /\ velocity b = origin;
  tidy_players : forall i b p, lookup i (heap w) = Some (Player b p) ->
                   velocity b = origin /\ speed p = Num.of_Z 2
}.

(** An object keeps its class, its velocity and its speed. *)
Definition same_shape (e e' : entity) : Prop :=
  match e, e' with
  | Player b p, Player b' p' => velocity b' = velocity b /\ speed p' = speed p
  | Enemy b s, Enemy b' s' => s' = s /\ velocity b' = velocity b
  | Projectile _ _ _, Projectile _ _ _ => True
  | _, _ => False
  end.

(** No object is new and none has changed its shape. *)
Definition reshaped (w w' : world) : Prop :=
  (running_id w <= running_id w')%nat
  /\ forall j e', lookup j (heap w') = Some e' ->
                  exists e, lookup j (heap w) = Some e /\ same_shape e e'.

(** A session: the player [pid] is the first registered object, the
    spawner has the next id, and the objects registered after the player
    are enemies and projectiles. *)
Record session (w : world) (pid : nat) (pb : body) (pp : player_data)
    (sb : body) (rest : list nat) : Prop := mk_session {
  ses_tidy : tidy w;
  ses_player : player w = Some pid;
  ses_spawner : enemy_spawner w = Some (S pid);
  ses_player_obj : lookup pid (heap w) = Some (Player pb pp);
  ses_spawner_obj : lookup (S pid) (heap w) = Some (Enemy sb (Num.of_Z 3));
  ses_registry : entities w = pid :: rest;
  ses_sorted : StronglySorted lt (pid :: rest);
  ses_below : forall i, In i rest -> (i < running_id w)%nat;
  ses_queue : ~ In pid (queued_entities_for_removal w);
  ses_last : forall i b p, lookup i (heap w) = Some (Player b p) ->
                           (i <= pid)%nat;
  ses_box : in_box 360 500 (position pb) = true;
  ses_timer : 0 <= enemyTimer pp
}.

(** A registered enemy other than the spawner. *)
Definition regular (w : world) (pid i : nat) (b : body) : Prop :=
  In i (entities w) /\ i <> S pid
  /\ lookup i (heap w) = Some (Enemy b (Num.of_Z 3)).

(** The spacing of the enemies of a session.  The spawner has been
    updated on every step, an enemy spawned on tick [20 k] on every step
    since; older enemies are ahead of younger ones; and as long as the
    spawner is registered (and so updated twice a step) the player has
    full health, or has just been touched by the spawner, or is above
    it. *)
Record spaced (w : world) (pid : nat) (pb : body) (pp : player_data)
    (sb : body) : Prop := mk_spaced {
  sp_spawner :
    (enemyTimer pp = 0 /\ y (position sb) = Num.of_Z (-50))
    \/ (1 <= enemyTimer pp
        /\ (tick_floor (Z.min (enemyTimer pp) 20) <=? y (position sb))%num
           = true);
  sp_regular : forall i b, regular w pid i b ->
    (y (position b) <=? Num.of_Z 500)%num = true
    /\ ((Z.rem (enemyTimer pp) 20 = 0 /\ y (position b) = Num.of_Z (-50))
        \/ (tick_floor (if Z.rem (enemyTimer pp) 20 =? 0 then 20
                        else Z.rem (enemyTimer pp) 20)
            <=? y (position b))%num = true);
  sp_ahead_spawner : forall i b, regular w pid i b ->
    ahead (y (position sb)) (y (position b))
    \/ (Num.of_Z 511 <=? y (position sb))%num = true;
  sp_ahead : forall i j bi bj,
    regular w pid i bi -> regular w pid j bj -> (i < j)%nat ->
    ahead (y (position bi)) (y (position bj));
  sp_double :
    In (S pid) (entities w) ->
    health pb = 100
    \/ (health pb = 75 /\ In (S pid) (queued_entities_for_removal w))
    \/ (y (position pb) + Num.of_Z 10 <? y (position sb))%num = true
}.

Definition well_spaced (w : world) : Prop :=
  exists pid pb pp sb rest,
    session w pid pb pp sb rest /\ spaced w pid pb pp sb.

(** What a step can do to the player's health: leave it, take 25, take
    50 from 100 or 75, or reset it to 100. *)
Definition step_ok (before after : Z) : Prop :=
  after = before
  \/ after = before - 25
  \/ (after = before - 50 /\ (before = 100 \/ before = 75))
  \/ after = 100.

Fixpoint chain_ok (h : Z) (l : list Z) : Prop :=
  match l with
  | [] => True
  | h' :: t => step_ok h h' /\ chain_ok h' t
  end.

(** What the entity pass over the enemies and projectiles [l] makes of the
    world [w], whose player [pid] has already been updated. *)
Record swept (dt : Q) (l : list nat) (w : world) (pid : nat) (pb : body)
    (pp : player_data) (w' : world) : Prop := mk_swept {
  sw_player : exists pb' pp',
    the_player w' = Some (pid, pb', pp')
    /\ position pb' = position pb
    /\ velocity pb' = velocity pb
    /\ health pb'
       = health pb
         - 25 * Z.of_nat (length (filter (touches w (position pb)) l))
    /\ enemyTimer pp' = enemyTimer pp
    /\ controller pp' = controller pp
    /\ speed pp' = speed pp;
  sw_entities : entities w' = entities w;
  sw_running_id : running_id w' = running_id w;
  sw_spawner : enemy_spawner w' = enemy_spawner w;
  sw_frame : forall j, ~ In j l -> j <> pid ->
                       lookup j (heap w') = lookup j (heap w);
  sw_enemy : forall i b spd,
    In i l -> lookup i (heap w) = Some (Enemy b spd) ->
    lookup i (heap w')
    = Some (Enemy (set_position
                     (enemy_place dt
                        (enemy_move spd (position pb) (position b))
                        (velocity b)) b) spd)
    /\ ((y (enemy_move spd (position pb) (position b)) >? Num.of_Z 500)%num
        = true
        \/ near 10 (enemy_move spd (position pb) (position b)) (position pb)
           = true ->
        In i (queued_entities_for_removal w'));
  sw_projectile : forall i b spd pr,
    In i l -> lookup i (heap w) = Some (Projectile b spd pr) ->
    exists b' pr', lookup i (heap w') = Some (Projectile b' spd pr');
  sw_none : forall i, In i l -> lookup i (heap w) = None ->
                      lookup i (heap w') = None;
  sw_shape : reshaped w w';
  sw_queue_kept : forall k, In k (queued_entities_for_removal w) ->
                            In k (queued_entities_for_removal w');
  sw_queue_new : forall k, In k (queued_entities_for_removal w') ->
                           In k (queued_entities_for_removal w) \/ In k l
}.

(** The real number a [num] stands for. *)
Definition to_R (v : num) : Rdefinitions.R :=
  Rdefinitions.Rplus (Rdefinitions.Q2R (Num.rat v))
    (Rdefinitions.Rmult (Rdefinitions.Q2R (Num.irr v)) (R_sqrt.sqrt (Rdefinitions.IZR 2))).

(** The y coordinate of a point as a real number, and the real-number
    reading of [ahead]. *)
Module Reading.
Import Reals.
Local Open Scope R_scope.

Definition ry (p : point) : R := to_R (y p).

Definition aheadR (a b : R) : Prop :=
  (b = -50 /\ 53 <= a) \/ (0 <= b /\ 55 - 6 / 100 * b <= a - b).

End Reading.

(* ------------------------------------------------------------------ *)
(** * Properties *)
(* ------------------------------------------------------------------ *)

(** ** Rounding to a double *)

Lemma pow2_pos (e : Z) : (0 < Double.pow2 e)%Q.
Proof. apply Qpower_0_lt. reflexivity. Qed.

Lemma pow2_nonneg_exp (e : Z) : 0 <= e -> (Double.pow2 e == inject_Z (2 ^ e))%Q.
Proof. intro H. rewrite Zpower_Qpower by exact H. reflexivity. Qed.

Lemma pow2_succ (e : Z) : (Double.pow2 (e + 1) == 2 * Double.pow2 e)%Q.
Proof.
  unfold Double.pow2. rewrite Qpower_plus by discriminate.
  change (2 ^ 1)%Q with 2%Q. ring.
Qed.

Lemma pow2_le (a b : Z) : a <= b -> (Double.pow2 a <= Double.pow2 b)%Q.
Proof.
  intro H. apply Qpower_le_compat_l; [exact H | discriminate].
Qed.

Lemma round_half_even_upper (q : Q) :
  (inject_Z (Double.round_half_even q) <= q + (1 # 2))%Q.
Proof.
  unfold Double.round_half_even.
  pose proof (Qfloor_le q) as Hf.
  destruct (Qcompare_spec (q - inject_Z (Qfloor q)) (1 # 2)) as [E|E|E].
  - destruct (Z.even (Qfloor q)).
    + lra.
    + rewrite inject_Z_plus. change (inject_Z 1) with 1%Q. lra.
  - lra.
  - rewrite inject_Z_plus. change (inject_Z 1) with 1%Q. lra.
Qed.

Lemma round_half_even_lower (q : Q) :
  (q - (1 # 2) <= inject_Z (Double.round_half_even q))%Q.
Proof.
  unfold Double.round_half_even.
  pose proof (Qfloor_le q) as Hf. pose proof (Qlt_floor q) as Hc.
  rewrite inject_Z_plus in Hc. change (inject_Z 1) with 1%Q in Hc.
  destruct (Qcompare_spec (q - inject_Z (Qfloor q)) (1 # 2)) as [E|E|E].
  - destruct (Z.even (Qfloor q)).
    + lra.
    + rewrite inject_Z_plus. change (inject_Z 1) with 1%Q. lra.
  - lra.
  - rewrite inject_Z_plus. change (inject_Z 1) with 1%Q. lra.
Qed.

Lemma round_half_even_nonneg (q : Q) :
  (0 <= q)%Q -> 0 <= Double.round_half_even q.
Proof.
  intro H. unfold Double.round_half_even.
  assert (Hf : 0 <= Qfloor q).
  { change 0 with (Qfloor 0). now apply Qfloor_resp_le. }
  destruct (q - inject_Z (Qfloor q) ?= 1 # 2)%Q; [destruct (Z.even _)| |]; lia.
Qed.

Lemma round_half_even_nonpos (q : Q) :
  (q <= 0)%Q -> Double.round_half_even q <= 0.
Proof.
  intro H. pose proof (round_half_even_upper q) as Hu.
  assert (Hlt : (inject_Z (Double.round_half_even q) < 1)%Q) by lra.
  change 1%Q with (inject_Z 1) in Hlt. rewrite <- Zlt_Qlt in Hlt. lia.
Qed.

(** The exponent of a positive number below [2^k]. *)
Lemma ilog2_below (q : Q) (k : Z) :
  0 <= k -> (0 < q)%Q -> (q < Double.pow2 k)%Q -> Double.ilog2 q <= k - 1.
Proof.
  intros Hk Hq Hlt. unfold Double.ilog2.
  destruct q as [n d]. cbn [Qnum Qden].
  assert (Hn : 0 < n) by (unfold Qlt in Hq; simpl in Hq; lia).
  rewrite pow2_nonneg_exp in Hlt by exact Hk.
  assert (Hnd : n < 2 ^ k * Z.pos d).
  { unfold Qlt in Hlt. simpl in Hlt. lia. }
  pose proof (Z.log2_spec (Z.pos d) ltac:(lia)) as [_ Hd].
  pose proof (Z.log2_nonneg (Z.pos d)) as Hd0.
  assert (Hlog : Z.log2 n < k + Z.log2 (Z.pos d) + 1).
  { apply Z.log2_lt_pow2; [exact Hn|].
    replace (k + Z.log2 (Z.pos d) + 1) with (k + Z.succ (Z.log2 (Z.pos d))) by lia.
    rewrite Z.pow_add_r by lia.
    pose proof (Z.pow_pos_nonneg 2 k ltac:(lia) Hk). nia. }
  set (K := Z.log2 n - Z.log2 (Z.pos d)).
  assert (HK : K <= k) by (unfold K; lia).
  destruct (Qle_bool (Double.pow2 K) (n # d)) eqn:E; [|lia].
  apply Qle_bool_iff in E.
  destruct (Z.eq_dec K k) as [->|Hne]; [|lia].
  rewrite pow2_nonneg_exp in E by exact Hk.
  unfold Qle in E. simpl in E. lia.
Qed.

(** Rounding a positive number below [2^k] adds at most half a unit in
    the last place of that range. *)
Lemma round_upper (q : Q) (k : Z) :
  0 <= k -> (0 < q)%Q -> (q < Double.pow2 k)%Q ->
  (Double.round q <= q + Double.pow2 (k - 54))%Q.
Proof.
  intros Hk Hq Hlt. unfold Double.round.
  destruct (Qnum q) eqn:En.
  - pose proof (pow2_pos (k - 54)). lra.
  - rewrite Qred_correct.
    assert (Ha : Qabs q == q) by (apply Qabs_pos; lra).
    assert (He : Z.max (Double.ilog2 (Qabs q)) (-1022) <= k - 1).
    { apply Z.max_lub; [|lia].
      apply ilog2_below; [exact Hk | rewrite Ha; exact Hq | rewrite Ha; exact Hlt]. }
    set (e := Z.max (Double.ilog2 (Qabs q)) (-1022)) in *.
    pose proof (pow2_pos (e - 52)) as Hu.
    pose proof (round_half_even_upper (q / Double.pow2 (e - 52))) as Hr.
    assert (Hle : (Double.pow2 (e - 52) <= Double.pow2 (k - 53))%Q)
      by (apply pow2_le; lia).
    assert (Hhalf : (Double.pow2 (k - 53) == 2 * Double.pow2 (k - 54))%Q).
    { replace (k - 53) with (k - 54 + 1) by lia. apply pow2_succ. }
    set (u := Double.pow2 (e - 52)) in *.
    assert (Hm : (inject_Z (Double.round_half_even (q / u)) * u
                  <= (q / u + (1 # 2)) * u)%Q).
    { apply Qmult_le_compat_r; [exact Hr | lra]. }
    assert (Hq' : ((q / u + (1 # 2)) * u == q + u * (1 # 2))%Q).
    { field. lra. }
    lra.
  - exfalso. unfold Qlt in Hq. simpl in Hq. rewrite En in Hq. lia.
Qed.

Lemma round_nonneg (q : Q) : (0 <= q)%Q -> (0 <= Double.round q)%Q.
Proof.
  intro Hq. unfold Double.round.
  destruct (Qnum q) eqn:En; [apply Qle_refl| |].
  - rewrite Qred_correct.
    set (u := Double.pow2 _). pose proof (pow2_pos (Z.max (Double.ilog2 (Qabs q)) (-1022) - 52)) as Hu.
    fold u in Hu.
    apply Qmult_le_0_compat; [|lra].
    change 0%Q with (inject_Z 0). rewrite <- Zle_Qle.
    apply round_half_even_nonneg.
    apply Qle_shift_div_l; [exact Hu | lra].
  - exfalso. unfold Qle in Hq. simpl in Hq. rewrite En in Hq. lia.
Qed.

Lemma round_nonpos (q : Q) : (q <= 0)%Q -> (Double.round q <= 0)%Q.
Proof.
  intro Hq. unfold Double.round.
  destruct (Qnum q) eqn:En; [apply Qle_refl| |].
  - exfalso. unfold Qle in Hq. simpl in Hq. rewrite En in Hq. lia.
  - rewrite Qred_correct.
    set (u := Double.pow2 _). pose proof (pow2_pos (Z.max (Double.ilog2 (Qabs q)) (-1022) - 52)) as Hu.
    fold u in Hu.
    assert (Hr : Double.round_half_even (q / u) <= 0).
    { apply round_half_even_nonpos.
      apply Qle_shift_div_r; [exact Hu | lra]. }
    rewrite Zle_Qle in Hr. change (inject_Z 0) with 0%Q in Hr.
    assert (H : (inject_Z (Double.round_half_even (q / u)) * u <= 0 * u)%Q).
    { apply Qmult_le_compat_r; [exact Hr | lra]. }
    lra.
Qed.

(** ** The scheduler *)

Lemma Qgtb_true (a b : Q) : Qgtb a b = true <-> (b < a)%Q.
Proof.
  unfold Qgtb. rewrite negb_true_iff.
  split; intro H.
  - apply Qnot_le_lt. intro Hle. apply Qle_bool_iff in Hle. congruence.
  - destruct (Qle_bool a b) eqn:E; [|reflexivity].
    apply Qle_bool_iff in E. exfalso. apply (Qlt_not_le _ _ H E).
Qed.

Lemma Qgtb_false (a b : Q) : Qgtb a b = false <-> (a <= b)%Q.
Proof.
  unfold Qgtb. rewrite negb_false_iff. apply Qle_bool_iff.
Qed.

(** The step is the double nearest to 1/60, a little below it. *)
Lemma step_value :
  config_update_rate_seconds = (4803839602528529 # 288230376151711744)%Q.
Proof. vm_compute. reflexivity. Qed.

Lemma step_bounds :
  ((1 # 128) + (1 # 512) <= config_update_rate_seconds)%Q
  /\ (config_update_rate_seconds < 1 # 60)%Q
  /\ ((1 # 60) - config_update_rate_seconds < 1 # 1000000000000000000)%Q.
Proof.
  rewrite step_value. split; [discriminate|]. split; reflexivity.
Qed.

Lemma loop_body_eq (curr_time : Q) (w : world) :
  loop_body curr_time w
  = (after_pass curr_time (update config_update_rate_seconds w),
     [ev_update config_update_rate_seconds (update config_update_rate_seconds w);
      ev_draw (draw (update config_update_rate_seconds w))]).
Proof. reflexivity. Qed.

Lemma loop_body_events (curr_time : Q) (w : world) :
  snd (loop_body curr_time w) =
  step_events [update config_update_rate_seconds w].
Proof. reflexivity. Qed.

Lemma step_events_app (l1 l2 : list world) :
  step_events (l1 ++ l2) = step_events l1 ++ step_events l2.
Proof. unfold step_events. apply flat_map_app. Qed.

Lemma loop_while_S (fuel : nat) (curr_time delta_time : Q) (w : world) :
  loop_while (S fuel) curr_time delta_time w =
  if Qgtb delta_time config_update_rate_seconds then
    match loop_while fuel curr_time
            (Double.sub delta_time config_update_rate_seconds)
            (fst (loop_body curr_time w)) with
    | Some (w2, evs') => Some (w2, snd (loop_body curr_time w) ++ evs')
    | None => None
    end
  else Some (w, []).
Proof. reflexivity. Qed.

(** One subtraction of the step from a [delta_time] below [2^45] takes
    more than [1/128] off it. *)
Lemma sub_step_progress (delta_time : Q) :
  (config_update_rate_seconds < delta_time)%Q ->
  (delta_time <= inject_Z (2 ^ 45))%Q ->
  (Double.sub delta_time config_update_rate_seconds
   <= delta_time - (1 # 128))%Q.
Proof.
  intros Hgt Hle. destruct step_bounds as (Hs & _ & _).
  unfold Double.sub.
  pose proof (round_upper (delta_time - config_update_rate_seconds) 45
                ltac:(lia)) as Hr.
  assert (Hp : (Double.pow2 45 == inject_Z (2 ^ 45))%Q) by reflexivity.
  assert (Hu : (Double.pow2 (45 - 54) == 1 # 512)%Q) by reflexivity.
  rewrite Hp, Hu in Hr.
  assert (H := Hr ltac:(lra) ltac:(lra)). lra.
Qed.

(** With enough fuel the [while] loop reaches its exit, and what it does
    is a number of full passes. *)
Lemma loop_while_total (fuel : nat) :
  forall (curr_time delta_time : Q) (w : world),
    (delta_time <= inject_Z (2 ^ 45))%Q ->
    (delta_time * 128 <= inject_Z (Z.of_nat fuel) + 1)%Q ->
    exists n : nat,
      loop_while fuel curr_time delta_time w = Some (passes n curr_time w)
      /\ (forall k, (k < n)%nat ->
            (config_update_rate_seconds < remaining k delta_time)%Q)
      /\ (remaining n delta_time <= config_update_rate_seconds)%Q.
Proof.
  destruct step_bounds as (Hs & _ & _).
  induction fuel as [|fuel IH]; intros curr_time delta_time w Hle Hfuel.
  - simpl. destruct (Qgtb delta_time config_update_rate_seconds) eqn:E.
    + apply Qgtb_true in E.
      change (inject_Z (Z.of_nat 0)) with 0%Q in Hfuel. exfalso. lra.
    + apply Qgtb_false in E. exists 0%nat. split; [reflexivity|].
      split; [intros k Hk; lia | exact E].
  - rewrite loop_while_S.
    destruct (Qgtb delta_time config_update_rate_seconds) eqn:E.
    + apply Qgtb_true in E.
      pose proof (sub_step_progress delta_time E Hle) as Hp.
      destruct (IH curr_time
                  (Double.sub delta_time config_update_rate_seconds)
                  (fst (loop_body curr_time w)))
        as (n & Hrec & Hbefore & Hafter).
      { lra. }
      { rewrite Nat2Z.inj_succ, <- Z.add_1_r, inject_Z_plus in Hfuel.
        change (inject_Z 1) with 1%Q in Hfuel. lra. }
      exists (S n). rewrite Hrec, loop_body_eq. cbn [fst snd passes].
      destruct (passes n curr_time
                  (after_pass curr_time (update config_update_rate_seconds w)))
        as [w' evs].
      split; [reflexivity|]. split; [|exact Hafter].
      intros [|k] Hk; [exact E | apply Hbefore; lia].
    + apply Qgtb_false in E. exists 0%nat. split; [reflexivity|].
      split; [intros k Hk; lia | exact E].
Qed.

Lemma loop_fuel_enough (delta_time : Q) :
  (delta_time * 128 <= inject_Z (Z.of_nat (loop_fuel delta_time)) + 1)%Q.
Proof.
  unfold loop_fuel.
  pose proof (Qle_ceiling (delta_time * 128)) as Hc.
  assert (Hz : (Qceiling (delta_time * 128)
                <= Z.of_nat (Z.to_nat (Qceiling (delta_time * 128))))%Z) by lia.
  rewrite Zle_Qle in Hz. lra.
Qed.

(** The time stamps of the browser give clock values between 0 and
    [2^44] seconds. *)
Lemma clock_range (ms : Q) :
  stamp_ok ms = true -> (0 <= clock ms <= inject_Z (2 ^ 44))%Q.
Proof.
  unfold stamp_ok. intro H. apply andb_prop in H. destruct H as [H0 H1].
  apply Qle_bool_iff in H0, H1.
  unfold clock, Double.div.
  pose proof (round_nonneg ms H0) as Hr0.
  assert (Hr1 : (Double.round ms <= inject_Z (2 ^ 53) + 1)%Q).
  { destruct (Qlt_le_dec 0 ms) as [Hpos|Hz].
    - pose proof (round_upper ms 54 ltac:(lia) Hpos) as Hr.
      assert (Hp : (Double.pow2 54 == inject_Z (2 ^ 54))%Q) by reflexivity.
      assert (Hu : (Double.pow2 (54 - 54) == 1)%Q) by reflexivity.
      rewrite Hp, Hu in Hr.
      assert (H54 : (inject_Z (2 ^ 53) < inject_Z (2 ^ 54))%Q) by reflexivity.
      assert (H := Hr ltac:(lra)). lra.
    - pose proof (round_nonpos ms Hz).
      assert (0 <= inject_Z (2 ^ 53))%Q by discriminate. lra. }
  set (r := Double.round ms) in *.
  assert (Hx0 : (0 <= r / 1000)%Q).
  { apply Qle_shift_div_l; [reflexivity | lra]. }
  assert (Hx1 : (r / 1000 <= (inject_Z (2 ^ 53) + 1) / 1000)%Q).
  { apply Qle_shift_div_l; [reflexivity|].
    assert (E : (r / 1000 * 1000 == r)%Q) by (field; discriminate).
    rewrite E. exact Hr1. }
  split; [now apply round_nonneg|].
  destruct (Qlt_le_dec 0 (r / 1000)) as [Hpos|Hz].
  - pose proof (round_upper (r / 1000) 44 ltac:(lia) Hpos) as Hr.
    assert (Hp : (Double.pow2 44 == inject_Z (2 ^ 44))%Q) by reflexivity.
    assert (Hu : (Double.pow2 (44 - 54) == 1 # 1024)%Q) by reflexivity.
    rewrite Hp, Hu in Hr.
    assert (Hb : ((inject_Z (2 ^ 53) + 1) / 1000 + (1 # 1024)
                  < inject_Z (2 ^ 44))%Q) by reflexivity.
    assert (H := Hr ltac:(lra)). lra.
  - pose proof (round_nonpos (r / 1000) Hz).
    assert (0 <= inject_Z (2 ^ 44))%Q by discriminate. lra.
Qed.

(** The [delta_time] of a callback is below [2^45] seconds. *)
Lemma loop_delta_range (ms : Q) (w : world) :
  stamp_ok ms = true -> clock_ok w ->
  (loop_delta (clock ms) (loop_prologue (clock ms) w) <= inject_Z (2 ^ 45))%Q.
Proof.
  intros Hs Hw. destruct (clock_range ms Hs) as [Hc0 Hc1].
  unfold loop_delta, loop_prologue, clock_ok in *. cbn [last_time].
  assert (H45 : (inject_Z (2 ^ 44) + (1 # 512) < inject_Z (2 ^ 45))%Q)
    by reflexivity.
  assert (Hgen : forall t, (0 <= t)%Q ->
             (Double.sub (clock ms) t <= inject_Z (2 ^ 45))%Q).
  { intros t Ht. unfold Double.sub.
    destruct (Qlt_le_dec 0 (clock ms - t)) as [Hpos|Hz].
    - pose proof (round_upper (clock ms - t) 45 ltac:(lia) Hpos) as Hr.
      assert (Hp : (Double.pow2 45 == inject_Z (2 ^ 45))%Q) by reflexivity.
      assert (Hu : (Double.pow2 (45 - 54) == 1 # 512)%Q) by reflexivity.
      rewrite Hp, Hu in Hr.
      assert (H := Hr ltac:(lra)). lra.
    - pose proof (round_nonpos (clock ms - t) Hz).
      assert (0 <= inject_Z (2 ^ 45))%Q by discriminate. lra. }
  destruct (last_time w) as [t|].
  - apply Hgen. lra.
  - apply Hgen. exact Hc0.
Qed.

Lemma passes_last_time (n : nat) :
  forall c w, last_time (fst (passes n c w))
              = match n with O => last_time w | S _ => Some c end.
Proof.
  induction n as [|n IH]; intros c w; [reflexivity|].
  cbn [passes].
  specialize (IH c (after_pass c (update config_update_rate_seconds w))).
  destruct (passes n c (after_pass c (update config_update_rate_seconds w)))
    as [w' evs]. cbn [fst] in *. rewrite IH. destruct n; reflexivity.
Qed.

Lemma passes_step_events (n : nat) :
  forall c w, exists ws, snd (passes n c w) = step_events ws /\ length ws = n.
Proof.
  induction n as [|n IH]; intros c w.
  - exists []. split; reflexivity.
  - cbn [passes].
    destruct (IH c (after_pass c (update config_update_rate_seconds w)))
      as (ws & Hws & Hlen).
    destruct (passes n c (after_pass c (update config_update_rate_seconds w)))
      as [w' evs]. cbn [snd] in *.
    exists (update config_update_rate_seconds w :: ws). split.
    + rewrite Hws. reflexivity.
    + simpl. now rewrite Hlen.
Qed.

(** A callback with a time stamp of the browser terminates. *)
Lemma loop_total (ms : Q) (w : world) :
  stamp_ok ms = true -> clock_ok w ->
  exists n : nat,
    loop ms w = Some (passes n (clock ms) (loop_prologue (clock ms) w))
    /\ (forall k, (k < n)%nat ->
          (config_update_rate_seconds
           < remaining k (loop_delta (clock ms) (loop_prologue (clock ms) w)))%Q)
    /\ (remaining n (loop_delta (clock ms) (loop_prologue (clock ms) w))
        <= config_update_rate_seconds)%Q.
Proof.
  intros Hs Hw. unfold loop.
  apply loop_while_total; [now apply loop_delta_range | apply loop_fuel_enough].
Qed.

Lemma loop_clock_ok (ms : Q) (w w' : world) (evs : list event) :
  stamp_ok ms = true -> clock_ok w -> loop ms w = Some (w', evs) ->
  clock_ok w'.
Proof.
  intros Hs Hw Hl. destruct (loop_total ms w Hs Hw) as (n & Hn & _).
  rewrite Hn in Hl. inversion Hl as [E].
  apply (f_equal fst) in E. cbn [fst] in E.
  apply (f_equal last_time) in E. rewrite passes_last_time in E.
  pose proof (clock_range ms Hs) as Hc.
  unfold clock_ok in *. rewrite <- E.
  destruct n; [|exact Hc].
  unfold loop_prologue. cbn [last_time].
  destruct (last_time w); assumption.
Qed.

Lemma clock_ok_keys (evs : list key_event) :
  forall w, clock_ok w ->
    clock_ok (fold_left (fun w0 ev => dispatch_key ev w0) evs w).
Proof.
  induction evs as [|ev evs IH]; intros w H; simpl; [exact H|].
  apply IH. exact H.
Qed.

Lemma run_frame_total (f : frame) (w : world) :
  clock_ok w ->
  exists w' ws, run_frame f w = Some (w', step_events ws) /\ clock_ok w'.
Proof.
  intro Hw. unfold run_frame.
  pose proof (clock_ok_keys (keys f) w Hw) as Hk.
  set (kw := fold_left (fun w0 ev => dispatch_key ev w0) (keys f) w) in *.
  destruct (loop_total (time_ms f) kw (time_ok f) Hk) as (n & H1 & _).
  destruct (passes_step_events n (clock (time_ms f))
              (loop_prologue (clock (time_ms f)) kw)) as (ws1 & Hws1 & _).
  destruct (passes n (clock (time_ms f))
              (loop_prologue (clock (time_ms f)) kw)) as [w1 evs1].
  cbn [snd] in Hws1. subst evs1.
  exists w1, ws1. split; [exact H1|].
  exact (loop_clock_ok (time_ms f) kw w1 _ (time_ok f) Hk H1).
Qed.

(** Every run of the program terminates, and its log is that of a
    sequence of fixed steps. *)
Lemma run_total (fs : list frame) :
  forall w, clock_ok w ->
    exists w' ws, run fs w = Some (w', step_events ws) /\ clock_ok w'.
Proof.
  induction fs as [|f fs IH]; intros w Hw; simpl.
  - exists w, []. split; [reflexivity | exact Hw].
  - destruct (run_frame_total f w Hw) as (w1 & ws1 & H1 & Hok).
    rewrite H1.
    destruct (IH w1 Hok) as (w2 & ws2 & H2 & Hok2). rewrite H2.
    exists w2, (ws1 ++ ws2). rewrite step_events_app.
    split; [reflexivity | exact Hok2].
Qed.

Lemma clock_ok_page_load (rnd : nat -> Q) : clock_ok (page_load rnd).
Proof. exact I. Qed.

Lemma step_events_delta (ws : list world) : fixed_steps (step_events ws).
Proof.
  intros d a. induction ws as [|w ws IH]; simpl; [tauto|].
  intros [H | [H | H]]; [congruence | discriminate | auto].
Qed.

Lemma step_events_time (ws : list world) :
  (simulated_time (step_events ws)
   == inject_Z (Z.of_nat (length ws)) * config_update_rate_seconds)%Q.
Proof.
  induction ws as [|w ws IH].
  - reflexivity.
  - change (simulated_time (step_events (w :: ws)))
      with (config_update_rate_seconds + simulated_time (step_events ws))%Q.
    rewrite IH. cbn [length]. rewrite Nat2Z.inj_succ, <- Z.add_1_r, inject_Z_plus.
    change (inject_Z 1) with 1%Q. ring.
Qed.

Lemma states_step_events (ws : list world) : states (step_events ws) = ws.
Proof.
  induction ws as [|w ws IH]; [reflexivity|].
  change (states (step_events (w :: ws))) with (w :: states (step_events ws)).
  now rewrite IH.
Qed.

(** C1.  On every callback the scheduler terminates, and what it does is a
    whole number [n] of passes, each one a call of [update] with exactly
    the fixed step [config.update_rate.seconds] (the double [1 / 60]) on
    the world the pass before it left, followed by one [draw]: [n] is the
    number of times the step can be taken off [delta_time] while
    [delta_time] is greater than the step, and what is left over is never
    applied.  Every [update] of a run gets exactly the fixed step, and
    after [N] calls the simulated time is [N] times the fixed step.  One
    callback can run several pairs: a callback 50 ms after the first one
    runs three, one 10 ms after it none. *)
Theorem C1_fixed_step_scheduler :
  config_update_rate_seconds = Double.div 1 60
  /\ (forall (ms : Q) (w : world),
        stamp_ok ms = true -> clock_ok w ->
        exists n : nat,
          loop ms w = Some (passes n (clock ms) (loop_prologue (clock ms) w))
          /\ (forall k, (k < n)%nat ->
                (config_update_rate_seconds
                 < remaining k (loop_delta (clock ms)
                                  (loop_prologue (clock ms) w)))%Q)
          /\ (remaining n (loop_delta (clock ms) (loop_prologue (clock ms) w))
              <= config_update_rate_seconds)%Q)
  /\ (forall (n : nat) (curr_time : Q) (w : world),
        fixed_steps (snd (passes n curr_time w))
        /\ length (states (snd (passes n curr_time w))) = n
        /\ (simulated_time (snd (passes n curr_time w))
            == inject_Z (Z.of_nat n) * config_update_rate_seconds)%Q)
  /\ (forall (rnd : nat -> Q) (fs : list frame),
        exists (w' : world) (evs : list event),
          run fs (page_load rnd) = Some (w', evs)
          /\ fixed_steps evs
          /\ (simulated_time evs
              == inject_Z (Z.of_nat (length (states evs)))
                 * config_update_rate_seconds)%Q)
  /\ (exists (w0 : world) (evs0 : list event),
        loop 0 (page_load no_random) = Some (w0, evs0)
        /\ length (states evs0) = 0%nat
        /\ clock_ok w0
        /\ option_map (fun r => length (states (snd r))) (loop 50 w0)
           = Some 3%nat
        /\ option_map (fun r => length (states (snd r))) (loop 10 w0)
           = Some 0%nat).
Proof.
  split; [reflexivity|]. split; [exact loop_total|]. split; [|split].
  - intros n c w. destruct (passes_step_events n c w) as (ws & Hws & Hlen).
    rewrite Hws, states_step_events, Hlen. split; [apply step_events_delta|].
    split; [reflexivity|]. rewrite step_events_time, Hlen. reflexivity.
  - intros rnd fs.
    destruct (run_total fs (page_load rnd) (clock_ok_page_load rnd))
      as (w' & ws & Hrun & _).
    exists w', (step_events ws). split; [exact Hrun|].
    split; [apply step_events_delta|].
    rewrite states_step_events. apply step_events_time.
  - destruct (loop_total 0 (page_load no_random) eq_refl
                (clock_ok_page_load no_random)) as (n & Hn & _).
    destruct (passes n (clock 0) (loop_prologue (clock 0)
                                    (page_load no_random))) as [w0 evs0].
    exists w0, evs0. split; [exact Hn|].
    assert (Ew : w0 = match loop 0 (page_load no_random) with
                      | Some (w1, _) => w1
                      | None => page_load no_random
                      end) by (rewrite Hn; reflexivity).
    assert (Ee : evs0 = match loop 0 (page_load no_random) with
                        | Some (_, evs1) => evs1
                        | None => []
                        end) by (rewrite Hn; reflexivity).
    split; [rewrite Ee; vm_compute; reflexivity|].
    split; [exact (loop_clock_ok 0 (page_load no_random) w0 evs0 eq_refl
                     (clock_ok_page_load no_random) Hn)|].
    rewrite Ew. split; vm_compute; reflexivity.
Qed.

(** ** Order on the numbers *)

Lemma Num_sgn_opp (u v : num) :
  (Num.rat v == - Num.rat u)%Q -> (Num.irr v == - Num.irr u)%Q ->
  Num.sgn v = CompOpp (Num.sgn u).
Proof.
  intros Ha Hb. unfold Num.sgn. cbv zeta.
  assert (Hsq1 : (Num.rat v * Num.rat v == Num.rat u * Num.rat u)%Q)
    by (rewrite Ha; ring).
  assert (Hsq2 : (2 * (Num.irr v * Num.irr v) == 2 * (Num.irr u * Num.irr u))%Q)
    by (rewrite Hb; ring).
  destruct (Qcompare_spec (Num.rat u) 0), (Qcompare_spec (Num.rat v) 0);
    try (exfalso; lra);
    destruct (Qcompare_spec (Num.irr u) 0), (Qcompare_spec (Num.irr v) 0);
    try (exfalso; lra); try reflexivity;
    simpl; rewrite ?Hsq1, ?Hsq2; symmetry; apply Qcompare_antisym.
Qed.

Lemma Num_compare_antisym (u v : num) :
  Num.compare u v = CompOpp (Num.compare v u).
Proof.
  unfold Num.compare. apply Num_sgn_opp; unfold Num.sub;
    cbn [Num.rat Num.irr]; rewrite !Qred_correct; ring.
Qed.

Lemma Num_ltb_leb (u v : num) : (u <? v)%num = true -> (u <=? v)%num = true.
Proof.
  unfold Num.ltb, Num.leb. destruct (Num.compare u v); congruence.
Qed.

Lemma Num_not_ltb_leb (u v : num) : (v <? u)%num = false -> (u <=? v)%num = true.
Proof.
  unfold Num.ltb, Num.leb. rewrite (Num_compare_antisym u v).
  destruct (Num.compare v u); simpl; congruence.
Qed.

(** [clip] lands between 0 and the bound. *)
Lemma clip_bounds (bound : Z) (v : num) :
  (Num.of_Z 0 <=? Num.of_Z bound)%num = true ->
  (Num.of_Z 0 <=? clip bound v)%num = true
  /\ (clip bound v <=? Num.of_Z bound)%num = true.
Proof.
  intro Hb.
  assert (H00 : (Num.of_Z 0 <=? Num.of_Z 0)%num = true) by reflexivity.
  assert (Hbb : (Num.of_Z bound <=? Num.of_Z bound)%num = true).
  { apply Num_not_ltb_leb. unfold Num.ltb.
    pose proof (Num_compare_antisym (Num.of_Z bound) (Num.of_Z bound)) as H.
    destruct (Num.compare (Num.of_Z bound) (Num.of_Z bound));
      simpl in H; congruence. }
  unfold clip, Num.min, Num.max.
  destruct (Num.of_Z 0 <? v)%num eqn:E0.
  - destruct (Num.of_Z bound <? v)%num eqn:E1.
    + split; assumption.
    + split; [apply Num_ltb_leb; assumption | apply Num_not_ltb_leb; assumption].
  - destruct (Num.of_Z bound <? Num.of_Z 0)%num eqn:E1.
    + split; assumption.
    + split; assumption.
Qed.

(** ** Heap, registry and array facts *)

Lemma lookup_store_same (i : nat) (e : entity) (h : list (nat * entity)) :
  lookup i (store i e h) = Some e.
Proof.
  induction h as [|[k e0] h IH]; simpl.
  - now rewrite Nat.eqb_refl.
  - destruct (Nat.eqb i k) eqn:E; simpl; rewrite E; [reflexivity | exact IH].
Qed.

Lemma lookup_store_other (i j : nat) (e : entity) (h : list (nat * entity)) :
  i <> j -> lookup j (store i e h) = lookup j h.
Proof.
  intro Hne. induction h as [|[k e0] h IH]; simpl.
  - destruct (Nat.eqb j i) eqn:E; [|reflexivity].
    apply Nat.eqb_eq in E. congruence.
  - destruct (Nat.eqb i k) eqn:E; simpl.
    + apply Nat.eqb_eq in E. subst k.
      destruct (Nat.eqb j i) eqn:E'; [|reflexivity].
      apply Nat.eqb_eq in E'. congruence.
    + destruct (Nat.eqb j k); [reflexivity | exact IH].
Qed.

Lemma store_store (i : nat) (e1 e2 : entity) (h : list (nat * entity)) :
  store i e2 (store i e1 h) = store i e2 h.
Proof.
  induction h as [|[k e0] h IH]; simpl.
  - now rewrite Nat.eqb_refl.
  - destruct (Nat.eqb i k) eqn:E; simpl; rewrite E; [reflexivity | now rewrite IH].
Qed.

Lemma world_eta (w : world) :
  set_queued_entities_for_removal (queued_entities_for_removal w) w = w.
Proof. destruct w; reflexivity. Qed.

Lemma in_reg_insert (i k : nat) (l : list nat) :
  In k (reg_insert i l) <-> k = i \/ In k l.
Proof.
  induction l as [|a l IH]; simpl.
  - intuition.
  - destruct (Nat.ltb i a) eqn:E1; simpl; [intuition|].
    destruct (Nat.eqb i a) eqn:E2; simpl.
    + apply Nat.eqb_eq in E2. subst a. intuition.
    + rewrite IH. intuition.
Qed.

Lemma in_reg_delete (i k : nat) (l : list nat) :
  In k (reg_delete i l) <-> k <> i /\ In k l.
Proof.
  induction l as [|a l IH]; simpl.
  - intuition.
  - destruct (Nat.eqb i a) eqn:E; simpl.
    + apply Nat.eqb_eq in E. subst a. rewrite IH. intuition congruence.
    + apply Nat.eqb_neq in E. rewrite IH. intuition congruence.
Qed.

Lemma reg_delete_absent (i : nat) (l : list nat) :
  ~ In i l -> reg_delete i l = l.
Proof.
  induction l as [|a l IH]; simpl; intro H; [reflexivity|].
  destruct (Nat.eqb i a) eqn:E.
  - apply Nat.eqb_eq in E. subst a. tauto.
  - rewrite IH; tauto.
Qed.

Lemma in_registry_In (i : nat) (w : world) :
  in_registry i w = true <-> In i (entities w).
Proof.
  unfold in_registry. rewrite existsb_exists. split.
  - intros (k & Hk & E). apply Nat.eqb_eq in E. now subst k.
  - intro H. exists i. split; [exact H | apply Nat.eqb_refl].
Qed.

Lemma length_arr_set {A : Type} (i : nat) (v : A) (l : list (option A)) :
  (length l <= length (arr_set i v l))%nat /\ (i < length (arr_set i v l))%nat.
Proof.
  revert l. induction i as [|i IH]; intros [|h t]; simpl; try lia.
  - specialize (IH []). simpl in IH. lia.
  - specialize (IH t). lia.
Qed.

Lemma length_splice1 {A : Type} (i : nat) (l : list (option A)) :
  (i < length l)%nat -> S (length (splice1 i l)) = length l.
Proof.
  revert l. induction i as [|i IH]; intros [|h t]; simpl; try lia.
  intro H. rewrite IH; lia.
Qed.

Lemma splice1_past_end {A : Type} (i : nat) (l : list (option A)) :
  (length l <= i)%nat -> splice1 i l = l.
Proof.
  revert l. induction i as [|i IH]; intros [|h t]; simpl; try lia; try reflexivity.
  intro H. rewrite IH; [reflexivity | lia].
Qed.

(** ** The two [map] passes only push on the queue *)

Lemma enemy_hit_by_eq (eid : nat) (epos : point) (stored : list (option point))
    (w : world) :
  enemy_hit_by eid epos stored w =
  set_queued_entities_for_removal
    (queued_entities_for_removal w
     ++ repeat eid (length (filter (near 10 epos) (present stored)))) w.
Proof.
  unfold enemy_hit_by. generalize (present stored) as l. intro l. revert w.
  induction l as [|pr l IH]; intro w; simpl.
  - rewrite app_nil_r. symmetry. apply world_eta.
  - destruct (near 10 epos pr); simpl.
    + rewrite IH. unfold remove. simpl. rewrite <- app_assoc. reflexivity.
    + apply IH.
Qed.

Lemma projectile_hits_eq (i : nat) (pr : point) (stored : list (option point))
    (w : world) :
  projectile_hits i pr stored w =
  let n := length (filter (near 8 pr) (present stored)) in
  set_queued_entities_for_removal
    (queued_entities_for_removal w ++ repeat i n)
    (set_enemiesHit (enemiesHit w + Z.of_nat n) w).
Proof.
  unfold projectile_hits. generalize (present stored) as l. intro l. revert w.
  induction l as [|en l IH]; intro w.
  - simpl. rewrite app_nil_r, Z.add_0_r. destruct w; reflexivity.
  - cbn [fold_left filter]. destruct (near 8 pr en).
    + rewrite IH. cbn [length repeat]. rewrite Nat2Z.inj_succ.
      destruct w; unfold remove, set_queued_entities_for_removal, set_enemiesHit;
        cbn [queued_entities_for_removal enemiesHit last_time loop_count
             running_id enemyCount masterTime timeAliveCount prevAliveCount
             currerntHighScore masterHighScore projShotTime entities player
             enemy_spawner heap random_source random_calls hud].
      rewrite <- app_assoc. f_equal. lia.
    + apply IH.
Qed.

(** Two worlds with the same globals are the same world. *)
Lemma world_ext (w1 w2 : world) :
  last_time w1 = last_time w2 -> loop_count w1 = loop_count w2 ->
  running_id w1 = running_id w2 -> enemiesHit w1 = enemiesHit w2 ->
  enemyCount w1 = enemyCount w2 -> masterTime w1 = masterTime w2 ->
  timeAliveCount w1 = timeAliveCount w2 ->
  prevAliveCount w1 = prevAliveCount w2 ->
  currerntHighScore w1 = currerntHighScore w2 ->
  masterHighScore w1 = masterHighScore w2 ->
  projShotTime w1 = projShotTime w2 -> entities w1 = entities w2 ->
  queued_entities_for_removal w1 = queued_entities_for_removal w2 ->
  player w1 = player w2 -> enemy_spawner w1 = enemy_spawner w2 ->
  heap w1 = heap w2 -> random_source w1 = random_source w2 ->
  random_calls w1 = random_calls w2 -> hud w1 = hud w2 ->
  w1 = w2.
Proof.
  destruct w1, w2; simpl; intros; subst; reflexivity.
Qed.

(** Reads fields back through assignments to globals. *)
Ltac globals :=
  cbn [remove write with_queue_heap register
       set_queued_entities_for_removal set_enemiesHit
       set_heap set_entities set_running_id set_enemyCount set_projShotTime
       set_player set_enemy_spawner set_random_calls set_hud
       queued_entities_for_removal enemiesHit last_time loop_count
       running_id enemyCount masterTime timeAliveCount prevAliveCount
       currerntHighScore masterHighScore projShotTime entities player
       enemy_spawner heap random_source random_calls hud] in *.

Ltac world_eq := apply world_ext; globals; try reflexivity.

(** ** [Enemy.update] and [Projectile.update] in one assignment each *)

Lemma Enemy_update_eq (eid : nat) (delta_time : Q) (w : world)
    (b : body) (spd : num) (pid : nat) (pb : body) (pp : player_data) :
  lookup eid (heap w) = Some (Enemy b spd) ->
  the_player w = Some (pid, pb, pp) ->
  let pos1 := enemy_move spd (position pb) (position b) in
  let pp1 := set_enemies (arr_set eid (position b) (enemies pp)) pp in
  Enemy_update eid delta_time w =
  set_queued_entities_for_removal
    (queued_entities_for_removal w
     ++ enemy_removals eid (health pb) pos1 (projectiles pp) (position pb))
    (set_heap
       (store eid
          (Enemy (set_position (enemy_place delta_time pos1 (velocity b)) b) spd)
          (store pid
             (if near 10 pos1 (position pb)
              then Player (set_health (health pb - 25) pb) (set_hit 100 pp1)
              else Player pb pp1)
             (heap w)))
       w).
Proof.
  intros Hl Hp pos1 pp1. unfold Enemy_update. rewrite Hl, Hp.
  fold pos1. fold pp1. rewrite enemy_hit_by_eq. unfold enemy_removals.
  change (projectiles pp1) with (projectiles pp).
  destruct (health pb =? 0); destruct (Nat.eqb eid 1);
    destruct (y pos1 >? Num.of_Z 500)%num;
    destruct (near 10 pos1 (position pb));
    world_eq; rewrite ?store_store, <- ?app_assoc, ?app_nil_r; reflexivity.
Qed.

Lemma Projectile_update_eq (i : nat) (delta_time : Q) (w : world)
    (b : body) (spd : num) (pr : point) (pid : nat) (pb : body)
    (pp : player_data) :
  lookup i (heap w) = Some (Projectile b spd pr) ->
  the_player w = Some (pid, pb, pp) ->
  let pr1 := mkpoint (x pr) (y pr - spd)%num in
  let n := length (filter (near 8 pr1) (present (enemies pp))) in
  Projectile_update i delta_time w =
  set_queued_entities_for_removal
    (queued_entities_for_removal w
     ++ projectile_removals i (health pb) pr1 (enemies pp))
    (set_enemiesHit (enemiesHit w + Z.of_nat n)
       (set_heap
          (store i
             (Projectile
                (set_position (integrate delta_time (position b) (velocity b)) b)
                spd
                (mkpoint (clip (width config_canvas_size) (x pr1))
                         (clip (height config_canvas_size) (y pr1))))
             (store pid
                (Player pb (set_projectiles (arr_set i pr (projectiles pp)) pp))
                (heap w)))
          w)).
Proof.
  intros Hl Hp pr1 n. unfold Projectile_update. rewrite Hl, Hp.
  fold pr1. rewrite projectile_hits_eq. unfold projectile_removals.
  change (enemies (set_projectiles (arr_set i pr (projectiles pp)) pp))
    with (enemies pp).
  fold n.
  destruct (health pb =? 0); destruct (y pr1 <? Num.of_Z 0)%num;
    world_eq; rewrite <- ?app_assoc, ?app_nil_r; reflexivity.
Qed.

Lemma the_player_inv (w : world) (pid : nat) (pb : body) (pp : player_data) :
  the_player w = Some (pid, pb, pp) ->
  player w = Some pid /\ lookup pid (heap w) = Some (Player pb pp).
Proof.
  unfold the_player. destruct (player w) as [k|]; [|discriminate].
  destruct (lookup k (heap w)) as [[b p| |]|] eqn:E; try discriminate.
  intro H. inversion H. subst. auto.
Qed.

Lemma the_player_intro (w : world) (pid : nat) (pb : body) (pp : player_data) :
  player w = Some pid -> lookup pid (heap w) = Some (Player pb pp) ->
  the_player w = Some (pid, pb, pp).
Proof. unfold the_player. intros -> ->. reflexivity. Qed.

(** ** Enemy movement (C5) *)




(** ** The enemy-side projectile pass (C6) *)


Lemma in_repeat_length {A B : Type} (a : B) (f : A -> bool) (l : list A) :
  In a (repeat a (length (filter f l))) <-> exists b, In b l /\ f b = true.
Proof.
  split.
  - intro H. destruct (filter f l) as [|b t] eqn:E; [inversion H|].
    exists b. apply filter_In. rewrite E. now left.
  - intros (b & Hb & Hf).
    assert (Hin : In b (filter f l)) by (apply filter_In; auto).
    destruct (filter f l); [inversion Hin | now left].
Qed.



(** ** The removal pass (C3) *)

Lemma flush_one_entities (w : world) (i : nat) :
  entities (flush_one w i) = reg_delete i (entities w).
Proof.
  unfold flush_one. destruct (the_player w) as [[[pid pb] pp]|]; reflexivity.
Qed.

Lemma flush_one_player (w : world) (i : nat) (pid : nat) (pb : body)
    (pp : player_data) :
  the_player w = Some (pid, pb, pp) ->
  the_player (flush_one w i)
  = Some (pid, pb, set_projectiles (splice1 i (projectiles pp))
                     (set_enemies (splice1 i (enemies pp)) pp)).
Proof.
  intro Hp. destruct (the_player_inv _ _ _ _ Hp) as [Hpl Hpo].
  unfold flush_one. rewrite Hp. apply the_player_intro; globals.
  - exact Hpl.
  - apply lookup_store_same.
Qed.

Lemma fold_flush_entities (q : list nat) :
  forall w, entities (fold_left flush_one q w)
            = fold_left (fun l i => reg_delete i l) q (entities w).
Proof.
  induction q as [|i q IH]; intro w; simpl; [reflexivity|].
  rewrite IH, flush_one_entities. reflexivity.
Qed.

Lemma in_fold_reg_delete (q : list nat) :
  forall (l : list nat) (k : nat),
    In k (fold_left (fun l0 i => reg_delete i l0) q l) <-> In k l /\ ~ In k q.
Proof.
  induction q as [|i q IH]; intros l k; simpl.
  - tauto.
  - rewrite IH, in_reg_delete. intuition congruence.
Qed.

(** After the removal pass the registry holds the ids it held before,
    minus the queued ones; how often an id was queued does not matter. *)
Lemma flush_registry (w : world) (k : nat) :
  In k (entities (flush w))
  <-> In k (entities w) /\ ~ In k (queued_entities_for_removal w).
Proof.
  unfold flush. globals. rewrite fold_flush_entities. apply in_fold_reg_delete.
Qed.

(** C3 fails on the code.  In the run [restart_frames] the removal queue
    of step 132 is [1; 1]: the spawner, which is out of the registry,
    queued its id twice on step 131.  The removal pass runs its body once
    per entry.  For the registry the second entry changes nothing, but
    [player.enemies] is spliced at index 1 twice: the first splice takes
    the slot of id 1, the second the slot of the live, registered enemy 2,
    which has moved down to index 1.  With id 1 queued once the slot of
    enemy 2 stays. *)
Theorem C3_double_entry_removes_two_slots :
  let w := double_queue_world in
  let once := flush (set_queued_entities_for_removal [1%nat] w) in
  let twice := flush w in
  let slot2 := Some (mkpoint (Num.mk 30 14) (Num.mk 309 14)) in
  nth_error (history restart_frames (page_load aimed_random)) 131
  = Some (update config_update_rate_seconds double_queue_start)
  /\ queued_entities_for_removal w = [1%nat; 1%nat]
  /\ in_registry 1 w = false
  /\ in_registry 2 w = true
  /\ entities twice = entities once
  /\ nth_error (player_enemies w) 2 = Some slot2
  /\ length (player_enemies w) = 8%nat
  /\ length (player_enemies once) = 7%nat
  /\ length (player_enemies twice) = 6%nat
  /\ nth_error (player_enemies once) 1 = Some slot2
  /\ ~ In slot2 (player_enemies twice)
  /\ in_registry 2 twice = true.
Proof.
  vm_compute. repeat split; try reflexivity.
  intros [H|[H|[H|[H|[H|[H|[]]]]]]]; discriminate H.
Qed.

(** Queueing an id twice leaves the registry as queueing it once does:
    the pass deletes the key on the first entry and finds it gone on the
    second.  But the pass runs its body once per queue entry,
    so [player.enemies] and [player.projectiles] are spliced at that index
    once per entry: a second entry takes out the slot that has moved down
    to the index. *)
Theorem flush_runs_once_per_entry
    (w : world) (i : nat) (pid : nat) (pb : body) (pp : player_data) :
  the_player w = Some (pid, pb, pp) ->
  let once := flush (set_queued_entities_for_removal [i] w) in
  let twice := flush (set_queued_entities_for_removal [i; i] w) in
  entities once = reg_delete i (entities w)
  /\ entities twice = entities once
  /\ player_enemies once = splice1 i (enemies pp)
  /\ player_enemies twice = splice1 i (splice1 i (enemies pp))
  /\ player_projectiles once = splice1 i (projectiles pp)
  /\ player_projectiles twice = splice1 i (splice1 i (projectiles pp))
  /\ (forall k, In k (entities (flush w))
                <-> In k (entities w) /\ ~ In k (queued_entities_for_removal w)).
Proof.
  intros Hp once twice.
  assert (H1 : the_player (flush_one w i)
               = Some (pid, pb, set_projectiles (splice1 i (projectiles pp))
                                  (set_enemies (splice1 i (enemies pp)) pp)))
    by (apply flush_one_player; exact Hp).
  pose proof (flush_one_player _ i _ _ _ H1) as H2.
  assert (Hq : forall q w0 k, flush_one (set_queued_entities_for_removal q w0) k
                              = set_queued_entities_for_removal q (flush_one w0 k)).
  { intros q w0 k. unfold flush_one.
    change (the_player (set_queued_entities_for_removal q w0))
      with (the_player w0).
    destruct (the_player w0) as [[[pid0 pb0] pp0]|]; reflexivity. }
  assert (Ho : the_player once = the_player (flush_one w i)).
  { unfold once, flush. globals. cbn [fold_left]. rewrite Hq. reflexivity. }
  assert (Ht : the_player twice = the_player (flush_one (flush_one w i) i)).
  { unfold twice, flush. globals. cbn [fold_left]. rewrite !Hq. reflexivity. }
  split; [|split; [|split; [|split; [|split; [|split]]]]].
  - unfold once, flush. globals. cbn [fold_left].
    rewrite flush_one_entities. reflexivity.
  - unfold once, twice, flush. globals. cbn [fold_left].
    rewrite !flush_one_entities. globals.
    apply reg_delete_absent. rewrite in_reg_delete. intros [Hne _]. now apply Hne.
  - unfold player_enemies. rewrite Ho, H1. reflexivity.
  - unfold player_enemies. rewrite Ht, H2. reflexivity.
  - unfold player_projectiles. rewrite Ho, H1. reflexivity.
  - unfold player_projectiles. rewrite Ht, H2. reflexivity.
  - intro k. apply flush_registry.
Qed.

Lemma flush_runs_once_per_entry_example :
  the_player double_queue_world
  = Some (0%nat, fst double_queue_player, snd double_queue_player)
  /\ entities (flush (set_queued_entities_for_removal [1%nat; 1%nat]
                        double_queue_world))
     = entities (flush (set_queued_entities_for_removal [1%nat]
                          double_queue_world)).
Proof.
  assert (H : the_player double_queue_world
              = Some (0%nat, fst double_queue_player, snd double_queue_player))
    by (vm_compute; reflexivity).
  split; [exact H|].
  exact (proj1 (proj2 (flush_runs_once_per_entry double_queue_world 1 0
                         (fst double_queue_player) (snd double_queue_player) H))).
Defined.

(** ** Firing (C4) *)

Lemma lookup_fresh (w : world) (k : nat) :
  heap_fresh w = true -> (running_id w <= k)%nat -> lookup k (heap w) = None.
Proof.
  unfold heap_fresh. generalize (running_id w) as r. generalize (heap w) as h.
  induction h as [|[j e] h IH]; intros r Hf Hk; simpl; [reflexivity|].
  simpl in Hf. apply andb_prop in Hf. destruct Hf as [Hj Hf].
  apply Nat.ltb_lt in Hj.
  destruct (Nat.eqb k j) eqn:E; [apply Nat.eqb_eq in E; lia | eauto].
Qed.

Lemma lookup_below (w : world) (k : nat) (e : entity) :
  heap_fresh w = true -> lookup k (heap w) = Some e -> (k < running_id w)%nat.
Proof.
  intros Hf Hl. destruct (Nat.lt_ge_cases k (running_id w)) as [H|H]; [exact H|].
  rewrite (lookup_fresh w k Hf H) in Hl. discriminate.
Qed.

Lemma projectile_count_new (i : nat) (e : entity) (h : list (nat * entity)) :
  lookup i h = None ->
  projectile_count (store i e h)
  = (projectile_count h + (if is_Projectile e then 1 else 0))%nat.
Proof.
  unfold projectile_count.
  induction h as [|[k e0] h IH]; simpl; intro Hl.
  - destruct (is_Projectile e); reflexivity.
  - destruct (Nat.eqb i k) eqn:E; [discriminate|]. simpl.
    destruct (is_Projectile e0); simpl; rewrite IH by exact Hl; reflexivity.
Qed.

Lemma projectile_count_same (i : nat) (e e0 : entity) (h : list (nat * entity)) :
  lookup i h = Some e0 -> is_Projectile e0 = is_Projectile e ->
  projectile_count (store i e h) = projectile_count h.
Proof.
  unfold projectile_count.
  induction h as [|[k e1] h IH]; simpl; intros Hl Hc; [discriminate|].
  destruct (Nat.eqb i k) eqn:E; simpl.
  - inversion Hl. subst e1. rewrite Hc. destruct (is_Projectile e); reflexivity.
  - destruct (is_Projectile e1); simpl; rewrite IH by assumption; reflexivity.
Qed.

Lemma armed_spec (p : player_data) :
  armed p = projectileReady p || (Z.rem (enemyTimer p + 1) 40 =? 0).
Proof.
  unfold armed.
  destruct (Z.rem (enemyTimer p + 1) 40 =? 0), (projectileReady p); reflexivity.
Qed.

(** What [Player.update] does to the globals other than the heap and the
    registry. *)
Lemma Player_update_globals (pid : nat) (delta_time : Q) (w : world)
    (b : body) (p : player_data) :
  lookup pid (heap w) = Some (Player b p) ->
  let w' := Player_update pid delta_time w in
  queued_entities_for_removal w' = queued_entities_for_removal w
  /\ player w' = player w
  /\ enemy_spawner w' = enemy_spawner w
  /\ masterTime w' = masterTime w
  /\ enemiesHit w' = enemiesHit w
  /\ projShotTime w' = (if fires p w then masterTime w else projShotTime w)
  /\ enemyCount w'
     = enemyCount w + (if Z.rem (enemyTimer p + 1) 20 =? 0 then 1 else 0).
Proof.
  intros Hl w'. unfold w', Player_update. rewrite Hl.
  destruct (Z.rem (enemyTimer p + 1) 20 =? 0).
  - change (fires p (new_Enemy (set_enemyCount (enemyCount w + 1) w)))
      with (fires p w).
    destruct (fires p w).
    + unfold new_Projectile.
      destruct (the_player
                  (set_projShotTime
                     (masterTime (new_Enemy (set_enemyCount (enemyCount w + 1) w)))
                     (new_Enemy (set_enemyCount (enemyCount w + 1) w))))
        as [[[g gb] gp]|]; unfold new_Enemy; globals;
        repeat split; reflexivity.
    + unfold new_Enemy; globals; repeat split; reflexivity.
  - rewrite Z.add_0_r. destruct (fires p w).
    + unfold new_Projectile.
      destruct (the_player (set_projShotTime (masterTime w) w))
        as [[[g gb] gp]|]; globals; repeat split; reflexivity.
    + globals; repeat split; reflexivity.
Qed.

Lemma Player_update_shots (pid : nat) (delta_time : Q) (w : world)
    (b : body) (p : player_data) (gid : nat) (pb : body) (pp : player_data) :
  lookup pid (heap w) = Some (Player b p) ->
  the_player w = Some (gid, pb, pp) ->
  heap_fresh w = true ->
  shots (Player_update pid delta_time w)
  = (shots w + (if fires p w then 1 else 0))%nat.
Proof.
  intros Hl Hp Hf.
  destruct (the_player_inv _ _ _ _ Hp) as [Hpl Hpo].
  pose proof (lookup_below _ _ _ Hf Hl) as Hpid.
  pose proof (lookup_below _ _ _ Hf Hpo) as Hgid.
  pose proof (lookup_fresh w (running_id w) Hf (Nat.le_refl _)) as Hr0.
  pose proof (lookup_fresh w (S (running_id w)) Hf (Nat.le_succ_diag_r _)) as Hr1.
  unfold shots, Player_update. rewrite Hl.
  destruct (Z.rem (enemyTimer p + 1) 20 =? 0).
  - change (fires p (new_Enemy (set_enemyCount (enemyCount w + 1) w)))
      with (fires p w).
    destruct (fires p w).
    + unfold new_Projectile.
      rewrite (the_player_intro _ gid pb pp).
      * unfold new_Enemy. globals.
        erewrite projectile_count_same;
          [| rewrite !lookup_store_other by lia; exact Hl | reflexivity].
        rewrite projectile_count_new
          by (rewrite lookup_store_other by lia; exact Hr1).
        rewrite projectile_count_new by exact Hr0.
        simpl. lia.
      * exact Hpl.
      * unfold new_Enemy. globals. rewrite lookup_store_other by lia. exact Hpo.
    + unfold new_Enemy. globals.
      erewrite projectile_count_same;
        [| rewrite !lookup_store_other by lia; exact Hl | reflexivity].
      rewrite projectile_count_new by exact Hr0. simpl. lia.
  - destruct (fires p w).
    + unfold new_Projectile.
      rewrite (the_player_intro _ gid pb pp); [| exact Hpl | exact Hpo].
      globals.
      erewrite projectile_count_same;
        [| rewrite !lookup_store_other by lia; exact Hl | reflexivity].
      rewrite projectile_count_new by exact Hr0. simpl. lia.
    + globals.
      erewrite projectile_count_same; [| exact Hl | reflexivity]. lia.
Qed.

(** C4, as claimed, fails.  In the run [held_fire_frames] space is down in
    every step, and the player fires on step 119 and again on step 131:
    twelve steps, a fifth of a second of simulated time, apart.  The two
    callbacks these steps belong to have time stamps 2.19 s and 2.70 s. *)
Lemma C4_two_shots_a_fifth_of_a_second_apart :
  let ws := history held_fire_frames (page_load no_random) in
  length ws = 160%nat
  /\ forallb action_held ws = true
  /\ option_map shots (nth_error ws 117) = Some 1%nat
  /\ option_map shots (nth_error ws 118) = Some 2%nat
  /\ option_map shots (nth_error ws 129) = Some 2%nat
  /\ option_map shots (nth_error ws 130) = Some 3%nat
  /\ option_map masterTime (nth_error ws 118) = Some (clock 2190)
  /\ option_map masterTime (nth_error ws 130) = Some (clock 2700)
  /\ (simulated_time (step_events (firstn 12 (skipn 119 ws))) < 4 # 10)%Q.
Proof.
  vm_compute. repeat split; reflexivity.
Qed.

(** C4, amended.  [Player.update] constructs a projectile exactly when
    [controller.action_1] is true, [projectileReady] is set (before this
    call or by this call, on a tick that is a multiple of 40) and
    [masterTime > projShotTime + 0.5] holds of the doubles, the sum
    rounded; it then sets [projShotTime] to [masterTime].  [masterTime] is
    not simulated time: [loop] sets it to the time stamp of the
    animation-frame callback (in seconds, a double) and no step changes
    it, so the steps of one callback share it.  Callbacks stamped 1680 ms
    and 2180 ms pass the test: in doubles [1.68 + 0.5 < 2.18]. *)
Theorem C4_fire_gate
    (pid : nat) (delta_time : Q) (w : world) (b : body) (p : player_data)
    (gid : nat) (pb : body) (pp : player_data) :
  lookup pid (heap w) = Some (Player b p) ->
  the_player w = Some (gid, pb, pp) ->
  heap_fresh w = true ->
  let w' := Player_update pid delta_time w in
  shots w' = (shots w + (if fires p w then 1 else 0))%nat
  /\ fires p w
     = action_1 (controller p)
       && (projectileReady p || (Z.rem (enemyTimer p + 1) 40 =? 0))
       && Qgtb (masterTime w) (Double.add (projShotTime w) (1 # 2))
  /\ (fires p w = true ->
      (Double.add (projShotTime w) (1 # 2) < masterTime w)%Q
      /\ projShotTime w' = masterTime w)
  /\ (fires p w = false -> projShotTime w' = projShotTime w)
  /\ masterTime w' = masterTime w
  /\ (forall (curr_time : Q) (w0 : world),
         masterTime (loop_prologue curr_time w0) = curr_time)
  /\ Qgtb (clock 2180) (Double.add (clock 1680) (1 # 2)) = true.
Proof.
  intros Hl Hp Hf w'.
  destruct (Player_update_globals pid delta_time w b p Hl)
    as (_ & _ & _ & Hmt & _ & Hst & _).
  split; [apply (Player_update_shots _ _ _ _ _ _ _ _ Hl Hp Hf)|].
  split; [unfold fires; now rewrite armed_spec|].
  split.
  - intro Hfire. split.
    + unfold fires in Hfire. apply andb_prop in Hfire. destruct Hfire as [_ Hg].
      now apply Qgtb_true in Hg.
    + unfold w'. rewrite Hst, Hfire. reflexivity.
  - split; [|split].
    + intro Hfire. unfold w'. rewrite Hst, Hfire. reflexivity.
    + exact Hmt.
    + split; reflexivity.
Qed.

Lemma C4_fire_gate_witness :
  nth_error (history held_fire_frames (page_load no_random)) 118
  = Some (update config_update_rate_seconds fire_callback)
  /\ lookup 0 (heap fire_world)
     = Some (Player (fst fire_player) (snd fire_player))
  /\ the_player fire_world = Some (0%nat, fst fire_player, snd fire_player)
  /\ heap_fresh fire_world = true
  /\ fires (snd fire_player) fire_world = true
  /\ shots (Player_update 0 config_update_rate_seconds fire_world) = 2%nat.
Proof.
  split; [vm_compute; reflexivity|].
  assert (H1 : lookup 0 (heap fire_world)
               = Some (Player (fst fire_player) (snd fire_player)))
    by (vm_compute; reflexivity).
  assert (H2 : the_player fire_world
               = Some (0%nat, fst fire_player, snd fire_player))
    by (vm_compute; reflexivity).
  assert (H3 : heap_fresh fire_world = true) by (vm_compute; reflexivity).
  assert (H4 : fires (snd fire_player) fire_world = true)
    by (vm_compute; reflexivity).
  split; [exact H1|]. split; [exact H2|]. split; [exact H3|].
  split; [exact H4|].
  pose proof (proj1 (C4_fire_gate 0 config_update_rate_seconds fire_world
                       (fst fire_player) (snd fire_player) 0
                       (fst fire_player) (snd fire_player) H1 H2 H3)) as Hs.
  etransitivity; [exact Hs|].
  etransitivity; [exact (f_equal (fun c : bool =>
                                    (shots fire_world + (if c then 1 else 0))%nat) H4)|].
  vm_compute. reflexivity.
Defined.

(** ** What the entity pass preserves *)

Lemma evolves_refl (e : entity) : evolves e e.
Proof. destruct e; simpl; auto. repeat split; auto; lia. Qed.

Lemma evolves_trans (e1 e2 e3 : entity) :
  evolves e1 e2 -> evolves e2 e3 -> evolves e1 e3.
Proof.
  destruct e1, e2, e3; simpl; try tauto.
  intros (H1 & H2 & H3 & H4 & H5) (G1 & G2 & G3 & G4 & G5).
  repeat split; try congruence; lia.
Qed.

Lemma advances_refl (w : world) : advances w w.
Proof.
  constructor; auto.
  - intros k e _ H. exists e. split; [exact H | apply evolves_refl].
  - exists []. now rewrite app_nil_r.
Qed.

Lemma advances_trans (w1 w2 w3 : world) :
  advances w1 w2 -> advances w2 w3 -> advances w1 w3.
Proof.
  intros [P1 S1 M1 R1 H1 K1 N1 [l1 Q1]] [P2 S2 M2 R2 H2 K2 N2 [l2 Q2]].
  constructor; try congruence; try lia; auto.
  - intros k e Hk He. destruct (H1 k e Hk He) as (e' & He' & Hev).
    destruct (H2 k e' ltac:(lia) He') as (e'' & He'' & Hev').
    exists e''. split; [exact He'' | eapply evolves_trans; eauto].
  - intros k Hk. destruct (N2 k Hk) as [H|H]; [|right; lia].
    destruct (N1 k H); [now left | now right].
  - exists (l1 ++ l2). rewrite Q2, Q1. now rewrite app_assoc.
Qed.

Lemma Player_update_eq (pid : nat) (delta_time : Q) (w : world)
    (b : body) (p : player_data) :
  lookup pid (heap w) = Some (Player b p) ->
  Player_update pid delta_time w =
  let w1 := if Z.rem (enemyTimer p + 1) 20 =? 0
            then new_Enemy (set_enemyCount (enemyCount w + 1) w)
            else w in
  let w2 := if fires p w
            then new_Projectile (set_projShotTime (masterTime w) w1)
            else w1 in
  write pid (player_after delta_time (fires p w) b p) w2.
Proof.
  intro Hl. unfold Player_update. rewrite Hl.
  destruct (Z.rem (enemyTimer p + 1) 20 =? 0); reflexivity.
Qed.

Lemma advances_new_Enemy (w : world) : advances w (new_Enemy w).
Proof.
  unfold new_Enemy. constructor; globals; auto.
  - intros k e Hk He. exists e. split; [|apply evolves_refl].
    rewrite lookup_store_other by lia. exact He.
  - intros k Hk. apply in_reg_insert. now right.
  - intros k Hk. apply in_reg_insert in Hk. destruct Hk; [right; lia | now left].
  - exists []. now rewrite app_nil_r.
Qed.

Lemma advances_new_Projectile (w : world) : advances w (new_Projectile w).
Proof.
  unfold new_Projectile.
  destruct (the_player w) as [[[g gb] gp]|]; [|apply advances_refl].
  constructor; globals; auto.
  - intros k e Hk He. exists e. split; [|apply evolves_refl].
    rewrite lookup_store_other by lia. exact He.
  - intros k Hk. apply in_reg_insert. now right.
  - intros k Hk. apply in_reg_insert in Hk. destruct Hk; [right; lia | now left].
  - exists []. now rewrite app_nil_r.
Qed.

Lemma advances_set_enemyCount (v : Z) (w : world) :
  advances w (set_enemyCount v w).
Proof.
  constructor; globals; auto.
  - intros k e _ H. exists e. split; [exact H | apply evolves_refl].
  - exists []. now rewrite app_nil_r.
Qed.

Lemma advances_set_projShotTime (v : Q) (w : world) :
  advances w (set_projShotTime v w).
Proof.
  constructor; globals; auto.
  - intros k e _ H. exists e. split; [exact H | apply evolves_refl].
  - exists []. now rewrite app_nil_r.
Qed.

(** Writing back an object that evolved from the one stored. *)
Lemma advances_write (i : nat) (e e' : entity) (w : world) :
  lookup i (heap w) = Some e -> evolves e e' -> advances w (write i e' w).
Proof.
  intros Hl Hev. constructor; globals; auto.
  - intros k e0 _ He0. destruct (Nat.eq_dec i k) as [->|Hne].
    + rewrite lookup_store_same. exists e'. split; [reflexivity|]. congruence.
    + rewrite lookup_store_other by exact Hne. exists e0.
      split; [exact He0 | apply evolves_refl].
  - exists []. now rewrite app_nil_r.
Qed.

Lemma new_Enemy_lookup (k : nat) (w : world) :
  k <> running_id w -> lookup k (heap (new_Enemy w)) = lookup k (heap w).
Proof.
  intro Hk. unfold new_Enemy. globals. apply lookup_store_other. congruence.
Qed.

Lemma new_Projectile_lookup (k : nat) (w : world) :
  k <> running_id w -> lookup k (heap (new_Projectile w)) = lookup k (heap w).
Proof.
  intro Hk. unfold new_Projectile.
  destruct (the_player w) as [[[g gb] gp]|]; [|reflexivity].
  globals. apply lookup_store_other. congruence.
Qed.

Lemma evolves_player_after (delta_time : Q) (fire : bool) (b : body)
    (p : player_data) :
  evolves (Player b p) (player_after delta_time fire b p).
Proof. simpl. repeat split; auto; lia. Qed.

Lemma advances_Player_update (pid : nat) (delta_time : Q) (w : world)
    (b : body) (p : player_data) :
  lookup pid (heap w) = Some (Player b p) ->
  advances w (Player_update pid delta_time w).
Proof.
  intro Hl. rewrite (Player_update_eq _ _ _ _ _ Hl). cbv zeta.
  set (w1 := if Z.rem (enemyTimer p + 1) 20 =? 0
             then new_Enemy (set_enemyCount (enemyCount w + 1) w) else w).
  set (w2 := if fires p w
             then new_Projectile (set_projShotTime (masterTime w) w1) else w1).
  assert (A1 : advances w w1).
  { unfold w1. destruct (Z.rem (enemyTimer p + 1) 20 =? 0).
    - eapply advances_trans; [apply advances_set_enemyCount | apply advances_new_Enemy].
    - apply advances_refl. }
  assert (L1 : forall k, (k < running_id w)%nat ->
                         lookup k (heap w1) = lookup k (heap w)).
  { intros k Hk. unfold w1. destruct (Z.rem (enemyTimer p + 1) 20 =? 0).
    - rewrite new_Enemy_lookup; [reflexivity | globals; lia].
    - reflexivity. }
  assert (A2 : advances w1 w2).
  { unfold w2. destruct (fires p w).
    - eapply advances_trans;
        [apply advances_set_projShotTime | apply advances_new_Projectile].
    - apply advances_refl. }
  assert (L2 : forall k, (k < running_id w)%nat ->
                         lookup k (heap w2) = lookup k (heap w)).
  { intros k Hk. rewrite <- (L1 k Hk). unfold w2. destruct (fires p w).
    - rewrite new_Projectile_lookup; [reflexivity|].
      pose proof (adv_running_id _ _ A1). globals. lia.
    - reflexivity. }
  pose proof (advances_trans _ _ _ A1 A2) as A.
  destruct A as [P S M R H K N Qe].
  constructor; globals; auto.
  - intros k e Hk He. destruct (Nat.eq_dec pid k) as [->|Hne].
    + rewrite lookup_store_same. eexists. split; [reflexivity|].
      rewrite Hl in He. inversion He. apply evolves_player_after.
    + rewrite lookup_store_other by exact Hne. rewrite (L2 k Hk).
      exists e. split; [exact He | apply evolves_refl].
Qed.

Lemma Enemy_update_no_player (eid : nat) (delta_time : Q) (w : world) :
  the_player w = None -> Enemy_update eid delta_time w = w.
Proof.
  intro H. unfold Enemy_update. rewrite H.
  destruct (lookup eid (heap w)) as [[| |]|]; reflexivity.
Qed.

Lemma Projectile_update_no_player (i : nat) (delta_time : Q) (w : world) :
  the_player w = None -> Projectile_update i delta_time w = w.
Proof.
  intro H. unfold Projectile_update. rewrite H.
  destruct (lookup i (heap w)) as [[| |]|]; reflexivity.
Qed.

Lemma advances_Enemy_update (eid : nat) (delta_time : Q) (w : world)
    (b : body) (spd : num) :
  lookup eid (heap w) = Some (Enemy b spd) ->
  advances w (Enemy_update eid delta_time w).
Proof.
  intro Hl. destruct (the_player w) as [[[pid pb] pp]|] eqn:Hp.
  - destruct (the_player_inv _ _ _ _ Hp) as [Hpl Hpo].
    rewrite (Enemy_update_eq _ _ _ _ _ _ _ _ Hl Hp).
    constructor; globals; auto.
    + intros k e _ He. destruct (Nat.eq_dec eid k) as [->|Hne].
      * rewrite lookup_store_same. eexists. split; [reflexivity|].
        rewrite Hl in He. inversion He. exact I.
      * rewrite lookup_store_other by exact Hne.
        destruct (Nat.eq_dec pid k) as [->|Hne'].
        -- rewrite lookup_store_same. eexists. split; [reflexivity|].
           rewrite Hpo in He. inversion He.
           pose proof (length_arr_set eid (position b) (enemies pp)).
           destruct (near 10 _ (position pb)); simpl; repeat split; auto; lia.
        -- rewrite lookup_store_other by exact Hne'.
           exists e. split; [exact He | apply evolves_refl].
    + eexists. reflexivity.
  - rewrite Enemy_update_no_player by exact Hp. apply advances_refl.
Qed.

Lemma advances_Projectile_update (i : nat) (delta_time : Q) (w : world)
    (b : body) (spd : num) (pr : point) :
  lookup i (heap w) = Some (Projectile b spd pr) ->
  advances w (Projectile_update i delta_time w).
Proof.
  intro Hl. destruct (the_player w) as [[[pid pb] pp]|] eqn:Hp.
  - destruct (the_player_inv _ _ _ _ Hp) as [Hpl Hpo].
    rewrite (Projectile_update_eq _ _ _ _ _ _ _ _ _ Hl Hp).
    constructor; globals; auto.
    + intros k e _ He. destruct (Nat.eq_dec i k) as [->|Hne].
      * rewrite lookup_store_same. eexists. split; [reflexivity|].
        rewrite Hl in He. inversion He. exact I.
      * rewrite lookup_store_other by exact Hne.
        destruct (Nat.eq_dec pid k) as [->|Hne'].
        -- rewrite lookup_store_same. eexists. split; [reflexivity|].
           rewrite Hpo in He. inversion He.
           pose proof (length_arr_set i pr (projectiles pp)).
           simpl; repeat split; auto; lia.
        -- rewrite lookup_store_other by exact Hne'.
           exists e. split; [exact He | apply evolves_refl].
    + eexists. reflexivity.
  - rewrite Projectile_update_no_player by exact Hp. apply advances_refl.
Qed.

Lemma advances_entity_update (i : nat) (delta_time : Q) (w : world) :
  advances w (entity_update i delta_time w).
Proof.
  unfold entity_update. destruct (lookup i (heap w)) as [[b p|b s pr|b s]|] eqn:E.
  - eapply advances_Player_update; eauto.
  - eapply advances_Projectile_update; eauto.
  - eapply advances_Enemy_update; eauto.
  - apply advances_refl.
Qed.

Lemma advances_fold (delta_time : Q) (l : list nat) :
  forall w, advances w (fold_left (fun w0 i => entity_update i delta_time w0) l w).
Proof.
  induction l as [|i l IH]; intro w; simpl.
  - apply advances_refl.
  - eapply advances_trans; [apply advances_entity_update | apply IH].
Qed.

Lemma advances_update_entities (delta_time : Q) (w : world) :
  advances w (update_entities delta_time w).
Proof. exact (advances_fold delta_time (entities w) w). Qed.

(** ** Invariants of a run *)

Lemma states_app (l1 l2 : list event) :
  states (l1 ++ l2) = states l1 ++ states l2.
Proof.
  induction l1 as [|[d a|pic] l1 IH]; simpl; [reflexivity | now rewrite IH | exact IH].
Qed.

Section RunInvariant.

Variables P Q : world -> Prop.
Hypothesis P_key : forall ev w, P w -> P (dispatch_key ev w).
Hypothesis P_prologue : forall c w, P w -> P (loop_prologue c w).
Hypothesis P_update : forall w, P w -> Q (update config_update_rate_seconds w).
Hypothesis P_body : forall c w, P w -> P (fst (loop_body c w)).

Lemma loop_while_invariant (fuel : nat) :
  forall c d w w' evs,
    P w -> loop_while fuel c d w = Some (w', evs) ->
    P w' /\ Forall Q (states evs).
Proof.
  induction fuel as [|fuel IH]; intros c d w w' evs HP Hrun.
  - simpl in Hrun. destruct (Qgtb d config_update_rate_seconds); [discriminate|].
    inversion Hrun. subst. split; [exact HP | constructor].
  - rewrite loop_while_S in Hrun.
    destruct (Qgtb d config_update_rate_seconds).
    + destruct (loop_while fuel c (Double.sub d config_update_rate_seconds)
                  (fst (loop_body c w))) as [[w2 evs2]|] eqn:E; [|discriminate].
      inversion Hrun. subst.
      destruct (IH _ _ _ _ _ (P_body c w HP) E) as [HP2 HQ2].
      split; [exact HP2|].
      change (Forall Q (update config_update_rate_seconds w :: states evs2)).
      constructor; [apply P_update; exact HP | exact HQ2].
    + inversion Hrun. subst. split; [exact HP | constructor].
Qed.

Lemma fold_key_invariant (evs : list key_event) :
  forall w, P w -> P (fold_left (fun w0 ev => dispatch_key ev w0) evs w).
Proof.
  induction evs as [|ev evs IH]; intros w HP; simpl; [exact HP|].
  apply IH. apply P_key. exact HP.
Qed.

Lemma run_invariant (fs : list frame) :
  forall w w' evs,
    P w -> run fs w = Some (w', evs) -> P w' /\ Forall Q (states evs).
Proof.
  induction fs as [|f fs IH]; intros w w' evs HP Hrun; simpl in Hrun.
  - inversion Hrun. subst. split; [exact HP | constructor].
  - destruct (run_frame f w) as [[w1 evs1]|] eqn:E1; [|discriminate].
    destruct (run fs w1) as [[w2 evs2]|] eqn:E2; [|discriminate].
    inversion Hrun. subst.
    unfold run_frame, loop in E1.
    apply loop_while_invariant in E1;
      [|apply P_prologue; apply fold_key_invariant; exact HP].
    destruct E1 as [HP1 HQ1].
    destruct (IH _ _ _ HP1 E2) as [HP2 HQ2].
    split; [exact HP2|].
    rewrite states_app. apply Forall_app. split; assumption.
Qed.

End RunInvariant.

(** ** Positions stay where they may be (C8) *)

Lemma in_box_clip (w h : Z) (px py : num) :
  (Num.of_Z 0 <=? Num.of_Z w)%num = true ->
  (Num.of_Z 0 <=? Num.of_Z h)%num = true ->
  in_box w h (mkpoint (clip w px) (clip h py)) = true.
Proof.
  intros Hw Hh. unfold in_box. cbn [x y].
  destruct (clip_bounds w px Hw) as [-> ->].
  destruct (clip_bounds h py Hh) as [-> ->]. reflexivity.
Qed.

Lemma placed_player_after (delta_time : Q) (fire : bool) (b : body)
    (p : player_data) :
  placed_ok (player_after delta_time fire b p).
Proof. apply in_box_clip; reflexivity. Qed.

Lemma placed_store (i : nat) (e0 : entity) (h : list (nat * entity)) :
  (forall k e, lookup k h = Some e -> placed_ok e) ->
  placed_ok e0 ->
  forall k e, lookup k (store i e0 h) = Some e -> placed_ok e.
Proof.
  intros Hh He0 k e Hl. destruct (Nat.eq_dec i k) as [->|Hne].
  - rewrite lookup_store_same in Hl. inversion Hl. subst. exact He0.
  - rewrite lookup_store_other in Hl by exact Hne. eauto.
Qed.

Lemma placed_write (i : nat) (e0 : entity) (w : world) :
  all_placed w -> placed_ok e0 -> all_placed (write i e0 w).
Proof. intros Hw He0. unfold all_placed. globals. now apply placed_store. Qed.

Lemma placed_register (e0 : entity) (w : world) :
  all_placed w -> placed_ok e0 -> all_placed (register e0 w).
Proof. intros Hw He0. unfold all_placed. globals. now apply placed_store. Qed.

Lemma placed_new_Enemy (w : world) : all_placed w -> all_placed (new_Enemy w).
Proof.
  intro Hw. unfold new_Enemy. apply placed_register; [exact Hw|].
  right. reflexivity.
Qed.

Lemma placed_new_Projectile (w : world) :
  all_placed w -> all_placed (new_Projectile w).
Proof.
  intro Hw. unfold new_Projectile.
  destruct (the_player w) as [[[g gb] gp]|] eqn:Hp; [|exact Hw].
  destruct (the_player_inv _ _ _ _ Hp) as [_ Hg].
  apply placed_register; [exact Hw|]. exact (Hw g _ Hg).
Qed.

Lemma placed_new_Player (w : world) : all_placed w -> all_placed (new_Player w).
Proof.
  intro Hw. unfold new_Player. apply placed_register; [exact Hw|]. reflexivity.
Qed.

Lemma placed_Player_update (pid : nat) (delta_time : Q) (w : world) :
  all_placed w -> all_placed (Player_update pid delta_time w).
Proof.
  intro Hw. destruct (lookup pid (heap w)) as [[b p|b s pr|b s]|] eqn:Hl;
    try (unfold Player_update; rewrite Hl; exact Hw).
  rewrite (Player_update_eq _ _ _ _ _ Hl). cbv zeta.
  apply placed_write; [|apply placed_player_after].
  assert (H1 : all_placed (if Z.rem (enemyTimer p + 1) 20 =? 0
                           then new_Enemy (set_enemyCount (enemyCount w + 1) w)
                           else w)).
  { destruct (Z.rem (enemyTimer p + 1) 20 =? 0); [|exact Hw].
    apply placed_new_Enemy. exact Hw. }
  destruct (fires p w); [|exact H1].
  apply placed_new_Projectile. exact H1.
Qed.

Lemma placed_Enemy_update (eid : nat) (delta_time : Q) (w : world) :
  all_placed w -> all_placed (Enemy_update eid delta_time w).
Proof.
  intro Hw. destruct (lookup eid (heap w)) as [[b p|b s pr|b s]|] eqn:Hl;
    try (unfold Enemy_update; rewrite Hl; exact Hw).
  destruct (the_player w) as [[[pid pb] pp]|] eqn:Hp;
    [|rewrite Enemy_update_no_player by exact Hp; exact Hw].
  destruct (the_player_inv _ _ _ _ Hp) as [_ Hpo].
  rewrite (Enemy_update_eq _ _ _ _ _ _ _ _ Hl Hp).
  unfold all_placed. globals.
  apply placed_store; [apply placed_store; [exact Hw|]|].
  - pose proof (Hw pid _ Hpo) as Hpl.
    destruct (near 10 _ (position pb)); exact Hpl.
  - left. apply in_box_clip; reflexivity.
Qed.

Lemma placed_Projectile_update (i : nat) (delta_time : Q) (w : world) :
  all_placed w -> all_placed (Projectile_update i delta_time w).
Proof.
  intro Hw. destruct (lookup i (heap w)) as [[b p|b s pr|b s]|] eqn:Hl;
    try (unfold Projectile_update; rewrite Hl; exact Hw).
  destruct (the_player w) as [[[pid pb] pp]|] eqn:Hp;
    [|rewrite Projectile_update_no_player by exact Hp; exact Hw].
  destruct (the_player_inv _ _ _ _ Hp) as [_ Hpo].
  rewrite (Projectile_update_eq _ _ _ _ _ _ _ _ _ Hl Hp).
  unfold all_placed. globals.
  apply placed_store; [apply placed_store; [exact Hw|]|].
  - exact (Hw pid _ Hpo).
  - apply in_box_clip; reflexivity.
Qed.

Lemma placed_entity_update (i : nat) (delta_time : Q) (w : world) :
  all_placed w -> all_placed (entity_update i delta_time w).
Proof.
  intro Hw. unfold entity_update.
  destruct (lookup i (heap w)) as [[b p|b s pr|b s]|].
  - now apply placed_Player_update.
  - now apply placed_Projectile_update.
  - now apply placed_Enemy_update.
  - exact Hw.
Qed.

Lemma placed_update_entities (delta_time : Q) (w : world) :
  all_placed w -> all_placed (update_entities delta_time w).
Proof.
  unfold update_entities. generalize (entities w) as l. intro l. revert w.
  induction l as [|i l IH]; intros w Hw; simpl; [exact Hw|].
  apply IH. now apply placed_entity_update.
Qed.

Lemma placed_pollController (w : world) :
  all_placed w -> all_placed (pollController w).
Proof.
  intro Hw. unfold pollController.
  destruct (the_player w) as [[[pid pb] pp]|] eqn:Hp; [|exact Hw].
  destruct (the_player_inv _ _ _ _ Hp) as [_ Hpo].
  apply placed_write; [exact Hw|]. exact (Hw pid _ Hpo).
Qed.

Lemma placed_flush_one (w : world) (i : nat) :
  all_placed w -> all_placed (flush_one w i).
Proof.
  intro Hw. unfold flush_one.
  destruct (the_player w) as [[[pid pb] pp]|] eqn:Hp; [|exact Hw].
  destruct (the_player_inv _ _ _ _ Hp) as [_ Hpo].
  unfold all_placed. globals. apply placed_store; [exact Hw|].
  exact (Hw pid _ Hpo).
Qed.

Lemma placed_flush (w : world) : all_placed w -> all_placed (flush w).
Proof.
  unfold flush. generalize (queued_entities_for_removal w) as q. intro q.
  revert w. induction q as [|i q IH]; intros w Hw; simpl; [exact Hw|].
  apply (IH (flush_one w i)). now apply placed_flush_one.
Qed.

Lemma placed_same_heap (w w' : world) :
  heap w' = heap w -> all_placed w -> all_placed w'.
Proof. unfold all_placed. intros ->. auto. Qed.

Lemma placed_start (w : world) : all_placed w -> all_placed (start w).
Proof.
  intro Hw. unfold start. cbv zeta. apply placed_new_Enemy.
  eapply placed_same_heap; [reflexivity|]. apply placed_new_Player.
  eapply placed_same_heap; [|exact Hw]. reflexivity.
Qed.

Lemma placed_update (delta_time : Q) (w : world) :
  all_placed w -> all_placed (update delta_time w).
Proof.
  intro Hw. unfold update.
  assert (H3 : all_placed (flush (update_entities delta_time (pollController w)))).
  { apply placed_flush, placed_update_entities, placed_pollController, Hw. }
  set (w3 := flush (update_entities delta_time (pollController w))) in *.
  assert (H4 : all_placed (match enemy_spawner w3 with
                           | Some s => entity_update s delta_time w3
                           | None => w3
                           end)).
  { destruct (enemy_spawner w3); [now apply placed_entity_update | exact H3]. }
  destruct (player_dead_and_action _); [now apply placed_start | exact H4].
Qed.

Lemma lookup_dispatch_key (ev : key_event) (k : nat) (h : list (nat * entity)) :
  lookup k
    (map (fun ke : nat * entity =>
            match ke with
            | (j, Player b p) =>
                (j, Player b (set_raw_input (apply_key ev (raw_input p)) p))
            | _ => ke
            end) h)
  = match lookup k h with
    | Some (Player b p) =>
        Some (Player b (set_raw_input (apply_key ev (raw_input p)) p))
    | o => o
    end.
Proof.
  induction h as [|[j e] h IH]; simpl; [reflexivity|].
  destruct e as [b p|b s pr|b s]; simpl; destruct (Nat.eqb k j); auto.
Qed.

Lemma placed_dispatch_key (ev : key_event) (w : world) :
  all_placed w -> all_placed (dispatch_key ev w).
Proof.
  intros Hw k e. unfold dispatch_key. globals. rewrite lookup_dispatch_key.
  destruct (lookup k (heap w)) as [[b p|b s pr|b s]|] eqn:Hl;
    intro He; inversion He; subst; exact (Hw k _ Hl).
Qed.

Lemma placed_loop_body (c : Q) (w : world) :
  all_placed w -> all_placed (fst (loop_body c w)).
Proof.
  intro Hw. eapply placed_same_heap; [reflexivity|]. apply placed_update. exact Hw.
Qed.

Lemma placed_page_load (rnd : nat -> Q) : all_placed (page_load rnd).
Proof.
  apply placed_start. intros k e Hl. discriminate.
Qed.

(** C8, as claimed, fails for enemies.  In the run [idle_frames] the player
    spawns enemy 2 on step 20; the entity pass of that step does not update
    it, so after the step it is registered and sits at (180, -50), above
    the box [0,410] x [0,550]. *)
Lemma C8_new_enemy_above_the_box :
  let w := nth 19 (history idle_frames (page_load four_hits_random))
               (declared no_random) in
  in_registry 2 w = true
  /\ option_map place (lookup 2 (heap w))
     = Some (mkpoint (Num.of_Z 180) (Num.of_Z (-50)))
  /\ option_map is_Enemy (lookup 2 (heap w)) = Some true
  /\ option_map (fun e => in_box 410 550 (place e)) (lookup 2 (heap w))
     = Some false.
Proof.
  vm_compute. repeat split; reflexivity.
Qed.

(** C8, amended.  In every run from page load, after every completed update
    step the player's position lies within [0,360] x [0,500], so does the
    position of every projectile, and every enemy lies within
    [0,410] x [0,550] or is still where its constructor put it, at
    [y = -50] (it is clipped into the box by its first update, on the step
    after the one that constructed it).  This holds for every object on the
    heap, registered or not, and whatever [Math.random] returns. *)
Theorem C8_positions_stay_in_bounds (rnd : nat -> Q) (fs : list frame) :
  exists (w : world) (evs : list event),
    run fs (page_load rnd) = Some (w, evs)
    /\ Forall (fun w' : world =>
                 forall k e, lookup k (heap w') = Some e ->
                   match e with
                   | Player b _ => in_box 360 500 (position b) = true
                   | Projectile _ _ pr => in_box 360 500 pr = true
                   | Enemy b _ => in_box 410 550 (position b) = true
                                  \/ y (position b) = Num.of_Z (-50)
                   end)
              (states evs).
Proof.
  destruct (run_total fs (page_load rnd) (clock_ok_page_load rnd))
    as (w & ws & Hrun & _).
  exists w, (step_events ws). split; [exact Hrun|].
  apply (run_invariant all_placed all_placed
           placed_dispatch_key
           (fun c w0 H => placed_same_heap w0 (loop_prologue c w0) eq_refl H)
           (fun w0 H => placed_update config_update_rate_seconds w0 H)
           placed_loop_body fs _ _ _ (placed_page_load rnd) Hrun).
Qed.

(** ** The spawner of the first session (C9) *)

Lemma first_session_player (w : world) :
  first_session w -> exists pb pp, the_player w = Some (0%nat, pb, pp).
Proof.
  intros (Hp & _ & _ & (b & p & Hl) & _). exists b, p.
  now apply the_player_intro.
Qed.

Lemma first_session_advances (w w' : world) :
  first_session w -> advances w w' -> first_session w'.
Proof.
  intros (Hp & Hs & Hr & (b & p & H0) & (eb & es & H1)) A.
  destruct A as [P S M R H K N Qe].
  repeat split; try congruence; try lia.
  - destruct (H 0%nat _ ltac:(lia) H0) as ([b' p'| |] & Hl & Hev);
      simpl in Hev; try contradiction. eauto.
  - destruct (H 1%nat _ ltac:(lia) H1) as ([| |b' s'] & Hl & Hev);
      simpl in Hev; try contradiction. eauto.
Qed.

Lemma first_session_write_player (w : world) (b : body) (p : player_data) :
  first_session w -> first_session (write 0 (Player b p) w).
Proof.
  intros (Hp & Hs & Hr & _ & (eb & es & H1)).
  repeat split; globals; auto.
  - exists b, p. apply lookup_store_same.
  - exists eb, es. rewrite lookup_store_other by discriminate. exact H1.
Qed.

Lemma first_session_pollController (w : world) :
  first_session w -> first_session (pollController w).
Proof.
  intro F. destruct (first_session_player w F) as (pb & pp & Hp).
  unfold pollController. rewrite Hp. now apply first_session_write_player.
Qed.

Lemma first_session_flush_one (w : world) (i : nat) :
  first_session w -> first_session (flush_one w i).
Proof.
  intro F. destruct (first_session_player w F) as (pb & pp & Hp).
  unfold flush_one. rewrite Hp.
  pose proof (first_session_write_player w pb
                (set_projectiles (splice1 i (projectiles pp))
                   (set_enemies (splice1 i (enemies pp)) pp)) F) as F'.
  destruct F' as (H1 & H2 & H3 & H4 & H5). repeat split; assumption.
Qed.

Lemma first_session_flush (w : world) : first_session w -> first_session (flush w).
Proof.
  intro F. unfold flush.
  assert (H : first_session (fold_left flush_one (queued_entities_for_removal w) w)).
  { generalize (queued_entities_for_removal w) as q. intro q. revert w F.
    induction q as [|i q IH]; intros w F; simpl; [exact F|].
    apply IH. now apply first_session_flush_one. }
  destruct H as (H1 & H2 & H3 & H4 & H5). repeat split; assumption.
Qed.

(** Updating the spawner pushes its id 1. *)
Lemma spawner_update_eq (delta_time : Q) (w : world) :
  first_session w ->
  exists b spd pb pp,
    lookup 1 (heap w) = Some (Enemy b spd)
    /\ the_player w = Some (0%nat, pb, pp)
    /\ entity_update 1 delta_time w
       = set_queued_entities_for_removal
           (queued_entities_for_removal w
            ++ enemy_removals 1 (health pb)
                 (enemy_move spd (position pb) (position b))
                 (projectiles pp) (position pb))
           (set_heap
              (store 1
                 (Enemy (set_position
                           (enemy_place delta_time
                              (enemy_move spd (position pb) (position b))
                              (velocity b)) b) spd)
                 (store 0
                    (if near 10 (enemy_move spd (position pb) (position b))
                               (position pb)
                     then Player (set_health (health pb - 25) pb)
                                 (set_hit 100
                                    (set_enemies
                                       (arr_set 1 (position b) (enemies pp)) pp))
                     else Player pb
                            (set_enemies (arr_set 1 (position b) (enemies pp)) pp))
                    (heap w)))
              w).
Proof.
  intro F. destruct (first_session_player w F) as (pb & pp & Hp).
  destruct F as (_ & _ & _ & _ & (b & spd & H1)).
  exists b, spd, pb, pp. split; [exact H1|]. split; [exact Hp|].
  unfold entity_update. rewrite H1.
  apply (Enemy_update_eq _ _ _ _ _ _ _ _ H1 Hp).
Qed.

Lemma enemy_removals_head (hp : Z) (pos1 ppos : point)
    (stored : list (option point)) :
  exists l, enemy_removals 1 hp pos1 stored ppos = 1%nat :: l.
Proof.
  unfold enemy_removals. simpl (Nat.eqb 1 1).
  destruct (hp =? 0); simpl; eauto.
Qed.

Lemma pass_queues_spawner (delta_time : Q) (l : list nat) :
  forall w, first_session w -> In 1%nat l ->
    In 1%nat (queued_entities_for_removal
                (fold_left (fun w0 i => entity_update i delta_time w0) l w)).
Proof.
  induction l as [|i l IH]; intros w F Hin; simpl; [inversion Hin|].
  pose proof (advances_entity_update i delta_time w) as A.
  pose proof (first_session_advances _ _ F A) as F'.
  destruct Hin as [->|Hin].
  - destruct (advances_fold delta_time l (entity_update 1 delta_time w))
      as [_ _ _ _ _ _ _ [l' Hq]].
    rewrite Hq. apply in_or_app. left.
    destruct (spawner_update_eq delta_time w F)
      as (b & spd & pb & pp & _ & _ & Heq).
    rewrite Heq. globals. apply in_or_app. right.
    destruct (enemy_removals_head (health pb)
                (enemy_move spd (position pb) (position b)) (position pb)
                (projectiles pp)) as [l0 ->]. now left.
  - apply IH; assumption.
Qed.

Lemma pollController_globals (w : world) :
  player (pollController w) = player w
  /\ running_id (pollController w) = running_id w
  /\ entities (pollController w) = entities w
  /\ queued_entities_for_removal (pollController w)
     = queued_entities_for_removal w.
Proof.
  unfold pollController. destruct (the_player w) as [[[pid pb] pp]|];
    repeat split; reflexivity.
Qed.

Lemma flush_one_globals (w : world) (i : nat) :
  player (flush_one w i) = player w
  /\ running_id (flush_one w i) = running_id w
  /\ enemy_spawner (flush_one w i) = enemy_spawner w.
Proof.
  unfold flush_one. destruct (the_player w) as [[[pid pb] pp]|];
    repeat split; reflexivity.
Qed.

Lemma flush_globals (w : world) :
  player (flush w) = player w
  /\ running_id (flush w) = running_id w
  /\ enemy_spawner (flush w) = enemy_spawner w
  /\ queued_entities_for_removal (flush w) = [].
Proof.
  unfold flush. globals.
  generalize (queued_entities_for_removal w) as q. intro q. revert w.
  induction q as [|i q IH]; intro w; simpl; [repeat split; reflexivity|].
  destruct (IH (flush_one w i)) as (H1 & H2 & H3 & H4).
  destruct (flush_one_globals w i) as (G1 & G2 & G3).
  repeat split; congruence.
Qed.

Lemma start_globals (w : world) :
  player (start w) = Some (running_id w)
  /\ running_id (start w) = S (S (running_id w)).
Proof. unfold start, new_Enemy, new_Player. globals. split; reflexivity. Qed.

Lemma update_restarted (delta_time : Q) (w : world) :
  restarted w -> restarted (update delta_time w).
Proof.
  intros [Hp Hr]. unfold update.
  destruct (pollController_globals w) as (P1 & R1 & _ & _).
  pose proof (advances_update_entities delta_time (pollController w)) as A2.
  set (w2 := update_entities delta_time (pollController w)) in *.
  destruct (flush_globals w2) as (P3 & R3 & _ & _).
  set (w3 := flush w2) in *.
  set (w4 := match enemy_spawner w3 with
             | Some s => entity_update s delta_time w3
             | None => w3
             end).
  assert (A4 : advances w3 w4).
  { unfold w4. destruct (enemy_spawner w3);
      [apply advances_entity_update | apply advances_refl]. }
  assert (P4 : player w4 = player w).
  { rewrite (adv_player _ _ A4), P3, (adv_player _ _ A2). exact P1. }
  assert (R4 : (2 <= running_id w4)%nat).
  { pose proof (adv_running_id _ _ A4). pose proof (adv_running_id _ _ A2).
    lia. }
  destruct (player_dead_and_action w4).
  - destruct (start_globals w4) as [Ps Rs]. split.
    + rewrite Ps. intro H. inversion H. lia.
    + lia.
  - split; [congruence | exact R4].
Qed.

Lemma update_first_session (delta_time : Q) (w : world) :
  first_session w ->
  (first_session (update delta_time w) /\ ghost_spawner (update delta_time w))
  \/ restarted (update delta_time w).
Proof.
  intro F. unfold update.
  pose proof (first_session_pollController w F) as F1.
  destruct (pollController_globals w) as (_ & _ & E1 & _).
  pose proof (advances_update_entities delta_time (pollController w)) as A2.
  pose proof (first_session_advances _ _ F1 A2) as F2.
  assert (G2 : In 1%nat (entities (update_entities delta_time (pollController w)))
               -> In 1%nat (queued_entities_for_removal
                              (update_entities delta_time (pollController w)))).
  { intro Hin. destruct (adv_new _ _ A2 _ Hin) as [H|H].
    - exact (pass_queues_spawner delta_time (entities (pollController w))
               (pollController w) F1 H).
    - destruct F1 as (_ & _ & Hr & _). lia. }
  set (w2 := update_entities delta_time (pollController w)) in *.
  pose proof (first_session_flush w2 F2) as F3.
  assert (N3 : ~ In 1%nat (entities (flush w2))).
  { rewrite flush_registry. tauto. }
  destruct (flush_globals w2) as (_ & _ & _ & Q3).
  set (w3 := flush w2) in *.
  assert (S3 : enemy_spawner w3 = Some 1%nat) by (destruct F3 as (_ & H & _); exact H).
  rewrite S3.
  pose proof (advances_entity_update 1 delta_time w3) as A4.
  pose proof (first_session_advances _ _ F3 A4) as F4.
  assert (G4 : ghost_spawner (entity_update 1 delta_time w3)).
  { destruct (spawner_update_eq delta_time w3 F3)
      as (b & spd & pb & pp & H1 & Hp & Heq).
    destruct (the_player_inv _ _ _ _ Hp) as [Hpl Hpo].
    rewrite Heq. unfold ghost_spawner. globals. split; [exact N3|]. split.
    - rewrite Q3. simpl. apply enemy_removals_head.
    - unfold player_enemies, the_player. globals. rewrite Hpl.
      rewrite lookup_store_other by discriminate. rewrite lookup_store_same.
      pose proof (length_arr_set 1 (position b) (enemies pp)) as [_ Hlen].
      destruct (near 10 _ (position pb)); cbn [enemies set_hit set_enemies]; lia. }
  set (w4 := entity_update 1 delta_time w3) in *.
  destruct (player_dead_and_action w4).
  - right. destruct (start_globals w4) as [Ps Rs].
    destruct F4 as (_ & _ & Hr & _). split.
    + rewrite Ps. intro H. inversion H. lia.
    + lia.
  - left. split; assumption.
Qed.

Lemma first_session_same (w w' : world) :
  player w' = player w -> enemy_spawner w' = enemy_spawner w ->
  running_id w' = running_id w -> heap w' = heap w ->
  first_session w -> first_session w'.
Proof.
  unfold first_session. intros -> -> -> ->. auto.
Qed.

Lemma ghost_spawner_same (w w' : world) :
  player w' = player w -> entities w' = entities w ->
  queued_entities_for_removal w' = queued_entities_for_removal w ->
  heap w' = heap w ->
  ghost_spawner w -> ghost_spawner w'.
Proof.
  unfold ghost_spawner, player_enemies, the_player. intros -> -> -> ->. auto.
Qed.

Lemma first_session_dispatch_key (ev : key_event) (w : world) :
  first_session w -> first_session (dispatch_key ev w).
Proof.
  intros (Hp & Hs & Hr & (b & p & H0) & (eb & es & H1)).
  unfold dispatch_key. repeat split; globals; auto.
  - rewrite lookup_dispatch_key, H0. eauto.
  - rewrite lookup_dispatch_key, H1. eauto.
Qed.

Lemma player_enemies_dispatch_key (ev : key_event) (w : world) :
  player_enemies (dispatch_key ev w) = player_enemies w.
Proof.
  unfold player_enemies, the_player, dispatch_key. globals.
  destruct (player w) as [pid|]; [|reflexivity].
  rewrite lookup_dispatch_key.
  destruct (lookup pid (heap w)) as [[b p|b s pr|b s]|]; reflexivity.
Qed.

Lemma ghost_spawner_dispatch_key (ev : key_event) (w : world) :
  ghost_spawner w -> ghost_spawner (dispatch_key ev w).
Proof.
  intros (H1 & H2 & H3). unfold ghost_spawner.
  rewrite player_enemies_dispatch_key. auto.
Qed.

Lemma session_dispatch_key (ev : key_event) (w : world) :
  first_session w \/ restarted w ->
  first_session (dispatch_key ev w) \/ restarted (dispatch_key ev w).
Proof.
  intros [F|R]; [left; now apply first_session_dispatch_key | right; exact R].
Qed.

Lemma session_loop_prologue (c : Q) (w : world) :
  first_session w \/ restarted w ->
  first_session (loop_prologue c w) \/ restarted (loop_prologue c w).
Proof. intros [F|R]; [left | right]; assumption. Qed.

Lemma session_update (w : world) :
  first_session w \/ restarted w ->
  player (update config_update_rate_seconds w) = Some 0%nat ->
  first_session (update config_update_rate_seconds w)
  /\ ghost_spawner (update config_update_rate_seconds w).
Proof.
  intros [F|R] Hp.
  - destruct (update_first_session config_update_rate_seconds w F) as [H|[H _]];
      [exact H | contradiction].
  - destruct (update_restarted config_update_rate_seconds w R) as [H _].
    contradiction.
Qed.

Lemma session_loop_body (c : Q) (w : world) :
  first_session w \/ restarted w ->
  first_session (fst (loop_body c w)) \/ restarted (fst (loop_body c w)).
Proof.
  intros [F|R].
  - destruct (update_first_session config_update_rate_seconds w F) as [[H _]|H].
    + left. eapply first_session_same; [| | | |exact H]; reflexivity.
    + right. exact H.
  - right. exact (update_restarted config_update_rate_seconds w R).
Qed.

Lemma first_session_page_load (rnd : nat -> Q) : first_session (page_load rnd).
Proof.
  unfold first_session, page_load, start, new_Enemy, new_Player. globals.
  repeat split; try reflexivity; try lia; simpl; eauto.
Qed.

(** What a step of the first session does with the spawner. *)
Lemma ghost_spawner_step (delta_time : Q) (w : world) :
  first_session w -> ghost_spawner w ->
  let w2 := update_entities delta_time (pollController w) in
  let w3 := flush w2 in
  let w4 := entity_update 1 delta_time w3 in
  (exists l, queued_entities_for_removal w2 = 1%nat :: l
             /\ w3 = set_queued_entities_for_removal []
                       (fold_left flush_one l (flush_one w2 1)))
  /\ ~ In 1%nat (entities w2)
  /\ entities (flush_one w2 1) = entities w2
  /\ player_enemies (flush_one w2 1) = splice1 1 (player_enemies w2)
  /\ S (length (splice1 1 (player_enemies w2))) = length (player_enemies w2)
  /\ player_projectiles (flush_one w2 1) = splice1 1 (player_projectiles w2)
  /\ update delta_time w = (if player_dead_and_action w4 then start w4 else w4)
  /\ (exists l, queued_entities_for_removal w4 = 1%nat :: l).
Proof.
  intros F (N & (l0 & Hq) & Hlen) w2 w3 w4.
  pose proof (first_session_pollController w F) as F1.
  destruct (pollController_globals w) as (_ & _ & E1 & Q1).
  pose proof (advances_update_entities delta_time (pollController w)) as A2.
  fold w2 in A2.
  pose proof (first_session_advances _ _ F1 A2) as F2.
  destruct (first_session_player _ F2) as (pb2 & pp2 & Hp2).
  assert (N2 : ~ In 1%nat (entities w2)).
  { intro Hin. destruct (adv_new _ _ A2 _ Hin) as [H|H].
    - rewrite E1 in H. contradiction.
    - destruct F1 as (_ & _ & Hr & _). lia. }
  assert (L2 : (2 <= length (player_enemies w2))%nat).
  { destruct (first_session_player _ F) as (pb & pp & Hp).
    unfold player_enemies in Hlen. rewrite Hp in Hlen.
    assert (Hp1 : lookup 0 (heap (pollController w))
                  = Some (Player pb (set_controller (poll (raw_input pp)) pp))).
    { unfold pollController. rewrite Hp. globals. apply lookup_store_same. }
    destruct F1 as (_ & _ & Hr & _).
    destruct (adv_heap _ _ A2 0%nat _ ltac:(lia) Hp1) as (e' & He' & Hev).
    destruct (the_player_inv _ _ _ _ Hp2) as [_ Hpo2].
    rewrite Hpo2 in He'. inversion He'. subst e'.
    destruct Hev as (_ & _ & _ & Hl & _).
    unfold player_enemies. rewrite Hp2. simpl in Hl. lia. }
  pose proof (first_session_flush w2 F2) as F3. fold w3 in F3.
  split.
  { destruct (adv_queue _ _ A2) as [l' Hq2]. rewrite Q1, Hq in Hq2.
    exists (l0 ++ l'). split; [exact Hq2|].
    unfold w3, flush. rewrite Hq2. reflexivity. }
  split; [exact N2|].
  split; [rewrite flush_one_entities; now apply reg_delete_absent|].
  pose proof (flush_one_player w2 1 _ _ _ Hp2) as Hf.
  split; [unfold player_enemies; rewrite Hf, Hp2; reflexivity|].
  split; [apply length_splice1; lia|].
  split; [unfold player_projectiles; rewrite Hf, Hp2; reflexivity|].
  split.
  { unfold update. fold w2. fold w3.
    destruct F3 as (_ & -> & _). reflexivity. }
  destruct (spawner_update_eq delta_time w3 F3)
    as (b & spd & pb & pp & _ & _ & Heq).
  unfold w4. rewrite Heq. globals.
  destruct (flush_globals w2) as (_ & _ & _ & Q3). fold w3 in Q3. rewrite Q3.
  apply enemy_removals_head.
Qed.

(** C9 fails on the code in a session opened by a restart.  In the run
    [restart_frames] the player dies in the first session (player 0,
    spawner 1) and the game restarts on step 151; the new player has id 10
    and the new spawner id 11, because [running_id] is never reset, so the
    test [this.id == 1] of [Enemy.update] does not see the spawner.  After
    the first step of that session (step 152) the spawner is still
    registered and nothing is queued, and so it is after the steps that
    follow. *)
Theorem C9_restarted_spawner_stays_registered :
  let ws := history restart_frames (page_load aimed_random) in
  option_map (fun w => (player w, enemy_spawner w, entities w,
                        player_enemyTimer w)) (nth_error ws 149)
  = Some (Some 0%nat, Some 1%nat, [0%nat; 8%nat], 150)
  /\ option_map (fun w => (player w, enemy_spawner w, entities w,
                           player_enemyTimer w,
                           queued_entities_for_removal w)) (nth_error ws 150)
     = Some (Some 10%nat, Some 11%nat, [10%nat; 11%nat], 0, [])
  /\ option_map (fun w => (player w, enemy_spawner w, entities w,
                           player_enemyTimer w,
                           queued_entities_for_removal w)) (nth_error ws 151)
     = Some (Some 10%nat, Some 11%nat, [10%nat; 11%nat], 1, [])
  /\ option_map (in_registry 11) (nth_error ws 151) = Some true
  /\ forallb (fun w => in_registry 11 w
                       && match queued_entities_for_removal w with
                          | [] => true
                          | _ => false
                          end)
             (firstn 65 (skipn 151 ws)) = true.
Proof.
  vm_compute. repeat split; reflexivity.
Qed.

(** In the first session after page load, where the player has id 0 and
    the spawner id 1, the spawner behaves as C9 says.  After every update
    step of that session the spawner is out of the registry, its id 1
    heads the removal queue and [player.enemies] has at least two slots.
    On the next step the entity pass keeps all that; the removal pass then
    starts with the entry 1: it deletes a key the registry does not have,
    calls [splice(1, 1)] on [player.enemies], which loses exactly one slot,
    and on [player.projectiles] (which loses one only if it has two); after
    the pass [update] calls [enemy_spawner.update], which pushes 1 on the
    emptied queue.  Key events and the bookkeeping of [loop] keep these
    facts. *)
Theorem first_session_spawner :
  (forall (rnd : nat -> Q) (fs : list frame),
      exists (w : world) (evs : list event),
        run fs (page_load rnd) = Some (w, evs)
        /\ Forall (fun w' : world =>
                     player w' = Some 0%nat ->
                     first_session w' /\ ghost_spawner w')
                  (states evs))
  /\ (forall (delta_time : Q) (w : world),
         first_session w -> ghost_spawner w ->
         let w2 := update_entities delta_time (pollController w) in
         let w3 := flush w2 in
         let w4 := entity_update 1 delta_time w3 in
         (exists l, queued_entities_for_removal w2 = 1%nat :: l
                    /\ w3 = set_queued_entities_for_removal []
                              (fold_left flush_one l (flush_one w2 1)))
         /\ ~ In 1%nat (entities w2)
         /\ entities (flush_one w2 1) = entities w2
         /\ player_enemies (flush_one w2 1) = splice1 1 (player_enemies w2)
         /\ S (length (splice1 1 (player_enemies w2)))
            = length (player_enemies w2)
         /\ player_projectiles (flush_one w2 1)
            = splice1 1 (player_projectiles w2)
         /\ update delta_time w
            = (if player_dead_and_action w4 then start w4 else w4)
         /\ (exists l, queued_entities_for_removal w4 = 1%nat :: l))
  /\ (forall (ev : key_event) (c : Q) (w : world),
         first_session w /\ ghost_spawner w ->
         (first_session (dispatch_key ev w) /\ ghost_spawner (dispatch_key ev w))
         /\ (first_session (loop_prologue c w)
             /\ ghost_spawner (loop_prologue c w)))
  /\ (forall (c : Q) (w : world),
         first_session (update config_update_rate_seconds w)
         /\ ghost_spawner (update config_update_rate_seconds w) ->
         first_session (fst (loop_body c w))
         /\ ghost_spawner (fst (loop_body c w))).
Proof.
  split; [|split; [|split]].
  - intros rnd fs.
    destruct (run_total fs (page_load rnd) (clock_ok_page_load rnd))
    as (w & ws & Hrun & _).
    exists w, (step_events ws). split; [exact Hrun|].
    apply (run_invariant
             (fun w0 => first_session w0 \/ restarted w0)
             (fun w0 => player w0 = Some 0%nat ->
                        first_session w0 /\ ghost_spawner w0)
             session_dispatch_key session_loop_prologue session_update
             session_loop_body fs _ _ _
             (or_introl (first_session_page_load rnd)) Hrun).
  - intros delta_time w F G. exact (ghost_spawner_step delta_time w F G).
  - intros ev c w [F G]. split; split.
    + now apply first_session_dispatch_key.
    + now apply ghost_spawner_dispatch_key.
    + exact F.
    + exact G.
  - intros c w [F G]. split.
    + eapply first_session_same; [| | | |exact F]; reflexivity.
    + eapply ghost_spawner_same; [| | | |exact G]; reflexivity.
Qed.

(** ** Deferred removal (C2) *)

(** The entity pass never takes an id out of the registry. *)
Lemma entity_pass_keeps_registry (delta_time : Q) (w : world) (i : nat) :
  In i (entities w) -> In i (entities (update_entities delta_time w)).
Proof. apply (adv_kept _ _ (advances_update_entities delta_time w)). Qed.

(** The removal pass takes out every id that is queued when it runs. *)
Lemma flush_removes_queued (w : world) (i : nat) :
  In i (queued_entities_for_removal w) -> ~ In i (entities (flush w)).
Proof. rewrite flush_registry. tauto. Qed.

(** C2 fails on the code, in a session opened by a restart.  In the run
    [restart_frames] the spawner of the second session has id 11 and is
    registered, so each step updates it twice: in the entity pass and again
    after the removal pass.  On step 217 the second of these calls touches
    the player and pushes 11 on the queue the removal pass has just
    emptied.  The id was queued during step 217, and at the start of step
    218 it is still in the registry. *)
Theorem C2_queued_after_the_removal_pass :
  let ws := history restart_frames (page_load aimed_random) in
  length ws = 217%nat
  /\ option_map (fun w => (queued_entities_for_removal w, in_registry 11 w,
                           enemy_spawner w, player_health w))
                (nth_error ws 215)
     = Some ([], true, Some 11%nat, 100)
  /\ option_map (fun w => (queued_entities_for_removal w, in_registry 11 w,
                           enemy_spawner w, player_health w))
                (nth_error ws 216)
     = Some ([11%nat], true, Some 11%nat, 75).
Proof.
  vm_compute. repeat split; reflexivity.
Qed.

(** ** The dead player (C7, C10) *)

Lemma advances_player (w w' : world) (pid : nat) (pb : body) (pp : player_data) :
  advances w w' -> the_player w = Some (pid, pb, pp) ->
  (pid < running_id w)%nat ->
  exists pb' pp',
    the_player w' = Some (pid, pb', pp')
    /\ health pb' <= health pb
    /\ controller pp' = controller pp
    /\ raw_input pp' = raw_input pp.
Proof.
  intros A Hp Hlt. destruct (the_player_inv _ _ _ _ Hp) as [Hpl Hpo].
  destruct (adv_heap _ _ A pid _ Hlt Hpo) as ([b' p'| |] & Hl & Hev);
    simpl in Hev; try contradiction.
  destruct Hev as (H1 & H2 & H3 & _).
  exists b', p'. split; [|auto].
  apply the_player_intro; [|exact Hl]. rewrite (adv_player _ _ A). exact Hpl.
Qed.

Lemma flush_player (w : world) (pid : nat) (pb : body) (pp : player_data) :
  the_player w = Some (pid, pb, pp) ->
  exists pp',
    the_player (flush w) = Some (pid, pb, pp')
    /\ controller pp' = controller pp
    /\ raw_input pp' = raw_input pp.
Proof.
  intro Hp. unfold flush.
  change (the_player
            (set_queued_entities_for_removal []
               (fold_left flush_one (queued_entities_for_removal w) w)))
    with (the_player (fold_left flush_one (queued_entities_for_removal w) w)).
  generalize (queued_entities_for_removal w) as q. intro q.
  revert w pp Hp. induction q as [|i q IH]; intros w pp Hp; simpl.
  - exists pp. auto.
  - destruct (IH _ _ (flush_one_player w i _ _ _ Hp)) as (pp' & H1 & H2 & H3).
    exists pp'. auto.
Qed.

(** After polling, the entity pass, the removal pass and the spawner's
    update the player is the same object, has the controller state that
    was polled and has not gained health. *)
Lemma update_keeps_player (delta_time : Q) (w : world)
    (pid : nat) (pb : body) (pp : player_data) :
  the_player w = Some (pid, pb, pp) ->
  heap_fresh w = true ->
  let w3 := flush (update_entities delta_time (pollController w)) in
  let w4 := match enemy_spawner w3 with
            | Some s => entity_update s delta_time w3
            | None => w3
            end in
  exists pb4 pp4,
    the_player w4 = Some (pid, pb4, pp4)
    /\ health pb4 <= health pb
    /\ controller pp4 = poll (raw_input pp).
Proof.
  intros Hp Hf w3 w4.
  destruct (the_player_inv _ _ _ _ Hp) as [Hpl Hpo].
  pose proof (lookup_below _ _ _ Hf Hpo) as Hlt.
  assert (Hp1 : the_player (pollController w)
                = Some (pid, pb, set_controller (poll (raw_input pp)) pp)).
  { unfold pollController. rewrite Hp. apply the_player_intro; globals.
    - exact Hpl.
    - apply lookup_store_same. }
  destruct (pollController_globals w) as (_ & R1 & _ & _).
  pose proof (advances_update_entities delta_time (pollController w)) as A2.
  destruct (advances_player _ _ _ _ _ A2 Hp1 ltac:(lia))
    as (pb2 & pp2 & Hp2 & Hh2 & Hc2 & _).
  destruct (flush_player _ _ _ _ Hp2) as (pp3 & Hp3 & Hc3 & _).
  fold w3 in Hp3.
  assert (R3 : (pid < running_id w3)%nat).
  { unfold w3. destruct (flush_globals
                           (update_entities delta_time (pollController w)))
      as (_ & -> & _). pose proof (adv_running_id _ _ A2). lia. }
  assert (A4 : advances w3 w4).
  { unfold w4. destruct (enemy_spawner w3);
      [apply advances_entity_update | apply advances_refl]. }
  destruct (advances_player _ _ _ _ _ A4 Hp3 R3)
    as (pb4 & pp4 & Hp4 & Hh4 & Hc4 & _).
  exists pb4, pp4. split; [exact Hp4|]. split; [lia|].
  rewrite Hc4, Hc3, Hc2. reflexivity.
Qed.

Lemma Player_update_spawns (pid : nat) (delta_time : Q) (w : world)
    (b : body) (p : player_data) :
  lookup pid (heap w) = Some (Player b p) ->
  heap_fresh w = true ->
  Z.rem (enemyTimer p + 1) 20 = 0 ->
  let w' := Player_update pid delta_time w in
  enemyCount w' = enemyCount w + 1
  /\ In (running_id w) (entities w')
  /\ option_map is_Enemy (lookup (running_id w) (heap w')) = Some true.
Proof.
  intros Hl Hf Ht w'.
  pose proof (lookup_below _ _ _ Hf Hl) as Hlt.
  destruct (Player_update_globals pid delta_time w b p Hl)
    as (_ & _ & _ & _ & _ & _ & Hc).
  split; [unfold w'; rewrite Hc, Ht; reflexivity|].
  unfold w'. rewrite (Player_update_eq _ _ _ _ _ Hl). cbv zeta.
  rewrite Ht. change (0 =? 0) with true. cbv iota.
  set (w1 := new_Enemy (set_enemyCount (enemyCount w + 1) w)).
  assert (E1 : In (running_id w) (entities w1)).
  { unfold w1, new_Enemy. globals. apply in_reg_insert. now left. }
  assert (L1 : option_map is_Enemy (lookup (running_id w) (heap w1)) = Some true).
  { unfold w1, new_Enemy. globals. rewrite lookup_store_same. reflexivity. }
  assert (R1 : running_id w1 = S (running_id w)) by reflexivity.
  globals. rewrite lookup_store_other by lia.
  destruct (fires p w).
  - split.
    + apply (adv_kept _ _ (advances_new_Projectile
                             (set_projShotTime (masterTime w) w1))). exact E1.
    + rewrite new_Projectile_lookup; [exact L1 | globals; lia].
  - split; assumption.
Qed.

(** C7, as claimed, fails.  In the run [idle_frames] the player's health
    reaches 0 on step 212 and stays 0.  On step 220 the dead player spawns
    enemy 12 and increments [enemyCount] from 10 to 11; the enemy is
    registered and drawn under the game-over text.  It queues itself on
    step 221, its first update, and is out of the registry after it. *)
Lemma C7_dead_player_still_spawns :
  let ws := history idle_frames (page_load four_hits_random) in
  length ws = 246%nat
  /\ option_map player_health (nth_error ws 210) = Some 25
  /\ forallb (fun w => player_health w =? 0) (skipn 211 ws) = true
  /\ option_map (fun w => (player_health w, enemyCount w, entities w, player w))
                (nth_error ws 218)
     = Some (0, 10, [0%nat], Some 0%nat)
  /\ option_map (fun w => (player_health w, enemyCount w, entities w, player w,
                           option_map is_Enemy (lookup 12 (heap w)),
                           game_over (draw w), length (drawn (draw w))))
                (nth_error ws 219)
     = Some (0, 11, [0%nat; 12%nat], Some 0%nat, Some true, true, 2%nat)
  /\ option_map (fun w => (player_health w, enemyCount w, entities w))
                (nth_error ws 220)
     = Some (0, 11, [0%nat]).
Proof.
  vm_compute. repeat split; reflexivity.
Qed.

(** C7, amended.  Once the player's health is 0 the game-over screen is
    drawn and the HUD shows 0 for time alive, enemy count and total score.
    The score no longer grows with time: [loop] sets [timeAliveCount] to
    [prevAliveCount], so [currerntHighScore] is
    [floor (30 * enemiesHit + prevAliveCount)] whatever the time stamp.
    The simulation keeps running: every step still polls the input; as
    long as space is not down the step ends with the same, dead player,
    and a step on which space is down ends with [start()].  Spawning is
    not suppressed: [Player.update] still constructs an enemy and
    increments [enemyCount] on every 20th tick.  Every enemy and every
    projectile that is updated while the health is 0 queues itself for
    removal. *)
Theorem C7_dead_player
    (delta_time : Q) (w : world) (pid : nat) (pb : body) (pp : player_data) :
  the_player w = Some (pid, pb, pp) ->
  health pb = 0 ->
  heap_fresh w = true ->
  game_over (draw w) = true
  /\ hud_time_alive (show_hud w) = 0
  /\ hud_enemy_count (show_hud w) = 0
  /\ hud_total_score (show_hud w) = 0
  /\ (forall curr_time : Q,
         timeAliveCount (loop_prologue curr_time w) = prevAliveCount w
         /\ currerntHighScore (loop_prologue curr_time w)
            = Qfloor (Double.add (Double.mul 30 (inject_Z (enemiesHit w)))
                                 (prevAliveCount w)))
  /\ (Z.rem (enemyTimer pp + 1) 20 = 0 ->
      let w' := Player_update pid delta_time w in
      enemyCount w' = enemyCount w + 1
      /\ In (running_id w) (entities w')
      /\ option_map is_Enemy (lookup (running_id w) (heap w')) = Some true)
  /\ (forall eid b spd,
         lookup eid (heap w) = Some (Enemy b spd) ->
         exists l, queued_entities_for_removal (Enemy_update eid delta_time w)
                   = queued_entities_for_removal w ++ eid :: l)
  /\ (forall i b spd pr,
         lookup i (heap w) = Some (Projectile b spd pr) ->
         exists l, queued_entities_for_removal (Projectile_update i delta_time w)
                   = queued_entities_for_removal w ++ i :: l)
  /\ (held 32 (raw_input pp) = false ->
      player (update delta_time w) = player w
      /\ player_health (update delta_time w) <= 0)
  /\ (held 32 (raw_input pp) = true ->
      exists w4, update delta_time w = start w4).
Proof.
  intros Hp Hh Hf.
  destruct (the_player_inv _ _ _ _ Hp) as [Hpl Hpo].
  assert (Hdead : (health pb >? 0) = false) by (rewrite Hh; reflexivity).
  assert (Hzero : player_health w = 0) by (unfold player_health; now rewrite Hp).
  split; [unfold draw; rewrite Hp; apply Z.leb_le; lia|].
  unfold show_hud. rewrite Hzero. cbn [hud_time_alive hud_enemy_count
    hud_total_score]. change (0 >? 0) with false. cbv iota.
  split; [reflexivity|]. split; [reflexivity|]. split; [reflexivity|].
  split.
  { intro c. unfold loop_prologue. cbn [timeAliveCount currerntHighScore].
    rewrite Hzero. split; reflexivity. }
  split; [intro Ht; exact (Player_update_spawns _ _ _ _ _ Hpo Hf Ht)|].
  split.
  { intros eid b spd Hl.
    rewrite (Enemy_update_eq _ _ _ _ _ _ _ _ Hl Hp). globals.
    unfold enemy_removals. rewrite Hh. change (0 =? 0) with true. cbv iota.
    eexists. reflexivity. }
  split.
  { intros i b spd pr Hl.
    rewrite (Projectile_update_eq _ _ _ _ _ _ _ _ _ Hl Hp). globals.
    unfold projectile_removals. rewrite Hh. change (0 =? 0) with true.
    cbv iota. eexists. reflexivity. }
  destruct (update_keeps_player delta_time w pid pb pp Hp Hf)
    as (pb4 & pp4 & Hp4 & Hh4 & Hc4).
  unfold update.
  set (w3 := flush (update_entities delta_time (pollController w))) in *.
  set (w4 := match enemy_spawner w3 with
             | Some s => entity_update s delta_time w3
             | None => w3
             end) in *.
  assert (P4 : player w4 = player w).
  { destruct (the_player_inv _ _ _ _ Hp4) as [H _]. congruence. }
  split; intro Hk.
  - assert (Hno : player_dead_and_action w4 = false).
    { unfold player_dead_and_action. rewrite Hp4, Hc4. cbn [action_1 poll].
      rewrite Hk. apply andb_false_r. }
    rewrite Hno. split; [exact P4|]. unfold player_health. rewrite Hp4. lia.
  - assert (Hyes : player_dead_and_action w4 = true).
    { unfold player_dead_and_action. rewrite Hp4, Hc4. cbn [action_1 poll].
      rewrite Hk, andb_true_r. apply Z.leb_le. lia. }
    rewrite Hyes. exists w4. reflexivity.
Qed.

Lemma C7_dead_player_witness :
  nth_error (history idle_frames (page_load four_hits_random)) 219
  = Some (update config_update_rate_seconds dead_world)
  /\ the_player dead_world = Some (0%nat, fst dead_player, snd dead_player)
  /\ health (fst dead_player) = 0
  /\ heap_fresh dead_world = true
  /\ Z.rem (enemyTimer (snd dead_player) + 1) 20 = 0
  /\ held 32 (raw_input (snd dead_player)) = false
  /\ game_over (draw dead_world) = true
  /\ enemyCount (Player_update 0 config_update_rate_seconds dead_world)
     = enemyCount dead_world + 1
  /\ player (update config_update_rate_seconds dead_world) = player dead_world
  /\ option_map (fun w => (player_health w, timeAliveCount w,
                           currerntHighScore w, masterHighScore w))
       (nth_error (history idle_frames (page_load four_hits_random)) 245)
     = Some (0, clock 4100, 4, 4)
  /\ option_map (fun w => (player_health w, timeAliveCount w,
                           currerntHighScore w, masterHighScore w))
       (nth_error (history dead_frames (page_load four_hits_random)) 246)
     = Some (0, 0%Q, 0, 4).
Proof.
  assert (H1 : the_player dead_world
               = Some (0%nat, fst dead_player, snd dead_player))
    by (vm_compute; reflexivity).
  assert (H2 : health (fst dead_player) = 0) by (vm_compute; reflexivity).
  assert (H3 : heap_fresh dead_world = true) by (vm_compute; reflexivity).
  assert (H4 : Z.rem (enemyTimer (snd dead_player) + 1) 20 = 0)
    by (vm_compute; reflexivity).
  assert (H5 : held 32 (raw_input (snd dead_player)) = false)
    by (vm_compute; reflexivity).
  pose proof (C7_dead_player config_update_rate_seconds dead_world 0
                (fst dead_player) (snd dead_player) H1 H2 H3)
    as (G1 & _ & _ & _ & _ & G6 & _ & _ & G9 & _).
  split; [vm_compute; reflexivity|]. split; [exact H1|]. split; [exact H2|]. split; [exact H3|].
  split; [exact H4|]. split; [exact H5|]. split; [exact G1|].
  split; [exact (proj1 (G6 H4))|]. split; [exact (proj1 (G9 H5))|].
  split; vm_compute; reflexivity.
Defined.

Lemma Enemy_update_hits_player (eid : nat) (delta_time : Q) (w : world)
    (b : body) (spd : num) (pid : nat) (pb : body) (pp : player_data) :
  lookup eid (heap w) = Some (Enemy b spd) ->
  the_player w = Some (pid, pb, pp) ->
  near 10 (enemy_move spd (position pb) (position b)) (position pb) = true ->
  player_health (Enemy_update eid delta_time w) = health pb - 25
  /\ entities (Enemy_update eid delta_time w) = entities w.
Proof.
  intros Hl Hp Hnear. destruct (the_player_inv _ _ _ _ Hp) as [Hpl Hpo].
  assert (Hne : eid <> pid) by (intro; subst; congruence).
  rewrite (Enemy_update_eq _ _ _ _ _ _ _ _ Hl Hp). rewrite Hnear.
  split; [|reflexivity].
  unfold player_health, the_player. globals. rewrite Hpl.
  rewrite lookup_store_other by exact Hne. rewrite lookup_store_same.
  reflexivity.
Qed.

Lemma entity_update_health (i : nat) (delta_time : Q) (w : world)
    (pid : nat) (pb : body) (pp : player_data) :
  the_player w = Some (pid, pb, pp) -> (pid < running_id w)%nat ->
  player_health (entity_update i delta_time w) <= health pb.
Proof.
  intros Hp Hlt.
  destruct (advances_player _ _ _ _ _ (advances_entity_update i delta_time w)
              Hp Hlt) as (pb' & pp' & Hp' & Hh & _).
  unfold player_health. rewrite Hp'. exact Hh.
Qed.

(** A health below 0 counts as dead but is not [== 0]. *)
Lemma negative_health_is_dead (pb : body) :
  health pb < 0 -> isDead pb = true /\ (health pb =? 0) = false.
Proof.
  intro Hh. unfold isDead. split; [apply Z.leb_le; lia | apply Z.eqb_neq; lia].
Qed.

(** With the player's health below 0 [Enemy.update] pushes nothing on
    account of the death, only for its other reasons. *)
Lemma Enemy_update_negative_health (eid : nat) (delta_time : Q) (w : world)
    (b : body) (spd : num) (pid : nat) (pb : body) (pp : player_data) :
  lookup eid (heap w) = Some (Enemy b spd) ->
  the_player w = Some (pid, pb, pp) ->
  health pb < 0 ->
  let pos1 := enemy_move spd (position pb) (position b) in
  queued_entities_for_removal (Enemy_update eid delta_time w)
  = queued_entities_for_removal w
    ++ (if Nat.eqb eid 1 then [eid] else [])
    ++ (if (y pos1 >? Num.of_Z 500)%num then [eid] else [])
    ++ repeat eid (length (filter (near 10 pos1) (present (projectiles pp))))
    ++ (if near 10 pos1 (position pb) then [eid] else []).
Proof.
  intros Hl Hp Hh pos1.
  rewrite (Enemy_update_eq _ _ _ _ _ _ _ _ Hl Hp). globals.
  unfold enemy_removals. fold pos1.
  replace (health pb =? 0) with false by (symmetry; apply Z.eqb_neq; lia).
  cbv iota. rewrite app_nil_l. reflexivity.
Qed.

(** So does [Projectile.update]. *)
Lemma Projectile_update_negative_health (i : nat) (delta_time : Q) (w : world)
    (b : body) (spd : num) (pr : point)
    (pid : nat) (pb : body) (pp : player_data) :
  lookup i (heap w) = Some (Projectile b spd pr) ->
  the_player w = Some (pid, pb, pp) ->
  health pb < 0 ->
  let pr1 := mkpoint (x pr) (y pr - spd)%num in
  queued_entities_for_removal (Projectile_update i delta_time w)
  = queued_entities_for_removal w
    ++ (if (y pr1 <? Num.of_Z 0)%num then [i] else [])
    ++ repeat i (length (filter (near 8 pr1) (present (enemies pp)))).
Proof.
  intros Hl Hp Hh pr1.
  rewrite (Projectile_update_eq _ _ _ _ _ _ _ _ _ Hl Hp). globals.
  unfold projectile_removals. fold pr1.
  replace (health pb =? 0) with false by (symmetry; apply Z.eqb_neq; lia).
  cbv iota. rewrite app_nil_l. reflexivity.
Qed.

(** In the run [overkill_frames] the spawner, which every step updates
    although it is out of the registry, touches the player on eight steps
    in a row and takes the health from 100 to -75, through 0.  The enemy
    spawned on step 140 is still registered at the end of the run, 45
    steps later. *)
Lemma overkill_enemies_persist :
  let ws := history overkill_frames (page_load aimed_random) in
  length ws = 185%nat
  /\ map player_health (firstn 9 (skipn 128 ws))
     = [100; 100; 75; 50; 25; 0; -25; -50; -75]
  /\ forallb (fun w => player_health w =? -75) (skipn 136 ws) = true
  /\ option_map (in_registry 8) (nth_error ws 138) = Some false
  /\ forallb (fun w => in_registry 8 w
                       && match lookup 8 (heap w) with
                          | Some e => is_Enemy e
                          | None => false
                          end) (skipn 139 ws) = true.
Proof.
  vm_compute. repeat split; reflexivity.
Qed.

(* ------------------------------------------------------------------ *)
(** ** The arithmetic of [Num] is the arithmetic of the real numbers *)
(* ------------------------------------------------------------------ *)

Module NumReal.
Import Reals Qreals Lra.
Local Open Scope R_scope.

Lemma sqrt2_sq : sqrt 2 * sqrt 2 = 2.
Proof. apply sqrt_sqrt. lra. Qed.

Lemma sqrt2_pos : 0 < sqrt 2.
Proof. apply sqrt_lt_R0. lra. Qed.

Lemma Q2R_Qred (q : Q) : Q2R (Qred q) = Q2R q.
Proof. apply Qeq_eqR. apply Qred_correct. Qed.

Lemma to_R_add (u v : Num.num) : to_R (Num.add u v) = to_R u + to_R v.
Proof.
  unfold to_R, Num.add. cbn [Num.rat Num.irr].
  rewrite !Q2R_Qred, !Q2R_plus. ring.
Qed.

Lemma to_R_sub (u v : Num.num) : to_R (Num.sub u v) = to_R u - to_R v.
Proof.
  unfold to_R, Num.sub. cbn [Num.rat Num.irr].
  rewrite !Q2R_Qred, !Q2R_minus. ring.
Qed.

Lemma to_R_mul (u v : Num.num) : to_R (Num.mul u v) = to_R u * to_R v.
Proof.
  unfold to_R, Num.mul. cbn [Num.rat Num.irr].
  rewrite !Q2R_Qred, !Q2R_plus, !Q2R_mult.
  change (Q2R 2) with (Q2R (2 # 1)).
  replace (Q2R (2 # 1)) with 2 by (unfold Q2R; simpl; lra).
  pose proof sqrt2_sq as H.
  set (s := sqrt 2) in *.
  transitivity (Q2R (Num.rat u) * Q2R (Num.rat v)
                + Q2R (Num.irr u) * Q2R (Num.irr v) * (s * s)
                + (Q2R (Num.rat u) * Q2R (Num.irr v)
                   + Q2R (Num.irr u) * Q2R (Num.rat v)) * s).
  - rewrite H. ring.
  - ring.
Qed.

Lemma to_R_of_Z (z : Z) : to_R (Num.of_Z z) = IZR z.
Proof.
  unfold to_R, Num.of_Z. cbn [Num.rat Num.irr].
  unfold Q2R. simpl. lra.
Qed.

Lemma to_R_of_Q (q : Q) : to_R (Num.of_Q q) = Q2R q.
Proof.
  unfold to_R, Num.of_Q. cbn [Num.rat Num.irr].
  rewrite Q2R_Qred. unfold Q2R at 2. simpl. lra.
Qed.

(** The sign test decides the sign of the real number. *)
Lemma sgn_sound (v : Num.num) :
  match Num.sgn v with
  | Lt => to_R v < 0
  | Eq => to_R v = 0
  | Gt => 0 < to_R v
  end.
Proof.
  unfold Num.sgn, to_R. cbv zeta.
  pose proof sqrt2_sq as Hs. pose proof sqrt2_pos as Hp.
  set (s := sqrt 2) in *.
  set (a := Num.rat v). set (b := Num.irr v).
  assert (Ha : Q2R 0 = 0) by (unfold Q2R; simpl; lra).
  assert (Hsq : forall q1 q2 : Q,
             Q2R (q1 * q1) = Q2R q1 * Q2R q1
             /\ Q2R (2 * (q2 * q2)) = 2 * (Q2R q2 * Q2R q2)).
  { intros q1 q2. rewrite !Q2R_mult. split; [reflexivity|].
    replace (Q2R 2) with 2 by (unfold Q2R; simpl; lra). reflexivity. }
  destruct (Qcompare_spec a 0) as [Ea|Ea|Ea];
    [apply Qeq_eqR in Ea | apply Qlt_Rlt in Ea | apply Qlt_Rlt in Ea];
    rewrite Ha in Ea;
    destruct (Qcompare_spec b 0) as [Eb|Eb|Eb];
    [apply Qeq_eqR in Eb | apply Qlt_Rlt in Eb | apply Qlt_Rlt in Eb
    |apply Qeq_eqR in Eb | apply Qlt_Rlt in Eb | apply Qlt_Rlt in Eb
    |apply Qeq_eqR in Eb | apply Qlt_Rlt in Eb | apply Qlt_Rlt in Eb];
    rewrite Ha in Eb; try nra.
  - (* a < 0 < b *)
    destruct (Hsq a b) as [H1 H2].
    destruct (Qcompare_spec (2 * (b * b)) (a * a)) as [E|E|E];
      [apply Qeq_eqR in E | apply Qlt_Rlt in E | apply Qlt_Rlt in E];
      rewrite H1, H2 in E.
    + assert ((Q2R b * s - Q2R a) * (Q2R a + Q2R b * s) = 0) by nra.
      assert (0 < Q2R b * s - Q2R a) by nra. nra.
    + assert ((Q2R b * s - Q2R a) * (Q2R a + Q2R b * s) < 0) by nra.
      assert (0 < Q2R b * s - Q2R a) by nra. nra.
    + assert (0 < (Q2R b * s - Q2R a) * (Q2R a + Q2R b * s)) by nra.
      assert (0 < Q2R b * s - Q2R a) by nra. nra.
  - (* b < 0 < a *)
    destruct (Hsq a b) as [H1 H2].
    destruct (Qcompare_spec (a * a) (2 * (b * b))) as [E|E|E];
      [apply Qeq_eqR in E | apply Qlt_Rlt in E | apply Qlt_Rlt in E];
      rewrite H1, H2 in E.
    + assert ((Q2R a - Q2R b * s) * (Q2R a + Q2R b * s) = 0) by nra.
      assert (0 < Q2R a - Q2R b * s) by nra. nra.
    + assert ((Q2R a - Q2R b * s) * (Q2R a + Q2R b * s) < 0) by nra.
      assert (0 < Q2R a - Q2R b * s) by nra. nra.
    + assert (0 < (Q2R a - Q2R b * s) * (Q2R a + Q2R b * s)) by nra.
      assert (0 < Q2R a - Q2R b * s) by nra. nra.
Qed.


Lemma compare_sound (u v : Num.num) :
  match Num.compare u v with
  | Lt => to_R u < to_R v
  | Eq => to_R u = to_R v
  | Gt => to_R v < to_R u
  end.
Proof.
  unfold Num.compare. pose proof (sgn_sound (Num.sub u v)) as H.
  rewrite to_R_sub in H. destruct (Num.sgn (Num.sub u v)); lra.
Qed.

Lemma ltb_sound (u v : Num.num) : Num.ltb u v = true <-> to_R u < to_R v.
Proof.
  unfold Num.ltb. pose proof (compare_sound u v) as H.
  destruct (Num.compare u v); split; intro; try discriminate; try reflexivity; lra.
Qed.

Lemma gtb_sound (u v : Num.num) : Num.gtb u v = true <-> to_R v < to_R u.
Proof.
  unfold Num.gtb. pose proof (compare_sound u v) as H.
  destruct (Num.compare u v); split; intro; try discriminate; try reflexivity; lra.
Qed.

Lemma leb_sound (u v : Num.num) : Num.leb u v = true <-> to_R u <= to_R v.
Proof.
  unfold Num.leb. pose proof (compare_sound u v) as H.
  destruct (Num.compare u v); split; intro; try discriminate; try reflexivity; lra.
Qed.

Lemma geb_sound (u v : Num.num) : Num.geb u v = true <-> to_R v <= to_R u.
Proof.
  unfold Num.geb. pose proof (compare_sound u v) as H.
  destruct (Num.compare u v); split; intro; try discriminate; try reflexivity; lra.
Qed.

Lemma max_sound (u v : Num.num) : to_R (Num.max u v) = Rmax (to_R u) (to_R v).
Proof.
  unfold Num.max. destruct (Num.ltb u v) eqn:E.
  - apply ltb_sound in E. rewrite Rmax_right; lra.
  - assert (~ to_R u < to_R v) by (rewrite <- ltb_sound; congruence).
    rewrite Rmax_left; lra.
Qed.

Lemma min_sound (u v : Num.num) : to_R (Num.min u v) = Rmin (to_R u) (to_R v).
Proof.
  unfold Num.min. destruct (Num.ltb v u) eqn:E.
  - apply ltb_sound in E. rewrite Rmin_right; lra.
  - assert (~ to_R v < to_R u) by (rewrite <- ltb_sound; congruence).
    rewrite Rmin_left; lra.
Qed.

(** Division is division, for a divisor whose norm is not zero. *)
Lemma to_R_div (u v : Num.num) :
  ~ (Num.rat v * Num.rat v - 2 * (Num.irr v * Num.irr v) == 0)%Q ->
  to_R v <> 0 /\ to_R (Num.div u v) = to_R u / to_R v.
Proof.
  intro Hn.
  pose proof sqrt2_sq as Hs.
  assert (H2 : Q2R 2 = 2) by (unfold Q2R; simpl; lra).
  assert (HnR : Q2R (Num.rat v) * Q2R (Num.rat v)
                - 2 * (Q2R (Num.irr v) * Q2R (Num.irr v)) <> 0).
  { intro H. apply Hn. apply eqR_Qeq.
    rewrite Q2R_minus, !Q2R_mult, H2.
    replace (Q2R 0) with 0 by (unfold Q2R; simpl; lra). exact H. }
  assert (Hv : to_R v <> 0).
  { unfold to_R. intro H. apply HnR.
    set (s := sqrt 2) in *.
    replace (Q2R (Num.rat v) * Q2R (Num.rat v)
             - 2 * (Q2R (Num.irr v) * Q2R (Num.irr v)))
      with ((Q2R (Num.rat v) + Q2R (Num.irr v) * s)
            * (Q2R (Num.rat v) - Q2R (Num.irr v) * s)
            + Q2R (Num.irr v) * Q2R (Num.irr v) * (s * s - 2)) by ring.
    rewrite H, Hs. ring. }
  split; [exact Hv|].
  apply (Rmult_eq_reg_r (to_R v)); [|exact Hv].
  replace (to_R u / to_R v * to_R v) with (to_R u) by (field; exact Hv).
  unfold to_R in *. unfold Num.div. cbn [Num.rat Num.irr].
  rewrite !Q2R_Qred, !Q2R_div by exact Hn.
  rewrite !Q2R_minus, !Q2R_mult, H2.
  set (s := sqrt 2) in *.
  set (a := Q2R (Num.rat u)) in *. set (b := Q2R (Num.irr u)) in *.
  set (c := Q2R (Num.rat v)) in *. set (d := Q2R (Num.irr v)) in *.
  transitivity (a + b * s + (b * c - a * d) * d * (s * s - 2)
                            / (c * c - 2 * (d * d))).
  - field. exact HnR.
  - rewrite Hs. field. exact HnR.
Qed.

(** [Math.floor] *)
Lemma Q2R_inject_Z (z : Z) : Q2R (inject_Z z) = IZR z.
Proof. unfold Q2R. simpl. lra. Qed.

Lemma Qfloor_sound (q : Q) : IZR (Qfloor q) <= Q2R q < IZR (Qfloor q) + 1.
Proof.
  pose proof (Qfloor_le q) as Hl. pose proof (Qlt_floor q) as Hu.
  apply Qle_Rle in Hl. apply Qlt_Rlt in Hu.
  rewrite inject_Z_plus, Q2R_plus, !Q2R_inject_Z in Hu.
  rewrite Q2R_inject_Z in Hl. simpl (IZR 1) in Hu. lra.
Qed.

Lemma floor_irr_sound (b : Q) :
  IZR (Num.floor_irr b) <= Q2R b * sqrt 2 <= IZR (Num.floor_irr b) + 1.
Proof.
  pose proof sqrt2_sq as Hs. pose proof sqrt2_pos as Hp.
  unfold Num.floor_irr.
  assert (Hz : Q2R 0 = 0) by (unfold Q2R; simpl; lra).
  assert (H2 : Q2R 2 = 2) by (unfold Q2R; simpl; lra).
  pose proof (Qfloor_sound (2 * (b * b))) as [Hfl Hfu].
  rewrite !Q2R_mult, H2 in Hfl, Hfu.
  set (n := Qfloor (2 * (b * b))) in *.
  assert (Hn0 : (0 <= n)%Z).
  { assert (IZR (-1) < IZR n) by (simpl; nra).
    apply lt_IZR in H. lia. }
  pose proof (Z.sqrt_spec n Hn0) as [Hlo Hhi].
  set (r := Z.sqrt n) in *.
  assert (Hr0 : (0 <= r)%Z) by apply Z.sqrt_nonneg.
  assert (Hhi' : (n + 1 <= (r + 1) * (r + 1))%Z) by lia.
  apply IZR_le in Hlo. apply IZR_le in Hhi'. apply IZR_le in Hr0.
  rewrite mult_IZR in Hlo.
  rewrite mult_IZR, !plus_IZR in Hhi'. simpl (IZR 1) in Hhi'.
  set (B := Q2R b) in *. set (s := sqrt 2) in *.
  set (R_ := IZR r) in *. set (N := IZR n) in *.
  assert (Hsq : (B * s) * (B * s) = 2 * (B * B)) by (rewrite <- Hs; ring).
  destruct (Qcompare_spec b 0) as [E|E|E];
    [apply Qeq_eqR in E | apply Qlt_Rlt in E | apply Qlt_Rlt in E];
    rewrite Hz in E; fold B in E.
  - rewrite E. simpl. lra.
  - (* b < 0 *)
    rewrite minus_IZR, opp_IZR. fold R_. simpl (IZR 1).
    assert (Hneg : B * s < 0) by nra.
    split.
    + assert (H : ~ (R_ + 1 < - (B * s))).
      { intro Hc. assert ((R_ + 1) * (R_ + 1) < (B * s) * (B * s)) by nra. nra. }
      lra.
    + assert (H : ~ (- (B * s) < R_)).
      { intro Hc. assert ((B * s) * (B * s) < R_ * R_) by nra. nra. }
      lra.
  - (* 0 < b *)
    fold R_.
    assert (Hpos : 0 < B * s) by nra.
    split.
    + assert (H : ~ (B * s < R_)).
      { intro Hc. assert ((B * s) * (B * s) < R_ * R_) by nra. nra. }
      lra.
    + assert (H : ~ (R_ + 1 < B * s)).
      { intro Hc. assert ((R_ + 1) * (R_ + 1) < (B * s) * (B * s)) by nra. nra. }
      lra.
Qed.

Lemma floor_sound (x : Num.num) :
  IZR (Num.floor x) <= to_R x < IZR (Num.floor x) + 1.
Proof.
  unfold Num.floor.
  pose proof (Qfloor_sound (Num.rat x)) as [Ha1 Ha2].
  pose proof (floor_irr_sound (Num.irr x)) as [Hb1 Hb2].
  set (n0 := (Qfloor (Num.rat x) + Num.floor_irr (Num.irr x))%Z).
  assert (Hn0 : IZR n0 = IZR (Qfloor (Num.rat x)) + IZR (Num.floor_irr (Num.irr x)))
    by (unfold n0; apply plus_IZR).
  pose proof (leb_sound (Num.of_Z (n0 + 1)) x) as Hl.
  rewrite to_R_of_Z, plus_IZR in Hl. simpl (IZR 1) in Hl.
  unfold to_R in *.
  destruct (Num.leb (Num.of_Z (n0 + 1)) x).
  - rewrite plus_IZR. simpl (IZR 1).
    assert (IZR n0 + 1 <= Q2R (Num.rat x) + Q2R (Num.irr x) * sqrt 2)
      by now apply Hl.
    lra.
  - assert (~ (IZR n0 + 1 <= Q2R (Num.rat x) + Q2R (Num.irr x) * sqrt 2)).
    { intro H. apply Hl in H. discriminate. }
    lra.
Qed.

(** [Math.round] *)
Lemma round_sound (x : Num.num) :
  IZR (Num.round x) - / 2 <= to_R x < IZR (Num.round x) + / 2.
Proof.
  unfold Num.round.
  pose proof (floor_sound (Num.add x (Num.of_Q (1 # 2)))) as H.
  rewrite to_R_add, to_R_of_Q in H.
  replace (Q2R (1 # 2)) with (/ 2) in H by (unfold Q2R; simpl; lra).
  lra.
Qed.

(** [Math.sqrt] *)
Lemma Qsqrt_exact_sound (q r : Q) :
  Num.Qsqrt_exact q = Some r -> 0 <= Q2R r /\ Q2R r * Q2R r = Q2R q.
Proof.
  unfold Num.Qsqrt_exact.
  set (q' := Qred q).
  destruct (0 <=? Qnum q')%Z eqn:E0; [|discriminate].
  destruct (Z.sqrt (Qnum q') * Z.sqrt (Qnum q') =? Qnum q')%Z eqn:E1;
    [|discriminate].
  destruct (Z.sqrt (Z.pos (Qden q')) * Z.sqrt (Z.pos (Qden q'))
            =? Z.pos (Qden q'))%Z eqn:E2; [|discriminate].
  cbn [andb]. intro H.
  assert (Hr : r = Qred (Qmake (Z.sqrt (Qnum q'))
                               (Z.to_pos (Z.sqrt (Z.pos (Qden q'))))))
    by congruence.
  rewrite Hr. clear H Hr.
  apply Z.eqb_eq in E1, E2.
  set (rn := Z.sqrt (Qnum q')) in *. set (rd := Z.sqrt (Z.pos (Qden q'))) in *.
  assert (Hrn : (0 <= rn)%Z) by apply Z.sqrt_nonneg.
  assert (Hrd : (0 < rd)%Z).
  { assert (0 <= rd)%Z by apply Z.sqrt_nonneg.
    assert (rd <> 0)%Z by (intro Hc; rewrite Hc in E2; discriminate).
    lia. }
  assert (Hq : (Qmake rn (Z.to_pos rd) * Qmake rn (Z.to_pos rd) == q)%Q).
  { rewrite <- (Qred_correct q). fold q'.
    unfold Qeq, Qmult. cbn [Qnum Qden].
    rewrite Pos2Z.inj_mul, Z2Pos.id by exact Hrd.
    rewrite E1, E2. reflexivity. }
  rewrite Q2R_Qred. split.
  - replace 0 with (Q2R 0) by (unfold Q2R; simpl; lra).
    apply Qle_Rle. unfold Qle. cbn [Qnum Qden]. lia.
  - rewrite <- Q2R_mult. apply Qeq_eqR. exact Hq.
Qed.

Lemma sqrt_opt_sound (x r : Num.num) :
  Num.sqrt_opt x = Some r -> to_R r = sqrt (to_R x).
Proof.
  unfold Num.sqrt_opt.
  assert (Hz : Q2R 0 = 0) by (unfold Q2R; simpl; lra).
  destruct (Qcompare_spec (Num.irr x) 0) as [E| |]; try discriminate.
  apply Qeq_eqR in E. rewrite Hz in E.
  assert (Hx : to_R x = Q2R (Num.rat x)) by (unfold to_R; rewrite E; ring).
  rewrite Hx.
  destruct (Num.Qsqrt_exact (Num.rat x)) as [q|] eqn:E1.
  - intro H. assert (Hr : r = Num.mk q 0) by congruence. rewrite Hr.
    apply Qsqrt_exact_sound in E1 as [H0 H1].
    unfold to_R. cbn [Num.rat Num.irr]. rewrite Hz, Rmult_0_l, Rplus_0_r.
    symmetry. apply sqrt_lem_1; [rewrite <- H1; nra | exact H0 | exact H1].
  - destruct (Num.Qsqrt_exact (Num.rat x / 2)) as [q|] eqn:E2; [|discriminate].
    intro H. assert (Hr : r = Num.mk 0 q) by congruence. rewrite Hr.
    apply Qsqrt_exact_sound in E2 as [H0 H1].
    rewrite Q2R_div in H1 by discriminate.
    replace (Q2R 2) with 2 in H1 by (unfold Q2R; simpl; lra).
    unfold to_R. cbn [Num.rat Num.irr]. rewrite Hz, Rplus_0_l.
    pose proof sqrt2_sq as Hs. pose proof sqrt2_pos as Hp.
    symmetry. apply sqrt_lem_1.
    + assert (0 <= Q2R q * Q2R q) by nra. lra.
    + nra.
    + transitivity (Q2R q * Q2R q * (sqrt 2 * sqrt 2)); [ring|].
      rewrite Hs. lra.
Qed.

(** The homing step of an enemy is the real number the source's expression
    [Math.sqrt(speed * speed / 2) * 2 / 1.5] denotes for the speed 3. *)
Lemma enemy_homing_step_real :
  to_R enemy_homing_step = sqrt (3 * 3 / 2) * 2 / (3 / 2).
Proof.
  assert (E : enemy_homing_step = Num.mk 0 2) by (vm_compute; reflexivity).
  rewrite E. unfold to_R. cbn [Num.rat Num.irr].
  replace (Q2R 0) with 0 by (unfold Q2R; simpl; lra).
  replace (Q2R 2) with 2 by (unfold Q2R; simpl; lra).
  pose proof sqrt2_sq as Hs. pose proof sqrt2_pos as Hp.
  assert (H : sqrt (3 * 3 / 2) = 3 / 2 * sqrt 2).
  { apply sqrt_lem_1; [lra | nra |].
    transitivity (9 / 4 * (sqrt 2 * sqrt 2)); [field|].
    rewrite Hs. lra. }
  rewrite H. field.
Qed.

End NumReal.

(* ------------------------------------------------------------------ *)
(** ** How far apart enemies stay *)
(* ------------------------------------------------------------------ *)

(** *** One entity update at a time *)

Lemma In_enemy_removals (eid : nat) (h : Z) (pos1 : point)
    (stored : list (option point)) (ppos : point) (k : nat) :
  In k (enemy_removals eid h pos1 stored ppos) -> k = eid.
Proof.
  unfold enemy_removals. rewrite !in_app_iff.
  intros [H|[H|[H|[H|H]]]].
  - destruct (h =? 0); simpl in H; intuition.
  - destruct (Nat.eqb eid 1); simpl in H; intuition.
  - destruct (y pos1 >? Num.of_Z 500)%num; simpl in H; intuition.
  - apply repeat_spec in H. exact H.
  - destruct (near 10 pos1 ppos); simpl in H; intuition.
Qed.

Lemma enemy_removals_cause (eid : nat) (h : Z) (pos1 : point)
    (stored : list (option point)) (ppos : point) :
  (y pos1 >? Num.of_Z 500)%num = true \/ near 10 pos1 ppos = true ->
  In eid (enemy_removals eid h pos1 stored ppos).
Proof.
  unfold enemy_removals. rewrite !in_app_iff. intros [H|H]; rewrite H.
  - right. right. left. now left.
  - right. right. right. right. now left.
Qed.

Lemma In_projectile_removals (i : nat) (h : Z) (pr1 : point)
    (stored : list (option point)) (k : nat) :
  In k (projectile_removals i h pr1 stored) -> k = i.
Proof.
  unfold projectile_removals. rewrite !in_app_iff.
  intros [H|[H|H]].
  - destruct (h =? 0); simpl in H; intuition.
  - destruct (y pr1 <? Num.of_Z 0)%num; simpl in H; intuition.
  - apply repeat_spec in H. exact H.
Qed.

Lemma same_shape_refl (e : entity) : same_shape e e.
Proof. destruct e; simpl; auto. Qed.

Lemma same_shape_trans (e1 e2 e3 : entity) :
  same_shape e1 e2 -> same_shape e2 e3 -> same_shape e1 e3.
Proof.
  destruct e1, e2, e3; simpl; try tauto; intros [H1 H2] [H3 H4];
    split; congruence.
Qed.

Lemma reshaped_refl (w : world) : reshaped w w.
Proof.
  split; [lia|]. intros j e' H. exists e'. split; [exact H|].
  apply same_shape_refl.
Qed.

Lemma reshaped_trans (w1 w2 w3 : world) :
  reshaped w1 w2 -> reshaped w2 w3 -> reshaped w1 w3.
Proof.
  intros [R1 H1] [R2 H2]. split; [lia|]. intros j e3 H3.
  destruct (H2 j e3 H3) as (e2 & L2 & S2).
  destruct (H1 j e2 L2) as (e1 & L1 & S1).
  exists e1. split; [exact L1|]. eapply same_shape_trans; eassumption.
Qed.

Lemma tidy_reshaped (w w' : world) : tidy w -> reshaped w w' -> tidy w'.
Proof.
  intros [Hb He Hp] [Hr Hs]. constructor.
  - intros k e' Hl. destruct (Hs k e' Hl) as (e & L & _).
    specialize (Hb k e L). lia.
  - intros i b spd Hl. destruct (Hs i _ Hl) as ([b0 p0|b0 s0 pr0|b0 s0] & L & S);
      simpl in S; try contradiction.
    destruct S as [-> Hv]. destruct (He i b0 s0 L) as [-> Hv0].
    split; [reflexivity | congruence].
  - intros i b p Hl. destruct (Hs i _ Hl) as ([b0 p0|b0 s0 pr0|b0 s0] & L & S);
      simpl in S; try contradiction.
    destruct S as [Hv Hsp]. destruct (Hp i b0 p0 L) as [Hv0 Hsp0].
    split; congruence.
Qed.

(** What the update of one enemy or projectile does to the rest of the
    world. *)
Lemma entity_step (dt : Q) (w : world) (pid : nat) (pb : body)
    (pp : player_data) (i : nat) :
  the_player w = Some (pid, pb, pp) ->
  i <> pid ->
  (forall b p, lookup i (heap w) <> Some (Player b p)) ->
  let w1 := entity_update i dt w in
  exists pb1 pp1,
    the_player w1 = Some (pid, pb1, pp1)
    /\ position pb1 = position pb
    /\ velocity pb1 = velocity pb
    /\ health pb1
       = health pb - (if touches w (position pb) i then 25 else 0)
    /\ enemyTimer pp1 = enemyTimer pp
    /\ controller pp1 = controller pp
    /\ speed pp1 = speed pp
    /\ entities w1 = entities w
    /\ running_id w1 = running_id w
    /\ enemy_spawner w1 = enemy_spawner w
    /\ (forall j, j <> i -> j <> pid ->
                  lookup j (heap w1) = lookup j (heap w))
    /\ (forall b spd, lookup i (heap w) = Some (Enemy b spd) ->
          let pos1 := enemy_move spd (position pb) (position b) in
          lookup i (heap w1)
          = Some (Enemy (set_position (enemy_place dt pos1 (velocity b)) b)
                        spd)
          /\ ((y pos1 >? Num.of_Z 500)%num = true
              \/ near 10 pos1 (position pb) = true ->
              In i (queued_entities_for_removal w1)))
    /\ (forall b spd pr, lookup i (heap w) = Some (Projectile b spd pr) ->
          exists b' pr', lookup i (heap w1) = Some (Projectile b' spd pr'))
    /\ (lookup i (heap w) = None -> lookup i (heap w1) = None)
    /\ reshaped w w1
    /\ (forall k, In k (queued_entities_for_removal w) ->
                  In k (queued_entities_for_removal w1))
    /\ (forall k, In k (queued_entities_for_removal w1) ->
                  In k (queued_entities_for_removal w) \/ k = i).
Proof.
  intros Hp Hne Hnp w1.
  destruct (the_player_inv _ _ _ _ Hp) as [Hpl Hpo].
  unfold w1, entity_update, touches.
  destruct (lookup i (heap w)) as [[b p|b spd pr|b spd]|] eqn:Hl.
  - exfalso. exact (Hnp b p eq_refl).
  - (* projectile *)
    rewrite (Projectile_update_eq _ _ _ _ _ _ _ _ _ Hl Hp).
    exists pb, (set_projectiles (arr_set i pr (projectiles pp)) pp).
    split.
    { apply the_player_intro; globals; [exact Hpl|].
      rewrite lookup_store_other by (intro; apply Hne; congruence).
      apply lookup_store_same. }
    repeat (split; [reflexivity|]).
    rewrite Z.sub_0_r. split; [reflexivity|].
    repeat (split; [reflexivity|]).
    split.
    { intros j Hji Hjp. globals. now rewrite !lookup_store_other by congruence. }
    split; [intros b0 spd0 H0; discriminate|].
    split.
    { intros b0 spd0 pr0 H0. inversion H0. subst. globals.
      rewrite lookup_store_same. eauto. }
    split; [discriminate|].
    split.
    { split; [globals; lia|]. intros j e' Hj. globals.
      destruct (Nat.eq_dec j i) as [->|Hji].
      - rewrite lookup_store_same in Hj. inversion Hj. subst e'.
        eexists. split; [exact Hl | exact I].
      - rewrite lookup_store_other in Hj by congruence.
        destruct (Nat.eq_dec j pid) as [->|Hjp].
        + rewrite lookup_store_same in Hj. inversion Hj. subst e'.
          eexists. split; [exact Hpo | split; reflexivity].
        + rewrite lookup_store_other in Hj by congruence.
          exists e'. split; [exact Hj | destruct e'; simpl; auto]. }
    split.
    { intros k Hk. globals. apply in_or_app. now left. }
    { intros k Hk. globals. apply in_app_or in Hk. destruct Hk as [Hk|Hk].
      - now left.
      - right. eapply In_projectile_removals. exact Hk. }
  - (* enemy *)
    rewrite (Enemy_update_eq _ _ _ _ _ _ _ _ Hl Hp).
    set (pos1 := enemy_move spd (position pb) (position b)).
    set (pp1 := set_enemies (arr_set i (position b) (enemies pp)) pp).
    exists (if near 10 pos1 (position pb) then set_health (health pb - 25) pb
            else pb),
           (if near 10 pos1 (position pb) then set_hit 100 pp1 else pp1).
    split.
    { apply the_player_intro; globals; [exact Hpl|].
      rewrite lookup_store_other by (intro; apply Hne; congruence).
      rewrite lookup_store_same.
      destruct (near 10 pos1 (position pb)); reflexivity. }
    split; [destruct (near 10 pos1 (position pb)); reflexivity|].
    split; [destruct (near 10 pos1 (position pb)); reflexivity|].
    split.
    { destruct (near 10 pos1 (position pb)); cbn [health set_health]; lia. }
    split; [destruct (near 10 pos1 (position pb)); reflexivity|].
    split; [destruct (near 10 pos1 (position pb)); reflexivity|].
    split; [destruct (near 10 pos1 (position pb)); reflexivity|].
    repeat (split; [reflexivity|]).
    split.
    { intros j Hji Hjp. globals. now rewrite !lookup_store_other by congruence. }
    split.
    { intros b0 spd0 H0. inversion H0. subst b0 spd0. cbv zeta. fold pos1.
      globals. rewrite lookup_store_same. split; [reflexivity|].
      intro Hc. apply in_or_app. right. now apply enemy_removals_cause. }
    split; [intros b0 spd0 pr0 H0; discriminate|].
    split; [discriminate|].
    split.
    { split; [globals; lia|]. intros j e' Hj. globals.
      destruct (Nat.eq_dec j i) as [->|Hji].
      - rewrite lookup_store_same in Hj. inversion Hj. subst e'.
        eexists. split; [exact Hl | split; reflexivity].
      - rewrite lookup_store_other in Hj by congruence.
        destruct (Nat.eq_dec j pid) as [->|Hjp].
        + rewrite lookup_store_same in Hj. eexists. split; [exact Hpo|].
          destruct (near 10 pos1 (position pb)); inversion Hj; subst e';
            split; reflexivity.
        + rewrite lookup_store_other in Hj by congruence.
          exists e'. split; [exact Hj | destruct e'; simpl; auto]. }
    split.
    { intros k Hk. globals. apply in_or_app. now left. }
    { intros k Hk. globals. apply in_app_or in Hk. destruct Hk as [Hk|Hk].
      - now left.
      - right. eapply In_enemy_removals. exact Hk. }
  - exists pb, pp. split; [exact Hp|].
    repeat (split; [reflexivity|]).
    rewrite Z.sub_0_r. split; [reflexivity|].
    repeat (split; [reflexivity|]).
    split; [intros; discriminate|]. split; [intros; discriminate|].
    split; [intros; assumption|].
    split; [apply reshaped_refl|].
    split; [auto|auto].
Qed.

(** *** The entity pass *)

Lemma entity_pass_spec (dt : Q) (l : list nat) :
  forall (w : world) (pid : nat) (pb : body) (pp : player_data),
    the_player w = Some (pid, pb, pp) ->
    NoDup l -> ~ In pid l ->
    (forall i b p, In i l -> lookup i (heap w) <> Some (Player b p)) ->
    swept dt l w pid pb pp
          (fold_left (fun w0 i => entity_update i dt w0) l w).
Proof.
  induction l as [|i l IH]; intros w pid pb pp Hp Hnd Hpid Hnp.
  - simpl. constructor; try reflexivity; try tauto; try contradiction;
      try apply reshaped_refl.
    exists pb, pp. split; [exact Hp|]. repeat (split; [reflexivity|]).
    split; [simpl; lia|]. repeat split; reflexivity.
  - cbn [fold_left].
    assert (Hi : i <> pid) by (intro; subst; apply Hpid; now left).
    inversion Hnd as [|i0 l0 Hil Hnd']. subst i0 l0.
    destruct (entity_step dt w pid pb pp i Hp Hi (fun b p => Hnp i b p (or_introl eq_refl)))
      as (pb1 & pp1 & Hp1 & Hpos1 & Hvel1 & Hh1 & Ht1 & Hc1 & Hs1 & He1 & Hr1
          & Hsp1 & Hfr1 & Hen1 & Hpr1 & Hno1 & Hsh1 & Hqk1 & Hqn1).
    set (w1 := entity_update i dt w) in *.
    assert (Hsame : forall j, In j l -> lookup j (heap w1) = lookup j (heap w)).
    { intros j Hj. apply Hfr1.
      - intro; subst; contradiction.
      - intro; subst; apply Hpid; now right. }
    assert (IH' := IH w1 pid pb1 pp1 Hp1 Hnd'
                     (fun H => Hpid (or_intror H))
                     (fun j b p Hj => eq_ind_r (fun o => o <> Some (Player b p))
                                        (Hnp j b p (or_intror Hj)) (Hsame j Hj))).
    destruct IH' as [(pb' & pp' & Hp' & Hpos' & Hvel' & Hh' & Ht' & Hc' & Hs')
                       He' Hr' Hsp' Hfr' Hen' Hpr' Hno' Hsh' Hqk' Hqn'].
    assert (Hf : filter (touches w1 (position pb1)) l
                 = filter (touches w (position pb)) l).
    { apply filter_ext_in. intros j Hj. unfold touches.
      rewrite (Hsame j Hj), Hpos1. reflexivity. }
    constructor.
    + exists pb', pp'. split; [exact Hp'|].
      split; [congruence|]. split; [congruence|].
      split.
      { rewrite Hh', Hh1, Hf. cbn [filter].
        destruct (touches w (position pb) i); cbn [length]; lia. }
      split; [congruence|]. split; congruence.
    + congruence.
    + congruence.
    + congruence.
    + intros j Hj Hjp. rewrite Hfr'.
      * apply Hfr1; [|exact Hjp]. intro; subst; apply Hj; now left.
      * intro H; apply Hj; now right.
      * exact Hjp.
    + intros j b spd [Hj|Hj] Hl.
      * subst j. destruct (Hen1 b spd Hl) as [Hl1 Hq1]. split.
        -- rewrite Hfr' by assumption. exact Hl1.
        -- intro Hc. apply Hqk'. apply Hq1. exact Hc.
      * rewrite <- (Hsame j Hj) in Hl.
        destruct (Hen' j b spd Hj Hl) as [Hl' Hq'].
        rewrite Hpos1 in Hl', Hq'. split; assumption.
    + intros j b spd pr [Hj|Hj] Hl.
      * subst j. destruct (Hpr1 b spd pr Hl) as (b' & pr' & Hl1).
        exists b', pr'. rewrite Hfr' by assumption. exact Hl1.
      * rewrite <- (Hsame j Hj) in Hl. exact (Hpr' j b spd pr Hj Hl).
    + intros j [Hj|Hj] Hl.
      * subst j. rewrite Hfr' by assumption. exact (Hno1 Hl).
      * rewrite <- (Hsame j Hj) in Hl. exact (Hno' j Hj Hl).
    + eapply reshaped_trans; eassumption.
    + intros k Hk. apply Hqk'. apply Hqk1. exact Hk.
    + intros k Hk. destruct (Hqn' k Hk) as [H|H].
      * destruct (Hqn1 k H) as [H1|H1]; [now left | right; left; congruence].
      * right. now right.
Qed.

(** *** [Player.update], object by object *)

Lemma sorted_reg_insert (i : nat) (l : list nat) :
  StronglySorted lt l -> StronglySorted lt (reg_insert i l).
Proof.
  induction l as [|k l IH]; intro Hs; simpl.
  - repeat constructor.
  - inversion Hs as [|k0 l0 Hs' Hall]. subst k0 l0.
    destruct (Nat.ltb i k) eqn:E1.
    + apply Nat.ltb_lt in E1. constructor; [exact Hs|].
      constructor; [exact E1|].
      rewrite Forall_forall in *. intros z Hz. specialize (Hall z Hz). lia.
    + destruct (Nat.eqb i k) eqn:E2; [exact Hs|].
      apply Nat.ltb_ge in E1. apply Nat.eqb_neq in E2.
      constructor; [apply IH; exact Hs'|].
      rewrite Forall_forall in *. intros z Hz.
      apply in_reg_insert in Hz. destruct Hz as [Hz|Hz]; [lia | auto].
Qed.

Lemma sorted_reg_delete (i : nat) (l : list nat) :
  StronglySorted lt l -> StronglySorted lt (reg_delete i l).
Proof.
  induction l as [|k l IH]; intro Hs; simpl; [constructor|].
  inversion Hs as [|k0 l0 Hs' Hall]. subst k0 l0.
  destruct (Nat.eqb i k); [apply IH; exact Hs'|].
  constructor; [apply IH; exact Hs'|].
  rewrite Forall_forall in *. intros z Hz.
  apply in_reg_delete in Hz. destruct Hz as [_ Hz]. auto.
Qed.

Lemma reg_insert_after (p i : nat) (l : list nat) :
  (p < i)%nat -> reg_insert i (p :: l) = p :: reg_insert i l.
Proof.
  intro H. simpl.
  destruct (Nat.ltb i p) eqn:E1; [apply Nat.ltb_lt in E1; lia|].
  destruct (Nat.eqb i p) eqn:E2; [apply Nat.eqb_eq in E2; lia|].
  reflexivity.
Qed.

Lemma reg_delete_after (p i : nat) (l : list nat) :
  i <> p -> reg_delete i (p :: l) = p :: reg_delete i l.
Proof.
  intro H. simpl. destruct (Nat.eqb i p) eqn:E; [|reflexivity].
  apply Nat.eqb_eq in E. contradiction.
Qed.

(** What [Player.update] leaves behind: the player one step on, the new
    objects, and everything else untouched. *)
Lemma Player_update_spec (dt : Q) (w : world) (pid : nat) (b : body)
    (p : player_data) (rest : list nat) :
  the_player w = Some (pid, b, p) ->
  ids_below w ->
  entities w = pid :: rest ->
  (forall k, In k rest -> (k < running_id w)%nat) ->
  let w' := Player_update pid dt w in
  let r := running_id w in
  exists b' p' rest',
    the_player w' = Some (pid, b', p')
    /\ position b'
       = (let pos2 := integrate dt (player_move (controller p) (speed p)
                                      (position b)) (velocity b) in
          mkpoint (clip 360 (x pos2)) (clip 500 (y pos2)))
    /\ velocity b' = velocity b
    /\ health b' = health b
    /\ enemyTimer p' = enemyTimer p + 1
    /\ controller p' = controller p
    /\ speed p' = speed p
    /\ queued_entities_for_removal w' = queued_entities_for_removal w
    /\ enemy_spawner w' = enemy_spawner w
    /\ (r <= running_id w')%nat
    /\ ids_below w'
    /\ (forall j, (j < r)%nat -> j <> pid ->
                  lookup j (heap w') = lookup j (heap w))
    /\ (forall j e, (r <= j)%nat -> lookup j (heap w') = Some e ->
          (exists b0 spd pr, e = Projectile b0 spd pr)
          \/ (j = r /\ Z.rem (enemyTimer p + 1) 20 = 0
              /\ exists b0, e = Enemy b0 (Num.of_Z 3)
                            /\ velocity b0 = origin
                            /\ y (position b0) = Num.of_Z (-50)))
    /\ entities w' = pid :: rest'
    /\ (forall k, In k rest' -> In k rest \/ (r <= k)%nat)
    /\ (forall k, In k rest -> In k rest')
    /\ (forall k, In k rest' -> (k < running_id w')%nat)
    /\ (StronglySorted lt (pid :: rest) -> StronglySorted lt (pid :: rest')).
Proof.
  intros Hp Hf He Hreg w' r.
  destruct (the_player_inv _ _ _ _ Hp) as [Hpl Hpo].
  pose proof (Hf _ _ Hpo) as Hpid. fold r in Hpid.
  assert (Hnone : forall j, (r <= j)%nat -> lookup j (heap w) = None).
  { intros j Hj. destruct (lookup j (heap w)) eqn:E; [|reflexivity].
    apply Hf in E. fold r in E. lia. }
  assert (Hold : forall k e, lookup k (heap w) = Some e -> (k < r)%nat)
    by exact Hf.
  unfold w'. rewrite (Player_update_eq _ _ _ _ _ Hpo). cbv zeta.
  unfold player_after.
  set (PA := Player _ _).
  assert (HPA : exists b' p', PA = Player b' p'
     /\ position b'
        = (let pos2 := integrate dt (player_move (controller p) (speed p)
                                       (position b)) (velocity b) in
           mkpoint (clip 360 (x pos2)) (clip 500 (y pos2)))
     /\ velocity b' = velocity b /\ health b' = health b
     /\ enemyTimer p' = enemyTimer p + 1 /\ controller p' = controller p
     /\ speed p' = speed p).
  { unfold PA. eexists. eexists. split; [reflexivity|].
    repeat split; reflexivity. }
  destruct HPA as (b' & p' & EPA & Hpos & Hvel & Hh & Ht & Hc & Hs).
  rewrite EPA. clear PA EPA.
  exists b', p'.
  destruct (Z.rem (enemyTimer p + 1) 20 =? 0) eqn:Espawn.
  - apply Z.eqb_eq in Espawn.
    set (w1 := new_Enemy (set_enemyCount (enemyCount w + 1) w)).
    assert (Hp1 : the_player (set_projShotTime (masterTime w) w1)
                  = Some (pid, b, p)).
    { apply the_player_intro; [exact Hpl|]. unfold w1, new_Enemy. globals.
      rewrite lookup_store_other by lia. exact Hpo. }
    destruct (fires p w).
    + unfold new_Projectile. rewrite Hp1. unfold w1, new_Enemy. globals.
      fold r. rewrite He.
      exists (reg_insert (S r) (reg_insert r rest)).
      split.
      { apply the_player_intro; globals; [exact Hpl | apply lookup_store_same]. }
      do 8 (split; [assumption || reflexivity|]).
      split; [lia|].
      split.
      { intros k e Hl. globals. fold r in Hl |- *.
        destruct (Nat.eq_dec k pid) as [->|N1]; [lia|].
        rewrite lookup_store_other in Hl by lia.
        destruct (Nat.eq_dec k (S r)) as [->|N2]; [lia|].
        rewrite lookup_store_other in Hl by lia.
        destruct (Nat.eq_dec k r) as [->|N3]; [lia|].
        rewrite lookup_store_other in Hl by lia.
        apply Hold in Hl. lia. }
      split.
      { intros j Hj Hjp. rewrite !lookup_store_other by lia. reflexivity. }
      split.
      { intros j e Hj Hl. rewrite lookup_store_other in Hl by lia.
        destruct (Nat.eq_dec j (S r)) as [->|Hn1].
        - rewrite lookup_store_same in Hl. inversion Hl. left. eauto.
        - rewrite lookup_store_other in Hl by lia.
          destruct (Nat.eq_dec j r) as [->|Hn2].
          + rewrite lookup_store_same in Hl. inversion Hl. right.
            split; [reflexivity|]. split; [exact Espawn|].
            eexists. split; [reflexivity|]. split; reflexivity.
          + rewrite lookup_store_other in Hl by lia.
            rewrite Hnone in Hl by lia. discriminate. }
      split; [rewrite !reg_insert_after by lia; reflexivity|].
      split.
      { intros k Hk. apply in_reg_insert in Hk. destruct Hk as [Hk|Hk];
          [right; lia|]. apply in_reg_insert in Hk.
        destruct Hk as [Hk|Hk]; [right; lia | now left]. }
      split.
      { intros k Hk. apply in_reg_insert. right. apply in_reg_insert. now right. }
      split.
      { intros k Hk. apply in_reg_insert in Hk. destruct Hk as [Hk|Hk]; [lia|].
        apply in_reg_insert in Hk. destruct Hk as [Hk|Hk]; [lia|].
        specialize (Hreg k Hk). fold r in Hreg. lia. }
      { intro Hs0. rewrite <- !reg_insert_after by lia.
        now apply sorted_reg_insert, sorted_reg_insert. }
    + unfold w1, new_Enemy. globals. fold r. rewrite He.
      exists (reg_insert r rest).
      split.
      { apply the_player_intro; globals; [exact Hpl | apply lookup_store_same]. }
      do 8 (split; [assumption || reflexivity|]).
      split; [lia|].
      split.
      { intros k e Hl. globals. fold r in Hl |- *.
        destruct (Nat.eq_dec k pid) as [->|N1]; [lia|].
        rewrite lookup_store_other in Hl by lia.
        destruct (Nat.eq_dec k r) as [->|N3]; [lia|].
        rewrite lookup_store_other in Hl by lia.
        apply Hold in Hl. lia. }
      split.
      { intros j Hj Hjp. rewrite !lookup_store_other by lia. reflexivity. }
      split.
      { intros j e Hj Hl. rewrite lookup_store_other in Hl by lia.
        destruct (Nat.eq_dec j r) as [->|Hn2].
        + rewrite lookup_store_same in Hl. inversion Hl. right.
          split; [reflexivity|]. split; [exact Espawn|].
          eexists. split; [reflexivity|]. split; reflexivity.
        + rewrite lookup_store_other in Hl by lia.
          rewrite Hnone in Hl by lia. discriminate. }
      split; [rewrite !reg_insert_after by lia; reflexivity|].
      split.
      { intros k Hk. apply in_reg_insert in Hk.
        destruct Hk as [Hk|Hk]; [right; lia | now left]. }
      split.
      { intros k Hk. apply in_reg_insert. now right. }
      split.
      { intros k Hk. apply in_reg_insert in Hk. destruct Hk as [Hk|Hk]; [lia|].
        specialize (Hreg k Hk). fold r in Hreg. lia. }
      { intro Hs0. rewrite <- !reg_insert_after by lia.
        now apply sorted_reg_insert. }
  - apply Z.eqb_neq in Espawn.
    assert (Hp1 : the_player (set_projShotTime (masterTime w) w)
                  = Some (pid, b, p)) by exact Hp.
    destruct (fires p w).
    + unfold new_Projectile. rewrite Hp1. globals. fold r. rewrite He.
      exists (reg_insert r rest).
      split.
      { apply the_player_intro; globals; [exact Hpl | apply lookup_store_same]. }
      do 8 (split; [assumption || reflexivity|]).
      split; [lia|].
      split.
      { intros k e Hl. globals. fold r in Hl |- *.
        destruct (Nat.eq_dec k pid) as [->|N1]; [lia|].
        rewrite lookup_store_other in Hl by lia.
        destruct (Nat.eq_dec k r) as [->|N3]; [lia|].
        rewrite lookup_store_other in Hl by lia.
        apply Hold in Hl. lia. }
      split.
      { intros j Hj Hjp. rewrite !lookup_store_other by lia. reflexivity. }
      split.
      { intros j e Hj Hl. rewrite lookup_store_other in Hl by lia.
        destruct (Nat.eq_dec j r) as [->|Hn2].
        + rewrite lookup_store_same in Hl. inversion Hl. left. eauto.
        + rewrite lookup_store_other in Hl by lia.
          rewrite Hnone in Hl by lia. discriminate. }
      split; [rewrite !reg_insert_after by lia; reflexivity|].
      split.
      { intros k Hk. apply in_reg_insert in Hk.
        destruct Hk as [Hk|Hk]; [right; lia | now left]. }
      split.
      { intros k Hk. apply in_reg_insert. now right. }
      split.
      { intros k Hk. apply in_reg_insert in Hk. destruct Hk as [Hk|Hk]; [lia|].
        specialize (Hreg k Hk). fold r in Hreg. lia. }
      { intro Hs0. rewrite <- !reg_insert_after by lia.
        now apply sorted_reg_insert. }
    + globals. fold r. rewrite He. exists rest.
      split.
      { apply the_player_intro; globals; [exact Hpl | apply lookup_store_same]. }
      do 8 (split; [assumption || reflexivity|]).
      split; [lia|].
      split.
      { intros k e Hl. globals. fold r in Hl |- *.
        destruct (Nat.eq_dec k pid) as [->|N1]; [lia|].
        rewrite lookup_store_other in Hl by lia.
        apply Hold in Hl. lia. }
      split.
      { intros j Hj Hjp. rewrite !lookup_store_other by lia. reflexivity. }
      split.
      { intros j e Hj Hl. rewrite lookup_store_other in Hl by lia.
        rewrite Hnone in Hl by lia. discriminate. }
      split; [reflexivity|].
      split; [intros k Hk; now left|].
      split; [auto|]. split; [|auto].
      intros k Hk. specialize (Hreg k Hk). fold r in Hreg. lia.
Qed.

Lemma tidy_Player_update (dt : Q) (w : world) (pid : nat) (b : body)
    (p : player_data) (rest : list nat) :
  the_player w = Some (pid, b, p) -> tidy w -> entities w = pid :: rest ->
  (forall k, In k rest -> (k < running_id w)%nat) ->
  tidy (Player_update pid dt w).
Proof.
  intros Hp Ht He Hreg. destruct (the_player_inv _ _ _ _ Hp) as [Hpl Hpo].
  destruct (Player_update_spec dt w pid b p rest Hp (tidy_below w Ht) He Hreg)
    as (b' & p' & rest' & Hp' & _ & Hvel & _ & _ & _ & Hsp & _ & _ & Hr & Hb
        & Hfr & Hnew & _).
  destruct (the_player_inv _ _ _ _ Hp') as [_ Hpo'].
  pose proof (tidy_below w Ht _ _ Hpo) as Hpid.
  constructor; [exact Hb| |].
  - intros i b0 spd Hl.
    destruct (Nat.lt_ge_cases i (running_id w)) as [Hi|Hi].
    + assert (i <> pid) by (intro; subst; congruence).
      rewrite Hfr in Hl by assumption. exact (tidy_enemies w Ht i b0 spd Hl).
    + destruct (Hnew i _ Hi Hl) as [(b1 & s1 & pr1 & E)|(_ & _ & b1 & E & Hv & _)];
        [discriminate|]. inversion E. subst. split; [reflexivity | exact Hv].
  - intros i b0 p0 Hl.
    destruct (Nat.eq_dec i pid) as [->|Hn].
    + rewrite Hpo' in Hl. inversion Hl. subst.
      destruct (tidy_players w Ht pid b p Hpo) as [Hv0 Hs0].
      split; congruence.
    + destruct (Nat.lt_ge_cases i (running_id w)) as [Hi|Hi].
      * rewrite Hfr in Hl by assumption. exact (tidy_players w Ht i b0 p0 Hl).
      * destruct (Hnew i _ Hi Hl)
          as [(b1 & s1 & pr1 & E)|(_ & _ & b1 & E & _)]; discriminate.
Qed.

(** *** The removal pass, object by object *)

Lemma flush_one_spec (w : world) (i pid : nat) (pb : body) (pp : player_data)
    (rest : list nat) :
  the_player w = Some (pid, pb, pp) ->
  entities w = pid :: rest ->
  i <> pid ->
  exists pp',
    the_player (flush_one w i) = Some (pid, pb, pp')
    /\ enemyTimer pp' = enemyTimer pp
    /\ controller pp' = controller pp
    /\ speed pp' = speed pp
    /\ entities (flush_one w i) = pid :: reg_delete i rest
    /\ (forall j, j <> pid ->
                  lookup j (heap (flush_one w i)) = lookup j (heap w))
    /\ reshaped w (flush_one w i).
Proof.
  intros Hp He Hi. destruct (the_player_inv _ _ _ _ Hp) as [Hpl Hpo].
  eexists. split; [apply flush_one_player; exact Hp|].
  do 3 (split; [reflexivity|]).
  split.
  { rewrite flush_one_entities, He. now apply reg_delete_after. }
  unfold flush_one. rewrite Hp. globals. split.
  - intros j Hj. apply lookup_store_other. congruence.
  - split; [globals; lia|]. intros j e' Hj. globals.
    destruct (Nat.eq_dec j pid) as [->|Hjp].
    + rewrite lookup_store_same in Hj. inversion Hj. subst e'.
      eexists. split; [exact Hpo | split; reflexivity].
    + rewrite lookup_store_other in Hj by congruence.
      exists e'. split; [exact Hj | apply same_shape_refl].
Qed.

Lemma fold_flush_spec (q : list nat) :
  forall (w : world) (pid : nat) (pb : body) (pp : player_data)
         (rest : list nat),
    the_player w = Some (pid, pb, pp) ->
    entities w = pid :: rest ->
    ~ In pid q ->
    exists pp',
      the_player (fold_left flush_one q w) = Some (pid, pb, pp')
      /\ enemyTimer pp' = enemyTimer pp
      /\ controller pp' = controller pp
      /\ speed pp' = speed pp
      /\ entities (fold_left flush_one q w)
         = pid :: fold_left (fun l i => reg_delete i l) q rest
      /\ (forall j, j <> pid ->
            lookup j (heap (fold_left flush_one q w)) = lookup j (heap w))
      /\ reshaped w (fold_left flush_one q w).
Proof.
  induction q as [|i q IH]; intros w pid pb pp rest Hp He Hq.
  - exists pp. simpl. do 6 (split; [auto|]). apply reshaped_refl.
  - cbn [fold_left].
    destruct (flush_one_spec w i pid pb pp rest Hp He
                (fun H => Hq (or_introl H)))
      as (pp1 & Hp1 & Ht1 & Hc1 & Hs1 & He1 & Hf1 & Hh1).
    destruct (IH (flush_one w i) pid pb pp1 (reg_delete i rest) Hp1 He1
                (fun H => Hq (or_intror H)))
      as (pp2 & Hp2 & Ht2 & Hc2 & Hs2 & He2 & Hf2 & Hh2).
    exists pp2. split; [exact Hp2|].
    split; [congruence|]. split; [congruence|]. split; [congruence|].
    split; [exact He2|]. split.
    + intros j Hj. rewrite Hf2 by exact Hj. now apply Hf1.
    + eapply reshaped_trans; eassumption.
Qed.

Lemma sorted_fold_reg_delete (q : list nat) :
  forall l, StronglySorted lt l ->
            StronglySorted lt (fold_left (fun l0 i => reg_delete i l0) q l).
Proof.
  induction q as [|i q IH]; intros l Hs; simpl; [exact Hs|].
  apply IH. now apply sorted_reg_delete.
Qed.

(** The removal pass keeps the player and every object; the registry
    loses the queued ids. *)
Lemma flush_spec (w : world) (pid : nat) (pb : body) (pp : player_data)
    (rest : list nat) :
  the_player w = Some (pid, pb, pp) ->
  entities w = pid :: rest ->
  ~ In pid (queued_entities_for_removal w) ->
  exists pp' rest',
    the_player (flush w) = Some (pid, pb, pp')
    /\ enemyTimer pp' = enemyTimer pp
    /\ controller pp' = controller pp
    /\ speed pp' = speed pp
    /\ entities (flush w) = pid :: rest'
    /\ (forall k, In k rest'
                  <-> In k rest /\ ~ In k (queued_entities_for_removal w))
    /\ (StronglySorted lt (pid :: rest) -> StronglySorted lt (pid :: rest'))
    /\ (forall j, j <> pid -> lookup j (heap (flush w)) = lookup j (heap w))
    /\ reshaped w (flush w)
    /\ queued_entities_for_removal (flush w) = []
    /\ running_id (flush w) = running_id w
    /\ enemy_spawner (flush w) = enemy_spawner w.
Proof.
  intros Hp He Hq.
  destruct (fold_flush_spec (queued_entities_for_removal w) w pid pb pp rest
              Hp He Hq) as (pp' & Hp' & Ht & Hc & Hs & He' & Hf & Hh).
  destruct (flush_globals w) as (_ & Hr & Hsp & Hq0).
  exists pp', (fold_left (fun l i => reg_delete i l)
                 (queued_entities_for_removal w) rest).
  split; [exact Hp'|]. do 3 (split; [assumption|]).
  split; [exact He'|].
  split; [intro k; apply in_fold_reg_delete|].
  split.
  { intro Hso. inversion Hso as [|p0 l0 Hs' Hall]. subst p0 l0.
    constructor; [now apply sorted_fold_reg_delete|].
    rewrite Forall_forall in *. intros z Hz.
    apply in_fold_reg_delete in Hz. destruct Hz as [Hz _]. auto. }
  split; [exact Hf|]. split; [exact Hh|].
  split; [exact Hq0|]. split; assumption.
Qed.

Lemma pollController_spec (w : world) (pid : nat) (pb : body)
    (pp : player_data) :
  the_player w = Some (pid, pb, pp) ->
  the_player (pollController w)
  = Some (pid, pb, set_controller (poll (raw_input pp)) pp)
  /\ (forall j, j <> pid ->
                lookup j (heap (pollController w)) = lookup j (heap w))
  /\ entities (pollController w) = entities w
  /\ queued_entities_for_removal (pollController w)
     = queued_entities_for_removal w
  /\ running_id (pollController w) = running_id w
  /\ enemy_spawner (pollController w) = enemy_spawner w
  /\ reshaped w (pollController w).
Proof.
  intro Hp. destruct (the_player_inv _ _ _ _ Hp) as [Hpl Hpo].
  unfold pollController. rewrite Hp. globals.
  split; [apply the_player_intro; globals;
          [exact Hpl | apply lookup_store_same]|].
  split; [intros j Hj; apply lookup_store_other; congruence|].
  do 4 (split; [reflexivity|]).
  split; [globals; lia|]. intros j e' Hj. globals.
  destruct (Nat.eq_dec j pid) as [->|Hjp].
  - rewrite lookup_store_same in Hj. inversion Hj. subst e'.
    eexists. split; [exact Hpo | split; reflexivity].
  - rewrite lookup_store_other in Hj by congruence.
    exists e'. split; [exact Hj | apply same_shape_refl].
Qed.

(** *** One step, stage by stage *)

Lemma sorted_head (p : nat) (l : list nat) :
  StronglySorted lt (p :: l) ->
  NoDup l /\ ~ In p l /\ forall i, In i l -> (p < i)%nat.
Proof.
  intro Hs. inversion Hs as [|p0 l0 Hs' Hall]. subst p0 l0.
  rewrite Forall_forall in Hall. split; [|split].
  - clear Hs Hall. induction Hs' as [|a l Hl IH Ha]; constructor; [|exact IH].
    rewrite Forall_forall in Ha. intro Hin. specialize (Ha a Hin). lia.
  - intro Hin. specialize (Hall p Hin). lia.
  - exact Hall.
Qed.

Lemma update_entities_cons (dt : Q) (w : world) (pid : nat) (rest : list nat)
    (b : body) (p : player_data) :
  entities w = pid :: rest ->
  lookup pid (heap w) = Some (Player b p) ->
  update_entities dt w
  = fold_left (fun w0 i => entity_update i dt w0) rest
              (Player_update pid dt w).
Proof.
  intros He Hl. unfold update_entities. rewrite He. cbn [fold_left].
  unfold entity_update at 2. rewrite Hl. reflexivity.
Qed.

(** The world [update] leaves before it looks at the restart condition,
    in terms of the world it started from. *)
Lemma step_pipeline (dt : Q) (w : world) (pid : nat) (pb : body)
    (pp : player_data) (sb : body) (rest : list nat) :
  session w pid pb pp sb rest ->
  let w3 := flush (update_entities dt (pollController w)) in
  let w4 := entity_update (S pid) dt w3 in
  exists (ppos : point) (b4 : body) (p4 : player_data) (sb3 sb4 : body)
         (rest4 : list nat),
    session w4 pid b4 p4 sb4 rest4
    /\ update dt w = (if player_dead_and_action w4 then start w4 else w4)
    /\ position b4 = ppos
    /\ ppos = (let pos2 := integrate dt
                             (player_move (poll (raw_input pp)) (speed pp)
                                (position pb)) (velocity pb) in
               mkpoint (clip 360 (x pos2)) (clip 500 (y pos2)))
    /\ enemyTimer p4 = enemyTimer pp + 1
    /\ health b4
       = health pb
         - 25 * Z.of_nat (length (filter (touches w ppos) rest))
         - (if near 10 (enemy_move (Num.of_Z 3) ppos (position sb3)) ppos
            then 25 else 0)
    /\ (In (S pid) rest ->
        position sb3
        = enemy_place dt (enemy_move (Num.of_Z 3) ppos (position sb)) origin)
    /\ (~ In (S pid) rest -> sb3 = sb)
    /\ position sb4
       = enemy_place dt (enemy_move (Num.of_Z 3) ppos (position sb3)) origin
    /\ (forall i b', In i rest4 -> i <> S pid ->
          lookup i (heap w4) = Some (Enemy b' (Num.of_Z 3)) ->
          (exists b, regular w pid i b
                     /\ position b'
                        = enemy_place dt
                            (enemy_move (Num.of_Z 3) ppos (position b)) origin
                     /\ (y (enemy_move (Num.of_Z 3) ppos (position b))
                         >? Num.of_Z 500)%num = false)
          \/ (Z.rem (enemyTimer pp + 1) 20 = 0
              /\ i = running_id w
              /\ (forall k, In k rest -> (k < i)%nat)
              /\ y (position b') = Num.of_Z (-50)))
    /\ (In (S pid) rest4 ->
        In (S pid) rest
        /\ ~ In (S pid) (queued_entities_for_removal w)
        /\ near 10 (enemy_move (Num.of_Z 3) ppos (position sb)) ppos = false)
    /\ (near 10 (enemy_move (Num.of_Z 3) ppos (position sb3)) ppos = true ->
        In (S pid) (queued_entities_for_removal w4)).
Proof.
  intros [Ht Hpl Hspl Hpo Hso He Hsort Hbelow Hq Hlast Hbox Htimer] w3 w4.
  subst w4 w3.
  pose proof (the_player_intro w pid pb pp Hpl Hpo) as Hp.
  destruct (sorted_head pid rest Hsort) as (Hnd & Hpid & Hgt).
  pose proof (tidy_below w Ht _ _ Hpo) as Hpidr.
  pose proof (tidy_below w Ht _ _ Hso) as Hsr.
  (* polling *)
  destruct (pollController_spec w pid pb pp Hp)
    as (Hp1 & Hf1 & He1 & Hq1 & Hr1 & Hs1 & Hsh1).
  set (w1 := pollController w) in *.
  pose proof (tidy_reshaped w w1 Ht Hsh1) as Ht1.
  rewrite He in He1.
  destruct (the_player_inv _ _ _ _ Hp1) as [Hpl1 Hpo1].
  (* the player's update *)
  rewrite (update_entities_cons dt w1 pid rest _ _ He1 Hpo1).
  assert (Hbelow1 : forall k, In k rest -> (k < running_id w1)%nat)
    by (intros k Hk; rewrite Hr1; now apply Hbelow).
  destruct (Player_update_spec dt w1 pid pb _ rest Hp1 (tidy_below w1 Ht1) He1
              Hbelow1)
    as (bp & ppp & rest_p & Hpp & Hposp & Hvelp & Hhp & Htp & Hcp & Hspp & Hqp
        & Hsplp & Hrp & Hbp & Hfp & Hnewp & Hep & Hrestp & Hkeptp & Hbelowp
        & Hsortp).
  pose proof (tidy_Player_update dt w1 pid pb _ rest Hp1 Ht1 He1 Hbelow1)
    as Htp'.
  set (wp := Player_update pid dt w1) in *.
  rewrite Hr1 in *.
  (* the entity pass *)
  assert (Hsame_p : forall i, In i rest -> lookup i (heap wp) = lookup i (heap w)).
  { intros i Hi. rewrite Hfp.
    - apply Hf1. intro; subst; contradiction.
    - apply Hbelow. exact Hi.
    - intro; subst; contradiction. }
  assert (Hnop : forall i b p, In i rest -> lookup i (heap wp) <> Some (Player b p)).
  { intros i b p Hi Hl. rewrite (Hsame_p i Hi) in Hl.
    pose proof (Hlast i b p Hl). pose proof (Hgt i Hi). lia. }
  destruct (entity_pass_spec dt rest wp pid bp ppp Hpp Hnd Hpid Hnop)
    as [(b2 & p2 & Hp2 & Hpos2 & Hvel2 & Hh2 & Ht2 & Hc2 & Hsp2)
          He2 Hr2 Hsl2 Hfr2 Hen2 Hpr2 Hno2 Hsh2 Hqk2 Hqn2].
  set (w2 := fold_left (fun w0 i => entity_update i dt w0) rest wp) in *.
  pose proof (tidy_reshaped wp w2 Htp' Hsh2) as Ht2'.
  rewrite Hep in He2.
  assert (Hq2 : ~ In pid (queued_entities_for_removal w2)).
  { intro Hin. destruct (Hqn2 pid Hin) as [H|H]; [|contradiction].
    rewrite Hqp, Hq1 in H. contradiction. }
  (* the removal pass *)
  destruct (flush_spec w2 pid b2 p2 rest_p Hp2 He2 Hq2)
    as (p3 & rest3 & Hp3 & Ht3 & Hc3 & Hsp3 & He3 & Hin3 & Hsort3 & Hf3 & Hsh3
        & Hq3 & Hr3 & Hsl3).
  pose proof (tidy_reshaped w2 (flush w2) Ht2' Hsh3) as Ht3'.
  set (w3 := flush w2) in *.
  (* the spawner, before its second update *)
  assert (Hsb3 : exists sb3,
             lookup (S pid) (heap w3) = Some (Enemy sb3 (Num.of_Z 3))
             /\ (In (S pid) rest ->
                 position sb3
                 = enemy_place dt (enemy_move (Num.of_Z 3) (position bp)
                                     (position sb)) origin
                 /\ (near 10 (enemy_move (Num.of_Z 3) (position bp)
                                (position sb)) (position bp) = true ->
                     In (S pid) (queued_entities_for_removal w2)))
             /\ (~ In (S pid) rest -> sb3 = sb)).
  { rewrite Hf3 by lia.
    assert (Hlp : lookup (S pid) (heap wp) = Some (Enemy sb (Num.of_Z 3))).
    { rewrite Hfp by lia. rewrite Hf1 by lia. exact Hso. }
    destruct (in_dec Nat.eq_dec (S pid) rest) as [Hin|Hnin].
    - destruct (Hen2 (S pid) sb _ Hin Hlp) as [Hl2 Hq2'].
      destruct (tidy_enemies w Ht _ _ _ Hso) as [_ Hv]. rewrite Hv in Hl2.
      eexists. split; [exact Hl2|]. split.
      + intros _. split; [reflexivity|]. intro Hn. apply Hq2'. now right.
      + intro; contradiction.
    - exists sb. split.
      + rewrite Hfr2 by (assumption || lia). exact Hlp.
      + split; [intro; contradiction | reflexivity]. }
  destruct Hsb3 as (sb3 & Hl3 & Hsin & Hsout).
  destruct (tidy_enemies _ Ht3' _ _ _ Hl3) as [_ Hv3].
  (* the spawner's second update *)
  assert (Hnp3 : forall b p, lookup (S pid) (heap w3) <> Some (Player b p))
    by (intros b p; rewrite Hl3; discriminate).
  destruct (entity_step dt w3 pid b2 p3 (S pid) Hp3 ltac:(lia) Hnp3)
    as (b4 & p4 & Hp4 & Hpos4 & Hvel4 & Hh4 & Ht4 & Hc4 & Hsp4 & He4 & Hr4
        & Hsl4 & Hfr4 & Hen4 & Hpr4 & Hno4 & Hsh4 & Hqk4 & Hqn4).
  pose proof (tidy_reshaped w3 _ Ht3' Hsh4) as Ht4'.
  set (w4 := entity_update (S pid) dt w3) in *.
  destruct (Hen4 sb3 _ Hl3) as [Hl4 Hq4]. cbv zeta in Hl4, Hq4.
  rewrite Hv3 in Hl4.
  destruct (the_player_inv _ _ _ _ Hp4) as [Hpl4 Hpo4].
  assert (Ets : touches w3 (position b2) (S pid)
                = near 10 (enemy_move (Num.of_Z 3) (position b2) (position sb3))
                       (position b2))
    by (unfold touches; rewrite Hl3; reflexivity).
  assert (Hcount : filter (touches wp (position bp)) rest
                   = filter (touches w (position bp)) rest).
  { apply filter_ext_in. intros i Hi. unfold touches.
    now rewrite (Hsame_p i Hi). }
  exists (position bp), b4, p4, sb3,
         (set_position (enemy_place dt (enemy_move (Num.of_Z 3) (position b2)
                                          (position sb3)) origin) sb3),
         rest3.
  rewrite Hpos2 in *.
  split.
  { (* the session goes on *)
    constructor.
    - exact Ht4'.
    - exact Hpl4.
    - rewrite Hsl4, Hsl3, Hsl2, Hsplp, Hs1. exact Hspl.
    - exact Hpo4.
    - exact Hl4.
    - rewrite He4. exact He3.
    - apply Hsort3. apply Hsortp. exact Hsort.
    - intros i Hi. apply Hin3 in Hi. destruct Hi as [Hi _].
      rewrite Hr4, Hr3, Hr2. now apply Hbelowp.
    - intro Hin. destruct (Hqn4 pid Hin) as [H|H]; [|lia].
      rewrite Hq3 in H. contradiction.
    - intros i b p Hl. destruct (proj2 Hsh4 i _ Hl) as (e3 & L3 & S3).
      destruct (proj2 Hsh3 i _ L3) as (e2 & L2 & S2').
      destruct (proj2 Hsh2 i _ L2) as (ep & Lp & Sp).
      destruct e3 as [b3' p3'| |]; simpl in S3; try contradiction.
      destruct e2 as [b2' p2'| |]; simpl in S2'; try contradiction.
      destruct ep as [bp' pp'| |]; simpl in Sp; try contradiction.
      destruct (Nat.eq_dec i pid) as [->|Hn]; [lia|].
      destruct (Nat.lt_ge_cases i (running_id w)) as [Hi|Hi].
      + rewrite Hfp in Lp by assumption. rewrite Hf1 in Lp by assumption.
        exact (Hlast i _ _ Lp).
      + destruct (Hnewp i _ Hi Lp)
          as [(b0 & s0 & pr0 & E)|(_ & _ & b0 & E & _)]; discriminate.
    - rewrite Hpos4, Hposp. apply in_box_clip; reflexivity.
    - rewrite Ht4, Ht3, Ht2, Htp. cbn [enemyTimer set_controller]. lia. }
  split.
  { unfold update. fold w1.
    rewrite (update_entities_cons dt w1 pid rest _ _ He1 Hpo1).
    fold wp. fold w2. fold w3.
    assert (E : enemy_spawner w3 = Some (S pid))
      by (rewrite Hsl3, Hsl2, Hsplp, Hs1; exact Hspl).
    rewrite E. reflexivity. }
  split; [exact Hpos4|].
  split; [exact Hposp|].
  split; [rewrite Ht4, Ht3, Ht2, Htp; reflexivity|].
  split.
  { rewrite Hh4, Hh2, Hhp, Ets, Hcount. reflexivity. }
  split; [intro Hin; exact (proj1 (Hsin Hin))|].
  split; [exact Hsout|].
  split; [reflexivity|].
  split.
  { intros i b' Hi Hns Hl.
    assert (Hnp : i <> pid).
    { intro; subst i. rewrite Hpo4 in Hl. discriminate. }
    rewrite Hfr4 in Hl by assumption. rewrite Hf3 in Hl by assumption.
    apply Hin3 in Hi. destruct Hi as [Hi Hnq].
    destruct (Hrestp i Hi) as [Hold|Hnew].
    - left. pose proof (Hsame_p i Hold) as Hsm.
      destruct (lookup i (heap w)) as [[b0 p0|b0 s0 pr0|b0 s0]|] eqn:E.
      + exfalso. exact (Hnop i b0 p0 Hold Hsm).
      + destruct (Hpr2 i b0 s0 pr0 Hold Hsm) as (b1 & pr1 & H1).
        rewrite H1 in Hl. discriminate.
      + destruct (Hen2 i b0 s0 Hold Hsm) as [H1 Hq1'].
        rewrite H1 in Hl. inversion Hl. subst s0.
        destruct (tidy_enemies w Ht _ _ _ E) as [_ Hv]. rewrite Hv.
        exists b0. split; [|split; [reflexivity|]].
        * split; [rewrite He; now right|]. split; [exact Hns | exact E].
        * destruct (y (enemy_move (Num.of_Z 3) (position bp) (position b0))
                    >? Num.of_Z 500)%num eqn:Ey; [|reflexivity].
          exfalso. apply Hnq. apply Hq1'. now left.
      + rewrite (Hno2 i Hold Hsm) in Hl. discriminate.
    - right. assert (Hnin : ~ In i rest).
      { intro H. specialize (Hbelow i H). lia. }
      rewrite Hfr2 in Hl by assumption.
      destruct (Hnewp i _ Hnew Hl)
        as [(b0 & s0 & pr0 & E)|(Hir & Hrem & b0 & E & _ & Hy)]; [discriminate|].
      inversion E. subst b0. split; [|split; [exact Hir|split; [|exact Hy]]].
      + cbn [enemyTimer set_controller] in Hrem. exact Hrem.
      + intros k Hk. specialize (Hbelow k Hk). lia. }
  split.
  { intro Hin. apply Hin3 in Hin. destruct Hin as [Hin Hnq].
    destruct (Hrestp _ Hin) as [Hold|Hnew]; [|lia].
    split; [exact Hold|]. split.
    - intro Hq0. apply Hnq. apply Hqk2. rewrite Hqp, Hq1. exact Hq0.
    - destruct (near 10 (enemy_move (Num.of_Z 3) (position bp) (position sb))
                     (position bp)) eqn:En; [|reflexivity].
      exfalso. apply Hnq. exact (proj2 (Hsin Hold) eq_refl). }
  intro Hn. apply Hq4. now right.
Qed.

(* ------------------------------------------------------------------ *)
(** ** The spacing in real numbers *)
(* ------------------------------------------------------------------ *)

Module Spacing.
Import Reals Qreals Lra NumReal Reading.
Local Open Scope R_scope.

Lemma sqrt2_bounds : 14142 / 10000 < sqrt 2 < 14143 / 10000.
Proof.
  pose proof sqrt2_sq as Hs. pose proof sqrt2_pos as Hp.
  split.
  - destruct (Rlt_le_dec (14142 / 10000) (sqrt 2)) as [H|H]; [exact H|].
    exfalso. assert (sqrt 2 * sqrt 2 <= 14142 / 10000 * (14142 / 10000)) by nra.
    lra.
  - destruct (Rlt_le_dec (sqrt 2) (14143 / 10000)) as [H|H]; [exact H|].
    exfalso. assert (14143 / 10000 * (14143 / 10000) <= sqrt 2 * sqrt 2) by nra.
    lra.
Qed.

Lemma to_R_mk (a b : Q) : to_R (Num.mk a b) = Q2R a + Q2R b * sqrt 2.
Proof. reflexivity. Qed.

(** An enemy of speed 3 moves down by 3 or by [2 * sqrt 2]. *)
Lemma enemy_move_y (ppos epos : point) :
  ry (enemy_move (Num.of_Z 3) ppos epos) = ry epos + 3
  \/ ry (enemy_move (Num.of_Z 3) ppos epos) = ry epos + 2 * sqrt 2.
Proof.
  unfold enemy_move, ry.
  assert (E : (enemy_diagonalSpeed (Num.of_Z 3) / Num.of_Q (3 # 2))%num
              = Num.mk 0 2) by (vm_compute; reflexivity).
  rewrite E.
  assert (E2 : to_R (Num.mk 0 2) = 2 * sqrt 2).
  { rewrite to_R_mk. replace (Q2R 0) with 0 by (unfold Q2R; simpl; lra).
    replace (Q2R 2) with 2 by (unfold Q2R; simpl; lra). lra. }
  destruct (homing ppos epos).
  - right. destruct (x ppos >? x epos)%num; cbn [y]; rewrite to_R_add, E2; reflexivity.
  - left. cbn [y]. rewrite to_R_add, to_R_of_Z. reflexivity.
Qed.

Lemma enemy_move_y_bounds (ppos epos : point) :
  ry epos + 282 / 100 <= ry (enemy_move (Num.of_Z 3) ppos epos) <= ry epos + 3.
Proof.
  pose proof sqrt2_bounds.
  destruct (enemy_move_y ppos epos) as [-> | ->]; lra.
Qed.

Lemma to_R_clip (bound : Z) (v : Num.num) :
  to_R (clip bound v) = Rmin (Rmax 0 (to_R v)) (IZR bound).
Proof.
  unfold clip. rewrite min_sound, max_sound, !to_R_of_Z. reflexivity.
Qed.

Lemma to_R_origin_y : to_R (y origin) = 0.
Proof. unfold origin. cbn [y]. apply to_R_of_Z. Qed.

Lemma integrate_origin_y (dt : Q) (pos : point) :
  ry (integrate dt pos origin) = ry pos.
Proof.
  unfold integrate, ry. cbn [y]. rewrite to_R_add, to_R_mul, to_R_origin_y. ring.
Qed.

(** Where [Enemy.update] leaves an enemy without velocity. *)
Lemma enemy_place_y (dt : Q) (pos1 : point) :
  ry (enemy_place dt pos1 origin) = Rmin (Rmax 0 (ry pos1)) 550.
Proof.
  unfold enemy_place. unfold ry at 1. cbn [y]. rewrite to_R_clip.
  fold (ry (integrate dt pos1 origin)). rewrite integrate_origin_y.
  reflexivity.
Qed.

Lemma near_y (r : Z) (a b : point) :
  near r a b = true -> ry b - IZR r <= ry a <= ry b + IZR r.
Proof.
  unfold near, ry. intro H.
  apply andb_prop in H. destruct H as [H H4].
  apply andb_prop in H. destruct H as [H H3].
  apply geb_sound in H3. apply leb_sound in H4.
  rewrite to_R_add, to_R_of_Z in H3. rewrite to_R_sub, to_R_of_Z in H4. lra.
Qed.

Lemma gtb_false (u v : Num.num) : Num.gtb u v = false -> to_R u <= to_R v.
Proof.
  intro H. destruct (Rle_lt_dec (to_R u) (to_R v)) as [L|L]; [exact L|].
  apply gtb_sound in L. congruence.
Qed.

(** The player's step: at most 2 down, and clipped to the canvas. *)
Lemma player_move_y (c : controller_state) (pos : point) :
  ry pos - 2 <= ry (player_move c (Num.of_Z 2) pos) <= ry pos + 2.
Proof.
  pose proof sqrt2_bounds.
  unfold player_move, ry.
  assert (E : Num.sqrt ((Num.of_Z 2 * Num.of_Z 2) / Num.of_Z 2)%num
              = Num.mk 0 1) by (vm_compute; reflexivity).
  rewrite E.
  assert (E2 : to_R (Num.mk 0 1) = sqrt 2).
  { rewrite to_R_mk. replace (Q2R 0) with 0 by (unfold Q2R; simpl; lra).
    replace (Q2R 1) with 1 by (unfold Q2R; simpl; lra). lra. }
  repeat match goal with
         | |- context [if ?c then _ else _] => destruct c
         end; cbn [y]; rewrite ?to_R_add, ?to_R_sub, ?E2, ?to_R_of_Z; lra.
Qed.


Lemma Q2R_3_50 : Q2R (3 # 50) = 6 / 100.
Proof. unfold Q2R. simpl. lra. Qed.

Lemma ahead_real (a b : Num.num) :
  ahead a b <-> (b = Num.of_Z (-50) /\ 53 <= to_R a)
                \/ (0 <= to_R b /\ 55 - 6 / 100 * to_R b <= to_R a - to_R b).
Proof.
  unfold ahead.
  rewrite !leb_sound, to_R_sub, to_R_sub, to_R_mul, to_R_of_Q, !to_R_of_Z.
  rewrite Q2R_3_50. reflexivity.
Qed.

Lemma ahead_aheadR (a b : Num.num) : ahead a b -> aheadR (to_R a) (to_R b).
Proof.
  rewrite ahead_real. intros [[-> H]|H]; [left | right; exact H].
  split; [|exact H]. rewrite to_R_of_Z. reflexivity.
Qed.

Lemma to_R_tick_floor (m : Z) : to_R (tick_floor m) = 14 / 5 * (IZR m - 1).
Proof.
  unfold tick_floor. rewrite to_R_of_Q, Q2R_mult, Q2R_inject_Z, minus_IZR.
  replace (Q2R (14 # 5)) with (14 / 5) by (unfold Q2R; simpl; lra).
  reflexivity.
Qed.

(** An older enemy that moves on by at least 2.82 stays ahead of a
    younger one that moves on by at most 3 (or from [-50] to 0). *)
Lemma aheadR_step (a b a' b' : R) :
  aheadR a b -> a + 282 / 100 <= a' ->
  (b = -50 /\ b' = 0) \/ (0 <= b /\ b <= b' <= b + 3) ->
  0 <= b' /\ 55 - 6 / 100 * b' <= a' - b'.
Proof. unfold aheadR. intros [[Hb Ha]|[Hb Ha]] Ha' [[Hb0 Hb']|[Hb0 Hb']]; lra. Qed.

(** Two enemies of which one is ahead of the other do not both touch
    the player on one step. *)
Lemma aheadR_apart (a b a1 b1 p : R) :
  aheadR a b -> b <= 500 -> a + 282 / 100 <= a1 -> b1 <= b + 3 ->
  0 <= p -> p - 10 <= a1 <= p + 10 -> p - 10 <= b1 <= p + 10 -> False.
Proof. unfold aheadR. intros [[Hb Ha]|[Hb Ha]]; intros; lra. Qed.

Lemma clip_y_cases (v : R) :
  0 <= v -> (Rmin (Rmax 0 v) 550 = v /\ v <= 550)
            \/ (Rmin (Rmax 0 v) 550 = 550 /\ 550 < v).
Proof.
  intro Hv. unfold Rmin, Rmax.
  destruct (Rle_dec 0 v); [|lra].
  destruct (Rle_dec v 550); [left | right]; lra.
Qed.

Lemma clip_y_low (v : R) : v <= 0 -> Rmin (Rmax 0 v) 550 = 0.
Proof.
  intro Hv. unfold Rmin, Rmax.
  destruct (Rle_dec 0 v).
  - assert (v = 0) by lra. subst. destruct (Rle_dec 0 550); lra.
  - destruct (Rle_dec 0 550); lra.
Qed.

Lemma in_box_y (w h : Z) (pt : point) :
  in_box w h pt = true -> 0 <= ry pt <= IZR h.
Proof.
  unfold in_box, ry. intro H.
  apply andb_prop in H. destruct H as [H H4].
  apply andb_prop in H. destruct H as [H H3].
  apply leb_sound in H3, H4. rewrite to_R_of_Z in H3, H4. lra.
Qed.

(** *** The spacing goes on *)

Ltac realize :=
  repeat match goal with
         | H : Num.leb _ _ = true |- _ => apply leb_sound in H
         | H : Num.ltb _ _ = true |- _ => apply ltb_sound in H
         | H : Num.geb _ _ = true |- _ => apply geb_sound in H
         | H : Num.gtb _ _ = true |- _ => apply gtb_sound in H
         | H : Num.gtb _ _ = false |- _ => apply gtb_false in H
         end;
  repeat match goal with
         | H : context [to_R (Num.of_Z _)] |- _ => rewrite to_R_of_Z in H
         | H : context [to_R (Num.add _ _)] |- _ => rewrite to_R_add in H
         | H : context [to_R (Num.sub _ _)] |- _ => rewrite to_R_sub in H
         | H : context [to_R (tick_floor _)] |- _ => rewrite to_R_tick_floor in H
         end.

(** One update of an enemy of speed 3 without velocity, in real
    numbers. *)
Lemma enemy_update_y (dt : Q) (ppos : point) (pos pos' : point) :
  pos' = enemy_place dt (enemy_move (Num.of_Z 3) ppos pos) origin ->
  let y1 := ry (enemy_move (Num.of_Z 3) ppos pos) in
  ry pos + 282 / 100 <= y1 <= ry pos + 3
  /\ ry pos' = Rmin (Rmax 0 y1) 550.
Proof.
  intros -> y1. split; [apply enemy_move_y_bounds | apply enemy_place_y].
Qed.

Lemma Rclip_bounds (v : R) : 0 <= Rmin (Rmax 0 v) 550 <= 550.
Proof.
  unfold Rmin, Rmax. destruct (Rle_dec 0 v); destruct (Rle_dec _ 550); lra.
Qed.

(** After an update an enemy that was at [y >= 0] is 2.82 further down,
    or at the bottom. *)
Lemma Rclip_advance (y0 y1 : R) :
  0 <= y0 -> y0 + 282 / 100 <= y1 ->
  (Rmin (Rmax 0 y1) 550 = y1 /\ y1 <= 550)
  \/ (Rmin (Rmax 0 y1) 550 = 550 /\ 550 < y1).
Proof. intros H0 H1. apply clip_y_cases. lra. Qed.

Lemma player_step_y (dt : Q) (c : controller_state) (pb : body) :
  velocity pb = origin ->
  in_box 360 500 (position pb) = true ->
  let pos2 := integrate dt (player_move c (Num.of_Z 2) (position pb))
                        (velocity pb) in
  let ppos := mkpoint (clip 360 (x pos2)) (clip 500 (y pos2)) in
  0 <= ry ppos <= 500 /\ ry ppos <= ry (position pb) + 2.
Proof.
  intros Hv Hb pos2 ppos.
  pose proof (in_box_y _ _ _ Hb) as [H0 H5].
  pose proof (player_move_y c (position pb)) as [Hm1 Hm2].
  assert (E : ry ppos = Rmin (Rmax 0 (ry pos2)) 500).
  { unfold ppos, ry. cbn [y]. apply to_R_clip. }
  assert (E2 : ry pos2 = ry (player_move c (Num.of_Z 2) (position pb))).
  { unfold pos2. rewrite Hv. apply integrate_origin_y. }
  rewrite E, E2. unfold Rmin, Rmax.
  destruct (Rle_dec 0 _); destruct (Rle_dec _ 500); lra.
Qed.

Lemma mod_succ (T : Z) :
  (0 <= T)%Z ->
  ((T + 1) mod 20 = if T mod 20 =? 19 then 0 else T mod 20 + 1)%Z.
Proof.
  intro HT.
  pose proof (Z.mod_pos_bound T 20 ltac:(lia)) as Hb.
  pose proof (Z.div_mod T 20 ltac:(lia)) as Hd.
  destruct (T mod 20 =? 19)%Z eqn:E; rewrite ?Z.eqb_eq, ?Z.eqb_neq in E;
    symmetry.
  - apply (Z.mod_unique (T + 1) 20 (T / 20 + 1) 0); lia.
  - apply (Z.mod_unique (T + 1) 20 (T / 20) (T mod 20 + 1)); lia.
Qed.

Lemma rem_succ (T : Z) :
  (0 <= T)%Z ->
  let m := (if Z.rem T 20 =? 0 then 20 else Z.rem T 20)%Z in
  (1 <= m <= 20)%Z
  /\ ((if Z.rem (T + 1) 20 =? 0 then 20 else Z.rem (T + 1) 20)
      = if m =? 20 then 1 else m + 1)%Z
  /\ (Z.rem (T + 1) 20 = 0 -> m = 19 /\ 20 <= T + 1)%Z
  /\ (Z.rem T 20 = 0 -> Z.rem (T + 1) 20 = 1)%Z.
Proof.
  intros HT m. unfold m.
  rewrite !Z.rem_mod_nonneg by lia. rewrite (mod_succ T HT).
  pose proof (Z.mod_pos_bound T 20 ltac:(lia)) as Hb.
  pose proof (Z.div_mod T 20 ltac:(lia)) as Hd.
  assert (Hq : (0 <= T / 20)%Z) by (apply Z.div_pos; lia).
  destruct (T mod 20 =? 19)%Z eqn:E19; rewrite ?Z.eqb_eq, ?Z.eqb_neq in E19;
    destruct (T mod 20 =? 0)%Z eqn:E0; rewrite ?Z.eqb_eq, ?Z.eqb_neq in E0;
    cbn [Z.eqb]; try lia.
  - rewrite E19. cbn. repeat split; lia.
  - replace (T mod 20 + 1 =? 0)%Z with false
      by (symmetry; apply Z.eqb_neq; lia).
    rewrite E0. cbn. repeat split; lia.
  - replace (T mod 20 + 1 =? 0)%Z with false
      by (symmetry; apply Z.eqb_neq; lia).
    replace (T mod 20 =? 20)%Z with false
      by (symmetry; apply Z.eqb_neq; lia).
    repeat split; lia.
Qed.

Lemma regular_old (w : world) (pid i : nat) (b : body) (rest : list nat)
    (pb : body) (pp : player_data) :
  entities w = pid :: rest ->
  lookup pid (heap w) = Some (Player pb pp) ->
  regular w pid i b -> In i rest.
Proof.
  intros He Hpo (Hin & _ & Hl). rewrite He in Hin.
  destruct Hin as [<-|Hin]; [congruence | exact Hin].
Qed.

Lemma touches_enemy (w : world) (ppos : point) (i : nat) :
  tidy w -> touches w ppos i = true ->
  exists b, lookup i (heap w) = Some (Enemy b (Num.of_Z 3))
            /\ near 10 (enemy_move (Num.of_Z 3) ppos (position b)) ppos = true.
Proof.
  intros Ht. unfold touches.
  destruct (lookup i (heap w)) as [[b p|b s pr|b s]|] eqn:E; try discriminate.
  intro Hn. destruct (tidy_enemies w Ht _ _ _ E) as [-> _].
  exists b. split; [reflexivity | exact Hn].
Qed.

(** What one step makes of a session whose enemies are spaced. *)
Lemma spaced_step (dt : Q) (w : world) (pid : nat) (pb : body)
    (pp : player_data) (sb : body) (rest : list nat) :
  session w pid pb pp sb rest -> spaced w pid pb pp sb ->
  let w4 := entity_update (S pid) dt
              (flush (update_entities dt (pollController w))) in
  exists b4 p4 sb4 rest4,
    session w4 pid b4 p4 sb4 rest4
    /\ spaced w4 pid b4 p4 sb4
    /\ step_ok (health pb) (health b4)
    /\ update dt w = (if player_dead_and_action w4 then start w4 else w4).
Proof.
  intros Hses Hsp w4.
  destruct (step_pipeline dt w pid pb pp sb rest Hses)
    as (ppos & b4 & p4 & sb3 & sb4 & rest4 & Hses4 & Hupd & Hpos4 & Hppos
        & Htim4 & Hh4 & Hs_in & Hs_out & Hsb4 & Hclass & Hreg_s & Hq_s).
  fold w4 in Hses4, Hupd, Hclass, Hq_s.
  destruct Hsp as [SPs SPr SPas SPa SPd].
  pose proof Hses as [Ht Hpl Hspl Hpo Hso He Hsort Hbelow Hq Hlast Hbox Htimer].
  destruct (tidy_players w Ht _ _ _ Hpo) as [Hvp Hspd].
  assert (Hpy : 0 <= ry ppos <= 500 /\ ry ppos <= ry (position pb) + 2)
    by (rewrite Hppos, Hspd; apply player_step_y; assumption).
  destruct Hpy as [[Hpy0 Hpy5] Hpy2].
  destruct (enemy_update_y dt ppos (position sb3) (position sb4) Hsb4)
    as [Hm4 Hc4].
  set (ys := ry (position sb)) in *.
  set (ys3 := ry (position sb3)) in *.
  set (ys4 := ry (position sb4)) in *.
  set (y14 := ry (enemy_move (Num.of_Z 3) ppos (position sb3))) in *.
  set (py := ry ppos) in *.
  assert (HS3 : ys3 = ys
                \/ (In (S pid) rest
                    /\ ys + 282 / 100
                       <= ry (enemy_move (Num.of_Z 3) ppos (position sb))
                       <= ys + 3
                    /\ ys3 = Rmin (Rmax 0 (ry (enemy_move (Num.of_Z 3) ppos
                                                 (position sb)))) 550)).
  { destruct (in_dec Nat.eq_dec (S pid) rest) as [Hin|Hnin].
    - right. split; [exact Hin|].
      exact (enemy_update_y dt ppos (position sb) (position sb3) (Hs_in Hin)).
    - left. unfold ys3. now rewrite (Hs_out Hnin). }
  assert (Hadv : 0 <= ys -> ys + 282 / 100 <= ys4 \/ ys4 = 550).
  { intro H0. destruct HS3 as [E3|(_ & Hm3 & Hc3)].
    - destruct (Rclip_advance ys3 y14 ltac:(lra) (proj1 Hm4)) as [[E _]|[E _]];
        [left | right]; rewrite Hc4, E; lra.
    - destruct (Rclip_advance ys _ H0 (proj1 Hm3)) as [[E _]|[E _]];
        rewrite E in Hc3;
        destruct (Rclip_advance ys3 y14 ltac:(lra) (proj1 Hm4))
          as [[E' L']|[E' L']]; rewrite E' in Hc4;
        first [left; lra | right; lra]. }
  pose proof (Rclip_bounds y14) as Hb4. rewrite <- Hc4 in Hb4.
  pose proof Hses4 as [Ht4 Hpl4 Hspl4 Hpo4 Hso4 He4 Hsort4 Hbelow4 Hq4 Hlast4
                         Hbox4 Htimer4].
  set (T := enemyTimer pp) in *.
  destruct (rem_succ T Htimer) as (Hm & Hm4' & Hnew20 & Hrem1).
  set (m := (if Z.rem T 20 =? 0 then 20 else Z.rem T 20)%Z) in *.
  (* the registered enemies after the step *)
  assert (Hcases : forall i b', regular w4 pid i b' ->
            (exists b, regular w pid i b /\ In i rest
               /\ ((y (position b) = Num.of_Z (-50) /\ Z.rem T 20 = 0%Z
                    /\ ry (position b') = 0)
                   \/ (0 <= ry (position b)
                       /\ 14 / 5 * (IZR m - 1) <= ry (position b)
                       /\ ry (position b) + 282 / 100 <= ry (position b')
                          <= ry (position b) + 3
                       /\ ry (position b') <= 500
                       /\ ry (enemy_move (Num.of_Z 3) ppos (position b))
                          = ry (position b'))))
            \/ (Z.rem (T + 1) 20 = 0%Z /\ i = running_id w
                /\ (forall k, In k rest -> (k < i)%nat)
                /\ y (position b') = Num.of_Z (-50))).
  { intros i b' (Hin & Hns & Hl). rewrite He4 in Hin.
    destruct Hin as [<-|Hin]; [congruence|].
    destruct (Hclass i b' Hin Hns Hl)
      as [(b & Hreg & Hpos' & Hy500)|Hnew]; [left | right; exact Hnew].
    exists b. split; [exact Hreg|].
    split; [exact (regular_old w pid i b rest pb pp He Hpo Hreg)|].
    destruct (enemy_update_y dt ppos (position b) (position b') Hpos')
      as [Hmv Hcl].
    destruct (SPr i b Hreg) as [H500 Hlow]. realize.
    destruct Hlow as [[Hr0 Hy]|Hlow].
    - left. split; [exact Hy|]. split; [exact Hr0|].
      rewrite Hcl. apply clip_y_low.
      assert (E : ry (position b) = -50)
        by (unfold ry; rewrite Hy; apply to_R_of_Z).
      lra.
    - right. realize. fold m in Hlow. fold (ry (position b)) in Hlow, H500.
      assert (Hm1 : 1 <= IZR m) by (apply IZR_le; lia).
      assert (H0 : 0 <= ry (position b)) by lra.
      fold (ry (enemy_move (Num.of_Z 3) ppos (position b))) in Hy500.
      destruct (Rclip_advance _ _ H0 (proj1 Hmv)) as [[E _]|[E L]]; [|lra].
      rewrite E in Hcl. rewrite Hcl. repeat split; lra. }
  exists b4, p4, sb4, rest4.
  split; [exact Hses4|]. split; [|split; [|exact Hupd]].
  - (* the spacing *)
    assert (SPs4 : 14 / 5 * (IZR (Z.min (T + 1) 20) - 1) <= ys4).
    { destruct SPs as [[HT0 Hy]|[HT1 Hlow]].
      - fold T in HT0. replace (Z.min (T + 1) 20) with 1%Z by lia. lra.
      - realize. change (to_R (y (position sb))) with ys in Hlow.
        assert (Ha : (1 <= Z.min T 20 <= 20)%Z) by lia.
        assert (Ha' : (Z.min (T + 1) 20 <= Z.min T 20 + 1)%Z) by lia.
        assert (Ha20 : (Z.min (T + 1) 20 <= 20)%Z) by lia.
        destruct Ha as [Ha1 Ha2].
        apply IZR_le in Ha1, Ha2, Ha', Ha20. rewrite plus_IZR in Ha'.
        destruct (Hadv ltac:(lra)); lra. }
    constructor.
    + right. rewrite Htim4. split; [lia|].
      apply leb_sound. rewrite to_R_tick_floor. exact SPs4.
    + (* registered enemies have moved on *)
      intros i b' Hreg4. rewrite Htim4. fold T.
      destruct (Hcases i b' Hreg4)
        as [(b & Hreg & Hin & [(Hy & Hr0 & Hy')|(H0 & Hlow & Hmv & H500 & _)])
           |(Hr & _ & _ & Hy)].
      * split.
        -- apply leb_sound. rewrite to_R_of_Z. fold (ry (position b')). lra.
        -- right. apply leb_sound. rewrite to_R_tick_floor.
           fold (ry (position b')). rewrite (Hrem1 Hr0). cbn [Z.eqb]. lra.
      * split.
        -- apply leb_sound. rewrite to_R_of_Z. fold (ry (position b')). lra.
        -- right. apply leb_sound. rewrite to_R_tick_floor.
           fold (ry (position b')). rewrite Hm4'.
           assert (Hm1 : 1 <= IZR m) by (apply IZR_le; lia).
           destruct (m =? 20)%Z; [|rewrite plus_IZR]; lra.
      * split; [rewrite Hy; reflexivity|]. left. split; [exact Hr | exact Hy].
    + (* the spawner stays ahead *)
      intros i b' Hreg4.
      destruct (Hcases i b' Hreg4)
        as [(b & Hreg & Hin & Hmove)|(Hr & _ & _ & Hy)].
      * destruct (SPas i b Hreg) as [Hah|H511].
        -- apply ahead_aheadR in Hah.
           change (to_R (y (position sb))) with ys in Hah.
           fold (ry (position b)) in Hah.
           assert (Hys0 : 0 <= ys) by (destruct Hah as [[? ?]|[? ?]]; lra).
           destruct (Hadv Hys0) as [Hge|H550].
           ++ left. apply ahead_real. right.
              apply (aheadR_step ys (ry (position b)) ys4 (ry (position b'))
                       Hah Hge).
              destruct Hmove as [(Hy & _ & Hy')|(H0 & _ & Hmv & _)].
              ** left. split; [unfold ry; rewrite Hy; apply to_R_of_Z | exact Hy'].
              ** right. split; [exact H0 | lra].
           ++ right. apply leb_sound. rewrite to_R_of_Z.
              change (to_R (y (position sb4))) with ys4. lra.
        -- right. realize. change (to_R (y (position sb))) with ys in H511.
           apply leb_sound. rewrite to_R_of_Z.
           change (to_R (y (position sb4))) with ys4.
           destruct (Hadv ltac:(lra)); lra.
      * left. apply ahead_real. left. split; [exact Hy|].
        change (to_R (y (position sb4))) with ys4.
        destruct (Hnew20 Hr) as [_ H20].
        replace (Z.min (T + 1) 20) with 20%Z in SPs4 by lia. lra.
    + (* older enemies stay ahead of younger ones *)
      intros i j bi' bj' Hri Hrj Hij.
      destruct (Hcases i bi' Hri)
        as [(bi & Hregi & Hini & Hmi)|(Hr_i & Hi_r & Hall_i & Hyi)];
        destruct (Hcases j bj' Hrj)
          as [(bj & Hregj & Hinj & Hmj)|(Hr_j & Hj_r & Hall_j & Hyj)].
      * pose proof (SPa i j bi bj Hregi Hregj Hij) as Hah.
        apply ahead_aheadR in Hah.
        fold (ry (position bi)) in Hah. fold (ry (position bj)) in Hah.
        apply ahead_real. right.
        apply (aheadR_step (ry (position bi)) (ry (position bj))
                 (ry (position bi')) (ry (position bj')) Hah).
        -- destruct Hmi as [(Hy & _ & _)|(_ & _ & Hmv & _)]; [|lra].
           assert (E : ry (position bi) = -50)
             by (unfold ry; rewrite Hy; apply to_R_of_Z).
           destruct Hah as [[? ?]|[? ?]]; lra.
        -- destruct Hmj as [(Hy & _ & Hy')|(H0 & _ & Hmv & _)].
           ++ left. split; [unfold ry; rewrite Hy; apply to_R_of_Z | exact Hy'].
           ++ right. split; [exact H0 | lra].
      * apply ahead_real. left. split; [exact Hyj|].
        fold (ry (position bi')).
        destruct (Hnew20 Hr_j) as [Hm19 _].
        destruct Hmi as [(_ & Hr0 & _)|(_ & Hlow & Hmv & _)].
        -- exfalso. unfold m in Hm19. rewrite Hr0 in Hm19. cbn in Hm19. lia.
        -- rewrite Hm19 in Hlow. lra.
      * specialize (Hall_i j Hinj). lia.
      * lia.
    + (* the spawner, while it is registered *)
      intro HinS. rewrite He4 in HinS.
      destruct HinS as [E|HinS]; [lia|].
      destruct (Hreg_s HinS) as (HSrest & HSnq & HSnear).
      assert (HinS0 : In (S pid) (entities w)) by (rewrite He; now right).
      assert (Hgoal : py + 10 < ys4 ->
                (y (position b4) + Num.of_Z 10 <? y (position sb4))%num = true).
      { intro H. apply ltb_sound. rewrite to_R_add, to_R_of_Z, Hpos4. exact H. }
      destruct (SPd HinS0) as [H100|[[H75 Hq75]|Hpass]].
      * rewrite Hh4, H100.
        destruct (filter (touches w ppos) rest) as [|i l] eqn:Ef.
        -- cbn [length].
           destruct (near 10 (enemy_move (Num.of_Z 3) ppos (position sb3)) ppos)
             eqn:En.
           ++ right. left. split; [lia|]. apply Hq_s. reflexivity.
           ++ left. lia.
        -- right. right. apply Hgoal.
           assert (Hi : In i (filter (touches w ppos) rest))
             by (rewrite Ef; now left).
           apply filter_In in Hi. destruct Hi as [Hirest Hit].
           destruct (touches_enemy w ppos i Ht Hit) as (b & Hlb & Hnb).
           assert (Hns : i <> S pid).
           { intro; subst i. rewrite Hso in Hlb. inversion Hlb. subst b.
             rewrite Hnb in HSnear. discriminate. }
           assert (Hreg : regular w pid i b).
           { split; [rewrite He; now right|]. split; assumption. }
           destruct (SPr i b Hreg) as [H500 _]. realize.
           fold (ry (position b)) in H500.
           apply near_y in Hnb. fold py in Hnb.
           pose proof (enemy_move_y_bounds ppos (position b)) as Hmvb.
           destruct (SPas i b Hreg) as [Hah|H511].
           ++ apply ahead_aheadR in Hah.
              change (to_R (y (position sb))) with ys in Hah.
              fold (ry (position b)) in Hah.
              destruct Hah as [[Hb50 _]|[Hb0 Hgap]]; [lra|].
              destruct (Hadv ltac:(lra)); lra.
           ++ realize. change (to_R (y (position sb))) with ys in H511.
              destruct (Hadv ltac:(lra)); lra.
      * contradiction.
      * right. right. apply Hgoal. realize.
        change (to_R (y (position sb))) with ys in Hpass.
        fold (ry (position pb)) in Hpass.
        destruct (Hadv ltac:(lra)); lra.
  - (* the health *)
    assert (Hnd : NoDup rest) by (apply (sorted_head pid rest Hsort)).
    assert (Hpair : forall i j bi bj,
               regular w pid i bi -> regular w pid j bj -> (i < j)%nat ->
               near 10 (enemy_move (Num.of_Z 3) ppos (position bi)) ppos = true ->
               near 10 (enemy_move (Num.of_Z 3) ppos (position bj)) ppos = true ->
               False).
    { intros i j bi bj Hregi Hregj Hij Hni Hnj.
      pose proof (SPa i j bi bj Hregi Hregj Hij) as Hah.
      apply ahead_aheadR in Hah.
      fold (ry (position bi)) in Hah. fold (ry (position bj)) in Hah.
      destruct (SPr j bj Hregj) as [H500 _]. realize.
      fold (ry (position bj)) in H500.
      apply near_y in Hni, Hnj. fold py in Hni, Hnj.
      pose proof (enemy_move_y_bounds ppos (position bi)) as Hmi.
      pose proof (enemy_move_y_bounds ppos (position bj)) as Hmj.
      exact (aheadR_apart _ _ _ _ py Hah H500 (proj1 Hmi) (proj2 Hmj) Hpy0
               Hni Hnj). }
    assert (HSpair : forall i b y1s,
               regular w pid i b ->
               near 10 (enemy_move (Num.of_Z 3) ppos (position b)) ppos = true ->
               ys + 282 / 100 <= y1s -> py - 10 <= y1s <= py + 10 -> False).
    { intros i b y1s Hreg Hnb Hy1 Hty.
      destruct (SPr i b Hreg) as [H500 _]. realize.
      fold (ry (position b)) in H500.
      apply near_y in Hnb. fold py in Hnb.
      pose proof (enemy_move_y_bounds ppos (position b)) as Hmvb.
      destruct (SPas i b Hreg) as [Hah|H511].
      - apply ahead_aheadR in Hah.
        change (to_R (y (position sb))) with ys in Hah.
        fold (ry (position b)) in Hah.
        exact (aheadR_apart _ _ _ _ py Hah H500 Hy1 (proj2 Hmvb) Hpy0 Hty Hnb).
      - realize. change (to_R (y (position sb))) with ys in H511. lra. }
    assert (Hregular : forall i, In i rest -> i <> S pid ->
               touches w ppos i = true ->
               exists b, regular w pid i b
                 /\ near 10 (enemy_move (Num.of_Z 3) ppos (position b)) ppos
                    = true).
    { intros i Hi Hns Hit.
      destruct (touches_enemy w ppos i Ht Hit) as (b & Hlb & Hnb).
      exists b. split; [|exact Hnb].
      split; [rewrite He; now right|]. split; assumption. }
    assert (HStouch : touches w ppos (S pid) = true ->
               py - 10 <= ry (enemy_move (Num.of_Z 3) ppos (position sb))
                       <= py + 10
               /\ ys + 282 / 100
                  <= ry (enemy_move (Num.of_Z 3) ppos (position sb))).
    { intro Htouch.
      destruct (touches_enemy w ppos _ Ht Htouch) as (b & Hlb & Hnb).
      rewrite Hso in Hlb. inversion Hlb. subst b.
      apply near_y in Hnb. fold py in Hnb.
      pose proof (enemy_move_y_bounds ppos (position sb)) as Hmvs.
      fold ys in Hmvs. split; [exact Hnb | exact (proj1 Hmvs)]. }
    unfold step_ok. rewrite Hh4.
    pose proof (NoDup_filter (touches w ppos) Hnd) as Hndf.
    destruct (filter (touches w ppos) rest) as [|i [|j l]] eqn:Ef;
      cbn [length].
    + destruct (near 10 (enemy_move (Num.of_Z 3) ppos (position sb3)) ppos);
        [right; left; lia | left; lia].
    + destruct (near 10 (enemy_move (Num.of_Z 3) ppos (position sb3)) ppos)
        eqn:En; [|right; left; lia].
      assert (Hi : In i (filter (touches w ppos) rest)) by (rewrite Ef; now left).
      apply filter_In in Hi. destruct Hi as [Hirest Hit].
      apply near_y in En. fold py in En. fold y14 in En.
      destruct (Nat.eq_dec i (S pid)) as [->|Hns].
      * (* the spawner, in the pass and after it *)
        right. right. left. split; [lia|].
        assert (HinS0 : In (S pid) (entities w)) by (rewrite He; now right).
        destruct (HStouch Hit) as [Hty Hy1].
        destruct (SPd HinS0) as [H100|[[H75 _]|Hpass]];
          [now left | now right |].
        exfalso. realize.
        change (to_R (y (position sb))) with ys in Hpass.
        fold (ry (position pb)) in Hpass. lra.
      * exfalso.
        destruct (Hregular i Hirest Hns Hit) as (b & Hreg & Hnb).
        assert (Hys0 : 0 <= ys).
        { destruct (SPas i b Hreg) as [Hah|H511].
          - apply ahead_aheadR in Hah.
            change (to_R (y (position sb))) with ys in Hah.
            destruct Hah as [[? ?]|[? ?]]; lra.
          - realize. change (to_R (y (position sb))) with ys in H511. lra. }
        destruct HS3 as [E3|(_ & Hm3 & Hc3)].
        -- exact (HSpair i b y14 Hreg Hnb ltac:(lra) En).
        -- destruct (Rclip_advance ys _ Hys0 (proj1 Hm3)) as [[E _]|[E _]];
             rewrite E in Hc3; [|lra].
           exact (HSpair i b y14 Hreg Hnb ltac:(lra) En).
    + exfalso.
      assert (Hi : In i (filter (touches w ppos) rest)) by (rewrite Ef; now left).
      assert (Hj : In j (filter (touches w ppos) rest))
        by (rewrite Ef; right; now left).
      apply filter_In in Hi, Hj.
      destruct Hi as [Hirest Hit]. destruct Hj as [Hjrest Hjt].
      assert (Hij : i <> j).
      { inversion Hndf as [|? ? Hni _]. intro; subst j. apply Hni. now left. }
      destruct (Nat.eq_dec i (S pid)) as [->|Hnsi].
      { destruct (HStouch Hit) as [Hty Hy1].
        destruct (Hregular j Hjrest ltac:(congruence) Hjt) as (bj & Hregj & Hnj).
        exact (HSpair j bj _ Hregj Hnj Hy1 Hty). }
      destruct (Nat.eq_dec j (S pid)) as [->|Hnsj].
      { destruct (HStouch Hjt) as [Hty Hy1].
        destruct (Hregular i Hirest Hnsi Hit) as (bi & Hregi & Hni).
        exact (HSpair i bi _ Hregi Hni Hy1 Hty). }
      destruct (Hregular i Hirest Hnsi Hit) as (bi & Hregi & Hni).
      destruct (Hregular j Hjrest Hnsj Hjt) as (bj & Hregj & Hnj).
      destruct (Nat.lt_gt_cases i j) as [Hlt _].
      destruct (Hlt Hij) as [L|L].
      * exact (Hpair i j bi bj Hregi Hregj L Hni Hnj).
      * exact (Hpair j i bj bi Hregj Hregi L Hnj Hni).
Qed.

End Spacing.

(** *** The spacing holds in every run *)

Lemma regular_same (w w' : world) (pid i : nat) (b : body) :
  heap w' = heap w -> entities w' = entities w ->
  regular w' pid i b -> regular w pid i b.
Proof. unfold regular. intros -> ->. tauto. Qed.

(** The spacing only looks at the objects, the registry, the queue and
    the references. *)
Lemma well_spaced_same (w w' : world) :
  heap w' = heap w -> entities w' = entities w ->
  queued_entities_for_removal w' = queued_entities_for_removal w ->
  player w' = player w -> enemy_spawner w' = enemy_spawner w ->
  running_id w' = running_id w ->
  well_spaced w -> well_spaced w'.
Proof.
  intros Hh He Hq Hp Hs Hr (pid & pb & pp & sb & rest & Hses & Hsp).
  exists pid, pb, pp, sb, rest. split.
  - destruct Hses as [[Tb Te Tp] Hpl Hspl Hpo Hso Hen Hsort Hbelow Hqu Hlast
                        Hbox Htimer].
    constructor; rewrite ?Hh, ?He, ?Hq, ?Hp, ?Hs, ?Hr; try assumption.
    constructor; unfold ids_below; rewrite ?Hh, ?Hr; assumption.
  - destruct Hsp as [SPs SPr SPas SPa SPd].
    constructor; rewrite ?He, ?Hq; try assumption.
    + intros i b Hreg. apply (SPr i b). eapply regular_same; eassumption.
    + intros i b Hreg. apply (SPas i b). eapply regular_same; eassumption.
    + intros i j bi bj Hi Hj. apply (SPa i j bi bj);
        eapply regular_same; eassumption.
Qed.

Lemma player_health_same (w w' : world) :
  heap w' = heap w -> player w' = player w ->
  player_health w' = player_health w.
Proof. unfold player_health, the_player. intros -> ->. reflexivity. Qed.

Lemma player_health_dispatch_key (ev : key_event) (w : world) :
  player_health (dispatch_key ev w) = player_health w.
Proof.
  unfold player_health, the_player, dispatch_key. globals.
  destruct (player w) as [pid|]; [|reflexivity].
  rewrite lookup_dispatch_key.
  destruct (lookup pid (heap w)) as [[b p|b s pr|b s]|]; reflexivity.
Qed.

Lemma well_spaced_dispatch_key (ev : key_event) (w : world) :
  well_spaced w -> well_spaced (dispatch_key ev w).
Proof.
  intros (pid & pb & pp & sb & rest & Hses & Hsp).
  assert (Hl : forall k, lookup k (heap (dispatch_key ev w))
                        = match lookup k (heap w) with
                          | Some (Player b p) =>
                              Some (Player b (set_raw_input
                                                (apply_key ev (raw_input p)) p))
                          | o => o
                          end)
    by (intro k; unfold dispatch_key; globals; apply lookup_dispatch_key).
  assert (Hen : forall k b s, lookup k (heap (dispatch_key ev w))
                              = Some (Enemy b s) ->
                              lookup k (heap w) = Some (Enemy b s)).
  { intros k b s H. rewrite Hl in H.
    destruct (lookup k (heap w)) as [[b0 p0|b0 s0 pr0|b0 s0]|];
      try discriminate; exact H. }
  assert (Hreg : forall i b, regular (dispatch_key ev w) pid i b ->
                             regular w pid i b).
  { intros i b (H1 & H2 & H3). split; [exact H1|]. split; [exact H2|].
    now apply Hen. }
  exists pid, pb, (set_raw_input (apply_key ev (raw_input pp)) pp), sb, rest.
  destruct Hses as [[Tb Te Tp] Hpl Hspl Hpo Hso Hent Hsort Hbelow Hqu Hlast
                      Hbox Htimer].
  split.
  - constructor; try assumption.
    + constructor.
      * intros k e H. rewrite Hl in H.
        destruct (lookup k (heap w)) as [e0|] eqn:E; [|discriminate].
        exact (Tb k e0 E).
      * intros i b s H. exact (Te i b s (Hen i b s H)).
      * intros i b p H. rewrite Hl in H.
        destruct (lookup i (heap w)) as [[b0 p0|b0 s0 pr0|b0 s0]|] eqn:E;
          try discriminate.
        inversion H. subst. exact (Tp i b p0 E).
    + rewrite Hl, Hpo. reflexivity.
    + rewrite Hl, Hso. reflexivity.
    + intros i b p H. rewrite Hl in H.
      destruct (lookup i (heap w)) as [[b0 p0|b0 s0 pr0|b0 s0]|] eqn:E;
        try discriminate.
      inversion H. subst. exact (Hlast i b p0 E).
  - destruct Hsp as [SPs SPr SPas SPa SPd].
    constructor; try assumption.
    + intros i b H. exact (SPr i b (Hreg i b H)).
    + intros i b H. exact (SPas i b (Hreg i b H)).
    + intros i j bi bj Hi Hj. exact (SPa i j bi bj (Hreg i bi Hi) (Hreg j bj Hj)).
Qed.

(** [start()] opens a session whose only enemy is the spawner. *)
Lemma well_spaced_start (w : world) :
  tidy w -> well_spaced (start w) /\ player_health (start w) = 100.
Proof.
  intros [Tb Te Tp].
  set (r := running_id w).
  assert (Hnone : forall j, (r <= j)%nat -> lookup j (heap w) = None).
  { intros j Hj. destruct (lookup j (heap w)) eqn:E; [|reflexivity].
    apply Tb in E. fold r in E. lia. }
  assert (Hh : heap (start w)
               = store (S r)
                   (Enemy (set_position
                             (mkpoint
                                (Num.of_Z
                                   (Qfloor (Double.mul
                                              (random_source w (random_calls w))
                                              260) + 30))
                                (Num.of_Z (-50)))
                             (mkbody (S r) origin origin default_size 100))
                          (Num.of_Z 3))
                   (store r
                      (Player (set_position
                                 (mkpoint (Num.of_Z 360 / Num.of_Z 2)%num
                                          (Num.of_Z 500 - Num.of_Z 100)%num)
                                 (mkbody r origin origin default_size 100))
                              (mkplayer (mkcontroller 0 0 false) []
                                        (Num.of_Z 2) 0 false green 0 [] []))
                      (heap w))) by reflexivity.
  assert (He : entities (start w) = [r; S r]).
  { change (entities (start w)) with (reg_insert (S r) [r]).
    rewrite reg_insert_after by lia. reflexivity. }
  assert (Hp : player (start w) = Some r) by reflexivity.
  assert (Hs : enemy_spawner (start w) = Some (S r)) by reflexivity.
  assert (Hq : queued_entities_for_removal (start w) = []) by reflexivity.
  assert (Hr : running_id (start w) = S (S r)) by reflexivity.
  assert (Hlp : lookup r (heap (start w))
                = Some (Player (set_position
                                  (mkpoint (Num.of_Z 360 / Num.of_Z 2)%num
                                           (Num.of_Z 500 - Num.of_Z 100)%num)
                                  (mkbody r origin origin default_size 100))
                               (mkplayer (mkcontroller 0 0 false) []
                                         (Num.of_Z 2) 0 false green 0 [] []))).
  { rewrite Hh. rewrite lookup_store_other by lia. apply lookup_store_same. }
  assert (Hls : forall k, k <> r -> k <> S r ->
                          lookup k (heap (start w)) = lookup k (heap w)).
  { intros k H1 H2. rewrite Hh. now rewrite !lookup_store_other by congruence. }
  split.
  - eexists r, _, _, _, [S r]. split.
    + constructor.
      * constructor.
        -- intros k e H. rewrite Hr.
           destruct (Nat.eq_dec k r) as [->|N1]; [lia|].
           destruct (Nat.eq_dec k (S r)) as [->|N2]; [lia|].
           rewrite Hls in H by assumption. apply Tb in H. fold r in H. lia.
        -- intros i b s H.
           destruct (Nat.eq_dec i r) as [->|N1]; [congruence|].
           destruct (Nat.eq_dec i (S r)) as [->|N2].
           ++ rewrite Hh, lookup_store_same in H. inversion H.
              split; reflexivity.
           ++ rewrite Hls in H by assumption. exact (Te i b s H).
        -- intros i b p H.
           destruct (Nat.eq_dec i r) as [->|N1].
           ++ rewrite Hlp in H. inversion H. split; reflexivity.
           ++ destruct (Nat.eq_dec i (S r)) as [->|N2].
              ** rewrite Hh, lookup_store_same in H. discriminate.
              ** rewrite Hls in H by assumption. exact (Tp i b p H).
      * exact Hp.
      * exact Hs.
      * exact Hlp.
      * rewrite Hh. apply lookup_store_same.
      * exact He.
      * repeat constructor; lia.
      * intros i [<-|[]]. rewrite Hr. lia.
      * rewrite Hq. intros [].
      * intros i b p H.
        destruct (Nat.eq_dec i r) as [->|N1]; [lia|].
        destruct (Nat.eq_dec i (S r)) as [->|N2].
        -- rewrite Hh, lookup_store_same in H. discriminate.
        -- rewrite Hls in H by assumption. apply Tb in H. fold r in H. lia.
      * reflexivity.
      * cbn. lia.
    + assert (Hno : forall i b, ~ regular (start w) r i b).
      { intros i b (Hin & Hns & Hl). rewrite He in Hin.
        destruct Hin as [<-|[<-|[]]]; [congruence | congruence]. }
      constructor.
      * left. split; reflexivity.
      * intros i b H. destruct (Hno i b H).
      * intros i b H. destruct (Hno i b H).
      * intros i j bi bj H. destruct (Hno i bi H).
      * intros _. left. reflexivity.
  - unfold player_health, the_player. rewrite Hp, Hlp. reflexivity.
Qed.

Lemma tidy_declared (rnd : nat -> Q) : tidy (declared rnd).
Proof. constructor; intros k; intros; discriminate. Qed.

Lemma well_spaced_page_load (rnd : nat -> Q) : well_spaced (page_load rnd).
Proof. exact (proj1 (well_spaced_start _ (tidy_declared rnd))). Qed.

(** A step keeps the spacing, and what it does to the health is one of
    the four things [step_ok] lists. *)
Lemma well_spaced_update (dt : Q) (w : world) :
  well_spaced w ->
  well_spaced (update dt w)
  /\ step_ok (player_health w) (player_health (update dt w)).
Proof.
  intros (pid & pb & pp & sb & rest & Hses & Hsp).
  destruct (Spacing.spaced_step dt w pid pb pp sb rest Hses Hsp)
    as (b4 & p4 & sb4 & rest4 & Hses4 & Hsp4 & Hok & Hupd).
  assert (Hh : player_health w = health pb).
  { unfold player_health.
    rewrite (the_player_intro w pid pb pp (ses_player _ _ _ _ _ _ Hses)
               (ses_player_obj _ _ _ _ _ _ Hses)). reflexivity. }
  rewrite Hupd, Hh.
  set (w4 := entity_update (S pid) dt
               (flush (update_entities dt (pollController w)))) in *.
  destruct (player_dead_and_action w4).
  - destruct (well_spaced_start w4 (ses_tidy _ _ _ _ _ _ Hses4)) as [Hw H100].
    split; [exact Hw|]. rewrite H100. unfold step_ok. tauto.
  - split; [exists pid, b4, p4, sb4, rest4; split; assumption|].
    unfold player_health.
    rewrite (the_player_intro w4 pid b4 p4 (ses_player _ _ _ _ _ _ Hses4)
               (ses_player_obj _ _ _ _ _ _ Hses4)). exact Hok.
Qed.

Lemma last_cons_default (a : Z) (l : list Z) (d : Z) :
  last (a :: l) d = last l a.
Proof.
  revert a d. induction l as [|b l IH]; intros a d; [reflexivity|].
  change (last (a :: b :: l) d) with (last (b :: l) d).
  rewrite (IH b d), (IH b a). reflexivity.
Qed.

Lemma chain_ok_app (h : Z) (l1 l2 : list Z) :
  chain_ok h l1 -> chain_ok (last l1 h) l2 -> chain_ok h (l1 ++ l2).
Proof.
  revert h. induction l1 as [|a l1 IH]; intros h H1 H2; [exact H2|].
  destruct H1 as [Ha H1]. split; [exact Ha|]. apply IH; [exact H1|].
  rewrite last_cons_default in H2. exact H2.
Qed.

Lemma last_app_cons (h : Z) (l1 l2 : list Z) :
  last (l1 ++ l2) h = last l2 (last l1 h).
Proof.
  revert h. induction l1 as [|a l1 IH]; intro h; [reflexivity|].
  change ((a :: l1) ++ l2) with (a :: (l1 ++ l2)).
  rewrite !last_cons_default. apply IH.
Qed.

Lemma chain_ok_nth (l : list Z) :
  forall h k a b, chain_ok h l ->
    nth_error l k = Some a -> nth_error l (S k) = Some b -> step_ok a b.
Proof.
  induction l as [|x l IH]; intros h k a b Hc Ha Hb; [destruct k; discriminate|].
  destruct Hc as [_ Hc]. destruct k as [|k].
  - inversion Ha. subst x. destruct l as [|y l]; [discriminate|].
    inversion Hb. subst y. exact (proj1 Hc).
  - exact (IH x k a b Hc Ha Hb).
Qed.

Lemma well_spaced_after_pass (c : Q) (w : world) :
  well_spaced w -> well_spaced (after_pass c w).
Proof. apply well_spaced_same; reflexivity. Qed.

Lemma well_spaced_loop_prologue (c : Q) (w : world) :
  well_spaced w -> well_spaced (loop_prologue c w).
Proof. apply well_spaced_same; reflexivity. Qed.

Lemma loop_while_spaced (fuel : nat) :
  forall c d w w' evs,
    well_spaced w -> loop_while fuel c d w = Some (w', evs) ->
    well_spaced w'
    /\ chain_ok (player_health w) (map player_health (states evs))
    /\ player_health w'
       = last (map player_health (states evs)) (player_health w).
Proof.
  induction fuel as [|fuel IH]; intros c d w w' evs Hw Hrun.
  - simpl in Hrun. destruct (Qgtb d config_update_rate_seconds); [discriminate|].
    inversion Hrun. subst. split; [exact Hw|]. split; [exact I | reflexivity].
  - rewrite loop_while_S in Hrun.
    destruct (Qgtb d config_update_rate_seconds).
    + rewrite loop_body_eq in Hrun. cbn [fst snd] in Hrun.
      destruct (well_spaced_update config_update_rate_seconds w Hw) as [Hw1 Hok].
      set (w1 := update config_update_rate_seconds w) in *.
      destruct (loop_while fuel c (Double.sub d config_update_rate_seconds)
                  (after_pass c w1)) as [[w2 evs2]|] eqn:E; [|discriminate].
      inversion Hrun. subst w' evs.
      destruct (IH _ _ _ _ _ (well_spaced_after_pass c w1 Hw1) E)
        as (Hw2 & Hc2 & Hl2).
      change (player_health (after_pass c w1)) with (player_health w1) in Hc2, Hl2.
      split; [exact Hw2|].
      change (states ([ev_update config_update_rate_seconds w1; ev_draw (draw w1)]
                      ++ evs2)) with (w1 :: states evs2).
      cbn [map]. split; [split; assumption|].
      rewrite Hl2. symmetry. apply last_cons_default.
    + inversion Hrun. subst. split; [exact Hw|]. split; [exact I | reflexivity].
Qed.

Lemma fold_key_spaced (evs : list key_event) :
  forall w, well_spaced w ->
    well_spaced (fold_left (fun w0 ev => dispatch_key ev w0) evs w)
    /\ player_health (fold_left (fun w0 ev => dispatch_key ev w0) evs w)
       = player_health w.
Proof.
  induction evs as [|ev evs IH]; intros w Hw; simpl; [split; auto|].
  destruct (IH _ (well_spaced_dispatch_key ev w Hw)) as [H1 H2].
  split; [exact H1|]. rewrite H2. apply player_health_dispatch_key.
Qed.

Lemma run_spaced (fs : list frame) :
  forall w w' evs,
    well_spaced w -> run fs w = Some (w', evs) ->
    well_spaced w'
    /\ chain_ok (player_health w) (map player_health (states evs))
    /\ player_health w'
       = last (map player_health (states evs)) (player_health w).
Proof.
  induction fs as [|f fs IH]; intros w w' evs Hw Hrun; simpl in Hrun.
  - inversion Hrun. subst. split; [exact Hw|]. split; [exact I | reflexivity].
  - destruct (run_frame f w) as [[w1 evs1]|] eqn:E1; [|discriminate].
    destruct (run fs w1) as [[w2 evs2]|] eqn:E2; [|discriminate].
    inversion Hrun. subst w' evs.
    unfold run_frame, loop in E1.
    destruct (fold_key_spaced (keys f) w Hw) as [Hk Hkh].
    set (kw := fold_left (fun w0 ev => dispatch_key ev w0) (keys f) w) in *.
    apply loop_while_spaced in E1;
      [|apply well_spaced_loop_prologue; exact Hk].
    change (player_health (loop_prologue (clock (time_ms f)) kw))
      with (player_health kw) in E1.
    rewrite Hkh in E1. destruct E1 as (Hw1 & Hc1 & Hl1).
    destruct (IH _ _ _ Hw1 E2) as (Hw2 & Hc2 & Hl2).
    split; [exact Hw2|]. rewrite states_app, map_app.
    split.
    + apply chain_ok_app; [exact Hc1|]. rewrite <- Hl1. exact Hc2.
    + rewrite last_app_cons, <- Hl1. exact Hl2.
Qed.

(** In every run from page load each step leaves the player's health,
    takes 25 from it, takes 50 from a health of 100 or 75, or resets it
    to 100. *)
Lemma health_steps (rnd : nat -> Q) (fs : list frame) :
  exists (w : world) (evs : list event),
    run fs (page_load rnd) = Some (w, evs)
    /\ forall (k : nat) (a b : world),
         nth_error (states evs) k = Some a ->
         nth_error (states evs) (S k) = Some b ->
         step_ok (player_health a) (player_health b).
Proof.
  destruct (run_total fs (page_load rnd) (clock_ok_page_load rnd))
    as (w & ws & Hrun & _).
  exists w, (step_events ws). split; [exact Hrun|].
  destruct (run_spaced fs _ _ _ (well_spaced_page_load rnd) Hrun)
    as (_ & Hc & _).
  intros k a b Ha Hb.
  apply (chain_ok_nth _ _ k _ _ Hc);
    rewrite nth_error_map; [rewrite Ha | rewrite Hb]; reflexivity.
Qed.

Lemma step_ok_not_25_to_minus_25 (before after : Z) :
  step_ok before after -> ~ (before = 25 /\ after = -25).
Proof. unfold step_ok. lia. Qed.

(* ------------------------------------------------------------------ *)
(** ** Health below zero (C10) *)
(* ------------------------------------------------------------------ *)

(** In the run [second_death_frames] the spawner of the second session,
    id 11, is registered and so updated twice a step.  It touches the
    player on step 217, which takes 25, and twice on step 218, which
    takes 50 and removes it from the registry; from then on it is updated
    once a step and takes 25 each time, through 0 to -75. *)
Lemma restarted_spawner_hits_twice :
  let ws := history second_death_frames (page_load aimed_random) in
  length ws = 239%nat
  /\ map player_health (firstn 8 (skipn 215 ws))
     = [100; 75; 25; 0; -25; -50; -75; -75]
  /\ map (fun w => (enemy_spawner w, in_registry 11 w))
         (firstn 3 (skipn 215 ws))
     = [(Some 11%nat, true); (Some 11%nat, true); (Some 11%nat, false)].
Proof.
  vm_compute. repeat split; reflexivity.
Qed.



(* ------------------------------------------------------------------ *)
(** ** [Double] agrees with the primitive floats *)
(* ------------------------------------------------------------------ *)

(** The values the runs above depend on, computed once with [Double] and
    once with the binary64 floats of the kernel. *)
Module DoubleCheck.
Import Floats FloatRef.
Local Open Scope float_scope.

Lemma step_is_the_float :
  Some config_update_rate_seconds = float_value (1 / 60).
Proof. vm_compute. reflexivity. Qed.

Lemma clock_is_the_float :
  map (fun ms => Some (clock ms))
      [0; 50; 1390; 1680; 1980; 2180; 2190; 2500; 2520; 2700; 3100; 3630;
       4100; 5000]%Q
  = map float_value
      [0 / 1000; 50 / 1000; 1390 / 1000; 1680 / 1000; 1980 / 1000;
       2180 / 1000; 2190 / 1000; 2500 / 1000; 2520 / 1000; 2700 / 1000;
       3100 / 1000; 3630 / 1000; 4100 / 1000; 5000 / 1000].
Proof. vm_compute. reflexivity. Qed.

Lemma gate_is_the_float :
  Some (Double.add (clock 1680) (1 # 2)) = float_value (1680 / 1000 + 0.5)
  /\ (1680 / 1000 + 0.5 <? 2180 / 1000) = true
  /\ Some (Double.add (clock 2190) (1 # 2)) = float_value (2190 / 1000 + 0.5).
Proof. vm_compute. repeat split; reflexivity. Qed.

Lemma sub_is_the_float :
  Some (Double.sub (clock 4520) (clock 2520))
  = float_value (4520 / 1000 - 2520 / 1000)
  /\ Some (Double.sub (clock 1980) (clock 1680))
     = float_value (1980 / 1000 - 1680 / 1000).
Proof. vm_compute. repeat split; reflexivity. Qed.

Lemma random_is_the_float :
  Some (Double.round (15 # 26)) = float_value (15 / 26)
  /\ Some (Double.mul (Double.round (15 # 26)) 260)
     = float_value (15 / 26 * 260)
  /\ Some (Double.mul (Double.round (159 # 260)) 260)
     = float_value (159 / 260 * 260).
Proof. vm_compute. repeat split; reflexivity. Qed.

Lemma passes_are_the_floats :
  map (float_passes 1000)
      [50 / 1000 - 0 / 1000; 2500 / 1000 - 0 / 1000;
       1980 / 1000 - 1680 / 1000; 4100 / 1000 - 0 / 1000;
       1390 / 1000 - 0 / 1000; 3100 / 1000 - 2500 / 1000]
  = [3; 150; 18; 246; 83; 35]%nat.
Proof. vm_compute. reflexivity. Qed.

End DoubleCheck.
